(** * JSONCheck: the recursive structural validator of json-validator.js

    A shallow embedding of [getType] (helpers.js) and [JSONCheck]
    (json-validator.js) together with the laws the specification states
    about them, followed by [equals], [objDeepClone], [recursiveRemoveKey],
    [revObj] and [arr2enum] (helpers.js) and by [stringEncoder]
    (stringEncoder.js) with properties read off their code.

    Conventions of the embedding.
    - A JavaScript value is a finite tree ([value]).  Numbers are the
      integer-valued ones ([Z]); [NaN], infinities and fractions are not
      represented.  Strings are sequences of 8-bit characters.
    - An object is the list of its own enumerable properties, each key once,
      in [for..in] order; its prototype is [Object.prototype].  An array is
      dense and carries no named property of its own.
    - Input and validator are separate trees: no object of one is an object
      of the other, so [===] between two objects is [false].
    - A computation either returns or ends in a [fault]: [TypeError] is the
      JavaScript exception; [Uncovered] marks a run that needs a coercion
      this development does not embed (a string, array or object converted
      to a number, or a call of a function stored in a data property).
    - [JSON.stringify] and [JSON.parse] are embedded on the texts that
      [stringEncoder.encode] writes: arrays and objects of strings and
      [null], without white space.  The parser and [decode] run on fuel
      that the length of the text provides. *)

From Stdlib Require Import String Ascii List ZArith Bool Arith Lia DecimalString.
Import ListNotations.

Local Open Scope string_scope.
Local Open Scope list_scope.

(** ** Values *)

Unset Elimination Schemes.

Inductive value : Type :=
| VUndef
| VNull
| VBool (b : bool)
| VNum (n : Z)
| VStr (s : string)
| VSym (id : nat)
| VFun (name : string) (arity : nat)
| VRegExp (source flags : string)
| VArr (items : list value)
| VObj (props : list (string * value)).

Set Elimination Schemes.

(** Induction over the tree, with the hypothesis available for every
    element of an array and every property value of an object. *)
Definition value_tree_ind (P : value -> Prop)
    (Hundef : P VUndef) (Hnull : P VNull)
    (Hbool : forall b, P (VBool b)) (Hnum : forall n, P (VNum n))
    (Hstr : forall s, P (VStr s)) (Hsym : forall i, P (VSym i))
    (Hfun : forall f a, P (VFun f a)) (Hre : forall s f, P (VRegExp s f))
    (Harr : forall items, Forall P items -> P (VArr items))
    (Hobj : forall props, Forall (fun kv => P (snd kv)) props -> P (VObj props))
  : forall v, P v :=
  fix go (v : value) : P v :=
    match v with
    | VUndef => Hundef
    | VNull => Hnull
    | VBool b => Hbool b
    | VNum n => Hnum n
    | VStr s => Hstr s
    | VSym i => Hsym i
    | VFun f a => Hfun f a
    | VRegExp s f => Hre s f
    | VArr items =>
        Harr items
          ((fix all (l : list value) : Forall P l :=
              match l with
              | [] => Forall_nil P
              | x :: l' => Forall_cons x (go x) (all l')
              end) items)
    | VObj props =>
        Hobj props
          ((fix all (l : list (string * value))
              : Forall (fun kv => P (snd kv)) l :=
              match l with
              | [] => Forall_nil _
              | kv :: l' => Forall_cons kv (go (snd kv)) (all l')
              end) props)
    end.

(** ** Outcomes *)

Inductive fault : Type := TypeError | Uncovered.

Inductive result (A : Type) : Type :=
| Ret (a : A)
| Throw (e : fault).

Arguments Ret {A} a.
Arguments Throw {A} e.

Definition bind {A B : Type} (m : result A) (k : A -> result B) : result B :=
  match m with
  | Ret a => k a
  | Throw e => Throw e
  end.

Declare Scope js_scope.
Delimit Scope js_scope with js.
Notation "x <- m ;; k" := (bind m (fun x => k))
  (at level 61, m at next level, right associativity) : js_scope.
Local Open Scope js_scope.

Section MapM.
Context {A B : Type}.
Variable f : A -> result B.

(** [l.map(f)], left to right; the first fault ends the traversal. *)
Fixpoint mapM (l : list A) : result (list B) :=
  match l with
  | [] => Ret []
  | a :: l' => b <- f a ;; bs <- mapM l' ;; Ret (b :: bs)
  end.
End MapM.

(** [arr.filter(x => x == true).length] and its [false] twin. *)
Definition countTrue (l : list bool) : nat := length (filter (Bool.eqb true) l).
Definition countFalse (l : list bool) : nat := length (filter (Bool.eqb false) l).

(** ** Strings *)

Definition quoteChar : ascii := ascii_of_nat 34.
Definition pipeChar : ascii := ascii_of_nat 124.

(** [s.indexOf(c) != -1] *)
Fixpoint contains (c : ascii) (s : string) : bool :=
  match s with
  | EmptyString => false
  | String d s' => Ascii.eqb d c || contains c s'
  end.

(** [s.split(c)] for a one-character separator. *)
Fixpoint split (c : ascii) (s : string) : list string :=
  match s with
  | EmptyString => [EmptyString]
  | String d s' =>
      if Ascii.eqb d c then EmptyString :: split c s'
      else match split c s' with
           | [] => [String d EmptyString]
           | piece :: pieces => String d piece :: pieces
           end
  end.

(** [pieces.join('')] *)
Definition join (pieces : list string) : string :=
  fold_right String.append EmptyString pieces.

(** The canonical property key of a non-negative integer. *)
Definition indexKey (i : nat) : string := NilZero.string_of_uint (Nat.to_uint i).

(** ** Property access *)

(** Own property lookup. *)
Fixpoint own {V : Type} (k : string) (props : list (string * V)) : option V :=
  match props with
  | [] => None
  | (k', v) :: rest => if String.eqb k' k then Some v else own k rest
  end.

(** The properties every ordinary object inherits from [Object.prototype].
    [__proto__] reads the prototype object, which has no enumerable
    property and is no object of a validator: it behaves as an empty
    object. *)
Definition objectPrototype : list (string * value) :=
  [ ("constructor", VFun "Object" 1);
    ("hasOwnProperty", VFun "hasOwnProperty" 1);
    ("isPrototypeOf", VFun "isPrototypeOf" 1);
    ("propertyIsEnumerable", VFun "propertyIsEnumerable" 1);
    ("toLocaleString", VFun "toLocaleString" 0);
    ("toString", VFun "toString" 0);
    ("valueOf", VFun "valueOf" 0);
    ("__defineGetter__", VFun "__defineGetter__" 2);
    ("__defineSetter__", VFun "__defineSetter__" 2);
    ("__lookupGetter__", VFun "__lookupGetter__" 1);
    ("__lookupSetter__", VFun "__lookupSetter__" 1);
    ("__proto__", VObj []) ].

Definition orUndefined (o : option value) : value :=
  match o with
  | Some v => v
  | None => VUndef
  end.

(** [o[k]] for a property name [k].  [JSONCheck] reads a named property
    of ['objectlike'] inputs only, which are objects. *)
Definition getProp (o : value) (k : string) : result value :=
  match o with
  | VUndef | VNull => Throw TypeError
  | VObj props =>
      match own k props with
      | Some v => Ret v
      | None => Ret (orUndefined (own k objectPrototype))
      end
  | _ => Throw Uncovered
  end.

(** [o[i]] for an index [i]. No prototype has an index property. *)
Definition getIndex (o : value) (i : nat) : result value :=
  match o with
  | VUndef | VNull => Throw TypeError
  | VStr s =>
      Ret (match String.get i s with
           | Some c => VStr (String c EmptyString)
           | None => VUndef
           end)
  | VArr items => Ret (nth i items VUndef)
  | VObj props => Ret (orUndefined (own (indexKey i) props))
  | _ => Ret VUndef
  end.

(** [o.length] *)
Definition getLength (o : value) : result value :=
  match o with
  | VUndef | VNull => Throw TypeError
  | VStr s => Ret (VNum (Z.of_nat (String.length s)))
  | VFun _ a => Ret (VNum (Z.of_nat a))
  | VArr items => Ret (VNum (Z.of_nat (length items)))
  | VObj props => Ret (orUndefined (own "length" props))
  | _ => Ret VUndef
  end.

(** The fault of calling method [name] on a plain object: neither
    [Object.prototype] nor a data property holding data provides it. *)
Definition methodFault (name : string) (props : list (string * value)) : fault :=
  match own name props with
  | Some (VFun _ _) => Uncovered
  | _ => TypeError
  end.

(** ** Coercions *)

(** [ToNumber]; [None] is [NaN]. *)
Definition toNumber (v : value) : result (option Z) :=
  match v with
  | VUndef => Ret None
  | VNull => Ret (Some 0%Z)
  | VBool b => Ret (Some (if b then 1%Z else 0%Z))
  | VNum n => Ret (Some n)
  | VSym _ => Throw TypeError
  | VFun _ _ | VRegExp _ _ => Ret None
  | VStr _ | VArr _ | VObj _ => Throw Uncovered
  end.

(** [a < b] on numbers; a comparison with [NaN] is [false]. *)
Definition numLt (a b : option Z) : bool :=
  match a, b with
  | Some x, Some y => Z.ltb x y
  | _, _ => false
  end.

(** [a === b].  A function is known by its name and arity: two [VFun] of
    one name and arity stand for one function.  Regular expressions,
    arrays and objects are compared as objects of separate trees, which
    are different objects. *)
Definition strictEq (a b : value) : bool :=
  match a, b with
  | VUndef, VUndef => true
  | VNull, VNull => true
  | VBool x, VBool y => Bool.eqb x y
  | VNum x, VNum y => Z.eqb x y
  | VStr x, VStr y => String.eqb x y
  | VSym x, VSym y => Nat.eqb x y
  | VFun f a, VFun g b => String.eqb f g && Nat.eqb a b
  | _, _ => false
  end.

(** [re.toString()] *)
Definition regExpToString (source flags : string) : string :=
  String "/" (source ++ String "/" flags).

(** ** getType (helpers.js) *)

Definition typeof (v : value) : string :=
  match v with
  | VUndef => "undefined"
  | VBool _ => "boolean"
  | VNum _ => "number"
  | VStr _ => "string"
  | VSym _ => "symbol"
  | VFun _ _ => "function"
  | VNull | VRegExp _ _ | VArr _ | VObj _ => "object"
  end.

(** [input.hasOwnProperty(i)] on an object, for an index [i]. *)
Definition hasOwnProperty (input : value) (i : nat) : result bool :=
  match input with
  | VArr items => Ret (i <? length items)%nat
  | VObj props =>
      match own "hasOwnProperty" props with
      | Some _ => Throw (methodFault "hasOwnProperty" props)
      | None => Ret (match own (indexKey i) props with
                     | Some _ => true
                     | None => false
                     end)
      end
  | _ => Ret false
  end.

(** [for(var k in input) { return 'objectlike' }] *)
Definition hasEnumerable (input : value) : bool :=
  match input with
  | VArr (_ :: _) => true
  | VObj (_ :: _) => true
  | _ => false
  end.

(** [Object.prototype.toString.call(input).slice(8,-1)] *)
Definition className (input : value) : string :=
  match input with
  | VArr _ => "Array"
  | VRegExp _ _ => "RegExp"
  | VNull => "Null"
  | VUndef => "Undefined"
  | VBool _ => "Boolean"
  | VNum _ => "Number"
  | VStr _ => "String"
  | VSym _ => "Symbol"
  | VFun _ _ => "Function"
  | VObj _ => "Object"
  end.

Definition getType (input : value) : result string :=
  let simpleType := typeof input in
  if negb (simpleType =? "object") then Ret simpleType
  else
    match input with
    | VNull => Ret "null"
    | _ =>
        len <- getLength input ;;
        arraylike <-
          (if strictEq len VUndef then Ret false
           else
             n <- toNumber len ;;
             if numLt (Some 0%Z) n then
               match n with
               | Some z => hasOwnProperty input (Z.to_nat (z - 1))
               | None => Ret false
               end
             else Ret false) ;;
        if arraylike then Ret "arraylike"
        else if hasEnumerable input then Ret "objectlike"
        else Ret (className input)
    end.


(** ** JSONCheck (json-validator.js) *)

(** Lines 286-302: the comparison by type name or by value, reached when
    the validator is neither ['objectlike'] nor ['arraylike'].  The
    validator has type ['string'] exactly when it is a [VStr]. *)
Definition compareBranch (inputType : string) (inputData validator : value) : bool :=
  match validator with
  | VStr s =>
      if negb (contains quoteChar s) then inputType =? s
      else strictEq inputData (VStr (join (split quoteChar s)))
  | _ => strictEq inputData validator
  end.

(** [JSONCheck] on a validator that has no sub-validator. *)
Definition scalarCheck (validator inputData : value) : result bool :=
  validatorType <- getType validator ;;
  inputType <- getType inputData ;;
  Ret (compareBranch inputType inputData validator).

(** [getType(v) == 'RegExp' && v.toString() === '/each/'] *)
Definition isEach (v : value) : result bool :=
  t <- getType v ;;
  Ret ((t =? "RegExp") &&
       match v with
       | VRegExp source flags => regExpToString source flags =? "/each/"
       | _ => false
       end).

(** The number of rounds of [for(let i = 0; i < o.length; i++)]. *)
Definition loopCount (o : value) : result nat :=
  len <- getLength o ;;
  n <- toNumber len ;;
  Ret (match n with
       | Some z => Z.to_nat z
       | None => 0%nat
       end).

Section Clauses.
(** [check validator inputData] stands for the recursive call
    [JSONCheck(inputData, validator)]. *)
Variable check : value -> value -> result bool.

(** Lines 232-238: [for(var k in validator)]. *)
Section ForIn.
Variable inputData : value.

Fixpoint forIn (props : list (string * value)) : result bool :=
  match props with
  | [] => Ret true
  | (k, validatorK) :: rest =>
      inputK <- getProp inputData k ;;
      valid <- check validatorK inputK ;;
      if Bool.eqb valid false then Ret false else forIn rest
  end.
End ForIn.

Section Candidate.
Variable inputData : value.

(** Lines 250-257: the candidate [[/each/, ...validations]].  The input
    is ['arraylike'] here: an array, or an object with a [length]. *)
Definition eachClause (validations : list value) : result bool :=
  match inputData with
  | VArr items =>
      mapRes <-
        mapM (fun inputDataItem =>
                vs <- mapM (fun validationItem =>
                              check validationItem inputDataItem)
                           validations ;;
                Ret (0 <? countTrue vs)%nat)
             items ;;
      Ret (countFalse mapRes =? 0)%nat
  | VObj props => Throw (methodFault "map" props)
  | _ => Throw Uncovered
  end.

(** Lines 269-272 when the candidate is an array. *)
Fixpoint tupleArr (i : nat) (items : list value) : result (list bool) :=
  match items with
  | [] => Ret []
  | validatorItem :: rest =>
      inputI <- getIndex inputData i ;;
      b <- check validatorItem inputI ;;
      bs <- tupleArr (S i) rest ;;
      Ret (b :: bs)
  end.

(** [JSONCheck(x, o[i])] for an object [o] with properties [props]. *)
Definition checkAt (props : list (string * value)) (i : nat)
  : value -> result bool :=
  match own (indexKey i) (map (fun kv => (fst kv, check (snd kv))) props) with
  | Some c => c
  | None => scalarCheck VUndef
  end.

(** Lines 262-275: the positional loop. *)
Definition tupleClause (validatorItemArr : value) : result bool :=
  validArr <-
    match validatorItemArr with
    | VArr items => tupleArr 0 items
    | VObj props =>
        n <- loopCount validatorItemArr ;;
        mapM (fun i => inputI <- getIndex inputData i ;;
                       checkAt props i inputI)
             (seq 0 n)
    | _ =>
        n <- loopCount validatorItemArr ;;
        mapM (fun i => inputI <- getIndex inputData i ;;
                       scalarCheck VUndef inputI)
             (seq 0 n)
    end ;;
  Ret (countFalse validArr =? 0)%nat.

(** Lines 244-276: the callback of [validator.map].  Only an array or an
    object can have [/each/] at index [0]. *)
Definition candidate (validatorItemArr : value) : result bool :=
  first <- getIndex validatorItemArr 0 ;;
  each <- isEach first ;;
  if each then
    match validatorItemArr with
    | VArr (_ :: validations) => eachClause validations
    | VObj props => Throw (methodFault "slice" props)
    | _ => Throw Uncovered
    end
  else
    validatorItemArrType <- getType validatorItemArr ;;
    if validatorItemArrType =? "string" then check validatorItemArr inputData
    else tupleClause validatorItemArr.
End Candidate.

(** Lines 241-284: the validator is an array. *)
Definition arrayValidator (inputType : string) (inputData : value)
    (validator : list value) : result bool :=
  if inputType =? "arraylike" then
    valid <- mapM (candidate inputData) validator ;;
    Ret (0 <? countTrue valid)%nat
  else
    bools <- mapM (fun validatorItem => check validatorItem inputData) validator ;;
    Ret (0 <? countTrue bools)%nat.

(** Lines 231-238: the validator is ['objectlike']. *)
Definition objectValidator (inputType : string) (inputData : value)
    (validator : list (string * value)) : result bool :=
  if negb (inputType =? "objectlike") then Ret false
  else forIn inputData validator.
End Clauses.

Fixpoint JSONCheck (validator inputData : value) {struct validator} : result bool :=
  validatorType <- getType validator ;;
  inputType <- getType inputData ;;
  match validator with
  | VStr s =>
      if contains pipeChar s then
        (* validator = validator.split('|'): an array of pipe-free strings *)
        arrayValidator scalarCheck inputType inputData (map VStr (split pipeChar s))
      else Ret (compareBranch inputType inputData validator)
  | VObj props =>
      if validatorType =? "objectlike" then
        objectValidator JSONCheck inputType inputData props
      else if validatorType =? "arraylike" then
        (* validator.map is not a function *)
        Throw (methodFault "map" props)
      else Ret (compareBranch inputType inputData validator)
  | VArr items =>
      if validatorType =? "arraylike" then
        arrayValidator JSONCheck inputType inputData items
      else Ret (compareBranch inputType inputData validator)
  | _ => Ret (compareBranch inputType inputData validator)
  end.

(** ** Vocabulary of the laws *)

(** [m1 || m2] between two calls: the second runs when the first returns
    [false]. *)
Definition orElse (m1 m2 : result bool) : result bool :=
  b <- m1 ;; if b then Ret true else m2.

(** The scalar kinds: string, number, boolean, null, undefined, function,
    symbol. *)
Definition isScalar (v : value) : bool :=
  match v with
  | VRegExp _ _ | VArr _ | VObj _ => false
  | _ => true
  end.

(** A type name: a validator string with no pipe and no quote. *)
Definition isTypeName (t : string) : bool :=
  negb (contains pipeChar t) && negb (contains quoteChar t).

(** A literal validator: a validator string with a quote and no pipe. *)
Definition isLiteral (q : string) : bool :=
  negb (contains pipeChar q) && contains quoteChar q.

(** [s] between quotes. *)
Definition quoted (s : string) : string :=
  String quoteChar (s ++ String quoteChar EmptyString).

(** [s] without any occurrence of the character [c]. *)
Fixpoint removeAll (c : ascii) (s : string) : string :=
  match s with
  | EmptyString => EmptyString
  | String d s' => if Ascii.eqb d c then removeAll c s' else String d (removeAll c s')
  end.

(** [input[k] = w] on the own properties of an object. *)
Fixpoint setProp (k : string) (w : value) (props : list (string * value))
  : list (string * value) :=
  match props with
  | [] => [(k, w)]
  | (k', v) :: rest =>
      if String.eqb k' k then (k, w) :: rest else (k', v) :: setProp k w rest
  end.

(** The sentinel [/each/] and the validator [[[/each/, "number"]]]. *)
Definition each : value := VRegExp "each" EmptyString.
Definition eachNumber : value := VArr [VArr [each; VStr "number"]].

Definition isNumber (v : value) : bool :=
  match v with
  | VNum _ => true
  | _ => false
  end.

(** [JSONCheck(inputData[i], validatorItemArr[i])]: position [i] of a
    candidate against position [i] of the input. *)
Definition position (inputData validatorItemArr : value) (i : nat) : result bool :=
  inputI <- getIndex inputData i ;;
  validatorI <- getIndex validatorItemArr i ;;
  JSONCheck validatorI inputI.

(** Whether a candidate starts with the sentinel [/each/]. *)
Definition firstIsEach (validatorItemArr : value) : result bool :=
  first <- getIndex validatorItemArr 0 ;; isEach first.

(** ** A class of inputs and validators on which no fault can arise *)

Definition hasOwn {V : Type} (k : string) (props : list (string * V)) : bool :=
  match own k props with
  | Some _ => true
  | None => false
  end.

(** No object inside [v] has a property named [length] of its own. *)
Fixpoint lengthFree (v : value) : bool :=
  match v with
  | VArr items => forallb lengthFree items
  | VObj props =>
      negb (hasOwn "length" props) && forallb (fun kv => lengthFree (snd kv)) props
  | _ => true
  end.

Definition isNullish (v : value) : bool :=
  match v with
  | VUndef | VNull => true
  | _ => false
  end.





(** ** Further vocabulary *)

(** The value read by [o[k]] on an object with own properties [props]. *)
Definition readProp (props : list (string * value)) (k : string) : value :=
  match own k props with
  | Some v => v
  | None => orUndefined (own k objectPrototype)
  end.

(** Candidates without a first element, a string type or a positive
    [length]: booleans, numbers, symbols, regular expressions and the
    empty array. *)
Definition isBareCandidate (c : value) : bool :=
  match c with
  | VBool _ | VNum _ | VSym _ | VRegExp _ _ | VArr [] => true
  | _ => false
  end.

(** Validators compared by value: [undefined], [null], booleans, numbers. *)
Definition isPlainLiteral (v : value) : bool :=
  match v with
  | VUndef | VNull | VBool _ | VNum _ => true
  | _ => false
  end.

(** ** equals (helpers.js) *)

Section AllM.
Context {A : Type}.
Variable f : A -> result bool.

(** A loop that returns [false] at the first element on which [f] does. *)
Fixpoint allM (l : list A) : result bool :=
  match l with
  | [] => Ret true
  | a :: l' => ok <- f a ;; if negb ok then Ret false else allM l'
  end.
End AllM.

Section EqualsClauses.
(** [eq a' b'] stands for the recursive call [equals(a', b')]. *)
Variable eq : value -> value -> result bool.
Variable b : value.

(** Lines 417-421 when [a] is an array. *)
Fixpoint equalsItems (i : nat) (items : list value) : result bool :=
  match items with
  | [] => Ret true
  | ai :: rest =>
      bi <- getIndex b i ;;
      same <- eq ai bi ;;
      if negb same then Ret false else equalsItems (S i) rest
  end.

(** [equals(o[i], y)] for an object [o] with properties [props];
    [equals(undefined, y)] is [undefined === y]. *)
Definition equalsAt (props : list (string * value)) (i : nat) : value -> result bool :=
  match own (indexKey i) (map (fun kv => (fst kv, eq (snd kv))) props) with
  | Some c => c
  | None => fun y => Ret (strictEq VUndef y)
  end.

(** Lines 413-422. Only an array or an object is ['arraylike']. *)
Definition equalsArraylike (a : value) : result bool :=
  la <- getLength a ;;
  lb <- getLength b ;;
  if negb (strictEq la lb) then Ret false
  else
    match a with
    | VArr items => equalsItems 0 items
    | VObj props =>
        n <- loopCount a ;;
        allM (fun i => bi <- getIndex b i ;; equalsAt props i bi) (seq 0 n)
    | _ => Throw Uncovered
    end.

(** Lines 427-432: [for(let key in a)]. *)
Definition equalsObjectlike (props : list (string * value)) : result bool :=
  allM (fun kv => bk <- getProp b (fst kv) ;; eq (snd kv) bk) props.
End EqualsClauses.

(** [equals(a, b, {noReference})].  No value of the embedding differs from
    itself, so the test of lines 400-404 never fires; the recursive calls
    pass no options. *)
Fixpoint equalsWith (noReference : bool) (a b : value) {struct a} : result bool :=
  if noReference && strictEq a b then Ret false
  else
    typeA <- getType a ;;
    bothArraylike <-
      (if typeA =? "arraylike" then typeB <- getType b ;; Ret (typeB =? "arraylike")
       else Ret false) ;;
    if bothArraylike then equalsArraylike (equalsWith false) b a
    else
      bothObjectlike <-
        (if typeA =? "objectlike" then typeB <- getType b ;; Ret (typeB =? "objectlike")
         else Ret false) ;;
      if bothObjectlike then
        match a with
        | VObj props => equalsObjectlike (equalsWith false) b props
        | _ => Throw Uncovered
        end
      else Ret (strictEq a b).

Definition equals (a b : value) : result bool := equalsWith false a b.

(** Every key of an object leads to its own entry. *)
Fixpoint distinctKeys {V : Type} (props : list (string * V)) : bool :=
  match props with
  | [] => true
  | (k, _) :: rest => negb (hasOwn k rest) && distinctKeys rest
  end.

(** A value with no function, no regular expression, no empty array and no
    empty object inside, in which no object has a [length] or a repeated
    key: a function, like those, is [===] only to itself, not to a copy. *)
Fixpoint solid (v : value) : bool :=
  match v with
  | VFun _ _ | VRegExp _ _ => false
  | VArr items =>
      match items with
      | [] => false
      | _ :: _ => forallb solid items
      end
  | VObj props =>
      match props with
      | [] => false
      | _ :: _ =>
          negb (hasOwn "length" props) && distinctKeys props &&
          forallb (fun kv => solid (snd kv)) props
      end
  | _ => true
  end.

(** ** objDeepClone (helpers.js) *)

(** [list.indexOf(s) !== -1] on a list of strings and on a list of values. *)
Definition inStrings (l : list string) (s : string) : bool := existsb (String.eqb s) l.
Definition inValues (l : list value) (v : value) : bool := existsb (strictEq v) l.

(** Whether [obj.__proto__ = c] replaces the prototype of [obj]: it does
    for an object or [null], and does nothing for a primitive. *)
Definition isPrototype (c : value) : bool :=
  match c with
  | VNull | VFun _ _ | VRegExp _ _ | VArr _ | VObj _ => true
  | _ => false
  end.

(** [obj[k] = c] for a key [k] not yet on [obj]: the entries it adds. *)
Definition assignFresh (k : string) (c : value) : result (list (string * value)) :=
  if k =? "__proto__" then
    if isPrototype c then Throw Uncovered else Ret []
  else Ret [(k, c)].

(** The string that stands for an object met before. *)
Definition circularReference : string := "<circular-reference>".

(** The position in [props] of the property that [o[k]] reads. *)
Fixpoint keyPosition (k : string) (props : list (string * value)) : nat :=
  match props with
  | [] => 0
  | (k0, _) :: rest => if String.eqb k0 k then 0 else S (keyPosition k rest)
  end.

Section ObjDeepClone.
(** The arguments [typeList], [keyList] and [valList]; [valList] holds no
    object of the input.

    Objects are told apart by their addresses.  A place is the list of
    positions (of an element in its array, of a property in its object)
    that leads from the input to a value inside it; [address] gives the
    address of the array or object at a place.  Two places with one
    address hold one object: an object that is shared, or one that
    contains itself, unrolled as far as the clone goes.  The fifth
    argument, [valArr], is the list of the addresses of the objects met so
    far; it is one array that every call pushes to, so a call returns it
    as it leaves it, beside the clone. *)
Variable typeList : list string.
Variable keyList : list string.
Variable valList : list value.
Variable address : list nat -> nat.

(** [typeList.indexOf('circular-reference') !== -1] *)
Definition noCircular : bool := inStrings typeList "circular-reference".

(** [valArr.indexOf(val) !== -1] for the value at [place]: only arrays and
    objects are ever pushed. *)
Definition met (valArr place : list nat) (val : value) : bool :=
  match val with
  | VArr _ | VObj _ => existsb (Nat.eqb (address place)) valArr
  | _ => false
  end.

(** [typeList.indexOf(getType(val)) === -1 && valList.indexOf(val) === -1] *)
Definition kept (val : value) : result bool :=
  type <- getType val ;;
  Ret (negb (inStrings typeList type) && negb (inValues valList val)).

(** Lines 144-155 and 179-190: whether the value at [place] is cloned. *)
Definition admitted (valArr place : list nat) (val : value) : result bool :=
  ok <- kept val ;;
  if ok then Ret (negb (noCircular && met valArr place val)) else Ret false.

Section CloneClauses.
(** [clone val place valArr] stands for the recursive call
    [objDeepClone(val, typeList, keyList, valList, valArr)] on the value
    at [place]. *)
Variable clone : value -> list nat -> list nat -> result (value * list nat).

(** Lines 142-158 when the input is an array: the elements from the
    [i]-th on. *)
Fixpoint cloneItems (place : list nat) (i : nat) (items : list value) (valArr : list nat)
  : result (list value * list nat) :=
  match items with
  | [] => Ret ([], valArr)
  | val :: rest =>
      ok <- admitted valArr (place ++ [i]) val ;;
      if ok then
        c <- clone val (place ++ [i]) valArr ;;
        cs <- cloneItems place (S i) rest (snd c) ;;
        Ret (fst c :: fst cs, snd cs)
      else cloneItems place (S i) rest valArr
  end.

(** Lines 142-158 when the input is an object with a [length]: [input[i]]
    for each index [i] of the list. *)
Fixpoint cloneIndices (place : list nat) (props : list (string * value))
    (indices : list nat) (valArr : list nat) : result (list value * list nat) :=
  match indices with
  | [] => Ret ([], valArr)
  | i :: rest =>
      let val := orUndefined (own (indexKey i) props) in
      let at_i := place ++ [keyPosition (indexKey i) props] in
      ok <- admitted valArr at_i val ;;
      if ok then
        c <- match own (indexKey i) (map (fun kv => (fst kv, clone (snd kv))) props) with
             | Some run => run at_i valArr
             | None => Ret (VUndef, valArr)
             end ;;
        cs <- cloneIndices place props rest (snd c) ;;
        Ret (fst c :: fst cs, snd cs)
      else cloneIndices place props rest valArr
  end.

(** Lines 163-193: [for(let k in input)], the properties from the [j]-th
    on. *)
Fixpoint cloneProps (place : list nat) (j : nat) (props : list (string * value))
    (valArr : list nat) : result (list (string * value) * list nat) :=
  match props with
  | [] => Ret ([], valArr)
  | (k, v) :: rest =>
      if inStrings keyList k then cloneProps place (S j) rest valArr
      else
        ok <- admitted valArr (place ++ [j]) v ;;
        if ok then
          c <- clone v (place ++ [j]) valArr ;;
          entry <- assignFresh k (fst c) ;;
          entries <- cloneProps place (S j) rest (snd c) ;;
          Ret (entry ++ fst entries, snd entries)
        else cloneProps place (S j) rest valArr
  end.
End CloneClauses.

(** [objDeepClone(input, typeList, keyList, valList, valArr)] for the
    input at [place]: the clone and [valArr] as the call leaves it. *)
Fixpoint objDeepClone (input : value) (place valArr : list nat) {struct input}
  : result (value * list nat) :=
  type <- getType input ;;
  if inStrings typeList type || inValues valList input then Ret (VUndef, valArr)
  else
    let tracked := (type =? "arraylike") || (type =? "objectlike") in
    if tracked && met valArr place input then
      Ret (if noCircular then VUndef else VStr circularReference, valArr)
    else
      let valArr := if tracked then valArr ++ [address place] else valArr in
      if type =? "null" then Ret (VNull, valArr)
      else if type =? "arraylike" then
        match input with
        | VArr items =>
            arr <- cloneItems objDeepClone place 0 items valArr ;;
            Ret (VArr (fst arr), snd arr)
        | VObj props =>
            len <- loopCount input ;;
            arr <- cloneIndices objDeepClone place props (seq 0 len) valArr ;;
            Ret (VArr (fst arr), snd arr)
        | _ => Throw Uncovered
        end
      else if type =? "objectlike" then
        match input with
        | VObj props =>
            obj <- cloneProps objDeepClone place 0 props valArr ;;
            Ret (VObj (fst obj), snd obj)
        | _ => Throw Uncovered
        end
      else Ret (input, valArr).

Section Addresses.
Variable addressesIn : value -> list nat -> list nat.

Fixpoint addressesOfItems (place : list nat) (i : nat) (items : list value) : list nat :=
  match items with
  | [] => []
  | c :: rest => addressesIn c (place ++ [i]) ++ addressesOfItems place (S i) rest
  end.

Fixpoint addressesOfProps (place : list nat) (j : nat) (props : list (string * value))
  : list nat :=
  match props with
  | [] => []
  | (_, c) :: rest => addressesIn c (place ++ [j]) ++ addressesOfProps place (S j) rest
  end.
End Addresses.

(** The addresses of the arrays and objects inside the value at [place]
    that are not empty, in the order in which a clone without filters
    comes to them. *)
Fixpoint addressesIn (v : value) (place : list nat) : list nat :=
  match v with
  | VArr items =>
      match items with
      | [] => []
      | _ :: _ => address place :: addressesOfItems addressesIn place 0 items
      end
  | VObj props =>
      match props with
      | [] => []
      | _ :: _ => address place :: addressesOfProps addressesIn place 0 props
      end
  | _ => []
  end.
End ObjDeepClone.

(** [c] is the clone of [val], made at a place and with a [valArr] at which
    [val] was admitted. *)
Definition clonedFrom (typeList : list string) (valList : list value)
    (address : list nat -> nat)
    (clone : value -> list nat -> list nat -> result (value * list nat))
    (val c : value) : Prop :=
  exists place valArr valArr',
    admitted typeList valList address valArr place val = Ret true /\
    clone val place valArr = Ret (c, valArr').

(** No object inside [v] has a property named [__proto__] of its own. *)
Fixpoint protoFree (v : value) : bool :=
  match v with
  | VArr items => forallb protoFree items
  | VObj props =>
      negb (hasOwn "__proto__" props) && forallb (fun kv => protoFree (snd kv)) props
  | _ => true
  end.

(** Some object inside [v] has a key listed in [keys]. *)
Fixpoint hasKeyIn (keys : list string) (v : value) : bool :=
  match v with
  | VArr items => existsb (hasKeyIn keys) items
  | VObj props =>
      existsb (fun kv => inStrings keys (fst kv) || hasKeyIn keys (snd kv)) props
  | _ => false
  end.

(** Some element or property value inside [v] is [===] to a member of
    [vals]. *)
Fixpoint holdsValueIn (vals : list value) (v : value) : bool :=
  match v with
  | VArr items => existsb (fun c => inValues vals c || holdsValueIn vals c) items
  | VObj props =>
      existsb (fun kv => inValues vals (snd kv) || holdsValueIn vals (snd kv)) props
  | _ => false
  end.

(** The elements of an array, the property values of an object. *)
Definition children (v : value) : list value :=
  match v with
  | VArr items => items
  | VObj props => map snd props
  | _ => []
  end.

(** ** recursiveRemoveKey (helpers.js) *)

(** [delete o[key]] on the own properties of an object. *)
Fixpoint deleteProp (key : string) (props : list (string * value))
  : list (string * value) :=
  match props with
  | [] => []
  | (k, v) :: rest =>
      if String.eqb k key then deleteProp key rest else (k, v) :: deleteProp key rest
  end.

(** Whether [key] is the key of an index below [n]. *)
Definition isIndexBelow (n : nat) (key : string) : bool :=
  existsb (fun i => indexKey i =? key) (seq 0 n).

(** Lines 340-344 on an array: neither the deletion of an element, which
    leaves a hole, nor that of [length] is embedded; an array has no other
    property of its own, inherited ones are not deleted, and an element
    that is [null] or [undefined] is left alone. *)
Definition removeFromArray (key : string) (items : list value) : result unit :=
  if key =? "length" then Throw Uncovered
  else if existsb (fun i => (indexKey i =? key) && negb (isNullish (nth i items VUndef)))
                  (seq 0 (length items))
  then Throw Uncovered
  else Ret tt.

(** Lines 340-344 on an object. *)
Definition removeFromObject (key : string) (props : list (string * value))
  : list (string * value) :=
  if negb (isNullish (readProp props key)) then deleteProp key props else props.

Section RemoveClauses.
(** [remove item] stands for the recursive call
    [recursiveRemoveKey(item, key)] and returns the item as the call
    leaves it. *)
Variable remove : value -> result value.

(** Lines 354-358, and lines 347-351 on an object when [visit] selects
    the indices below its length: the properties that [dropped] does not
    select, those left by the deletion, are visited in order. *)
Fixpoint removeInProps (dropped visit : string -> bool) (props : list (string * value))
  : result (list (string * value)) :=
  match props with
  | [] => Ret []
  | (k, item) :: rest =>
      if dropped k then removeInProps dropped visit rest
      else
        item' <- (if visit k then remove item else Ret item) ;;
        rest' <- removeInProps dropped visit rest ;;
        Ret ((k, item') :: rest')
  end.
End RemoveClauses.

(** [recursiveRemoveKey(input, key)]: the input as the call leaves it. *)
Fixpoint recursiveRemoveKey (key : string) (input : value) : result value :=
  type <- getType input ;;
  match input with
  | VArr items =>
      _ <- removeFromArray key items ;;
      if type =? "arraylike" then
        items' <- mapM (recursiveRemoveKey key) items ;; Ret (VArr items')
      else Ret input
  | VObj props =>
      let dropped := fun k => negb (isNullish (readProp props key)) && String.eqb k key in
      if type =? "arraylike" then
        n <- loopCount (VObj (removeFromObject key props)) ;;
        props' <- removeInProps (recursiveRemoveKey key) dropped (isIndexBelow n) props ;;
        Ret (VObj props')
      else if type =? "objectlike" then
        props' <- removeInProps (recursiveRemoveKey key) dropped (fun _ => true) props ;;
        Ret (VObj props')
      else Ret (VObj (removeFromObject key props))
  | _ => Ret input
  end.

(** Some object inside [v] holds, under [key], a property of its own that
    is neither [null] nor [undefined]. *)
Fixpoint holdsKey (key : string) (v : value) : bool :=
  match v with
  | VArr items => existsb (holdsKey key) items
  | VObj props =>
      negb (isNullish (orUndefined (own key props))) ||
      existsb (fun kv => holdsKey key (snd kv)) props
  | _ => false
  end.

(** Every object inside [v] lists each of its keys once. *)
Fixpoint distinctKeysIn (v : value) : bool :=
  match v with
  | VArr items => forallb distinctKeysIn items
  | VObj props => distinctKeys props && forallb (fun kv => distinctKeysIn (snd kv)) props
  | _ => true
  end.

(** [v] with the property [key] taken out of every object that holds
    under it something other than [null] and [undefined]; every other
    property and every element stays, in its place. *)
Fixpoint withoutKey (key : string) (v : value) : value :=
  match v with
  | VArr items => VArr (map (withoutKey key) items)
  | VObj props =>
      VObj (flat_map (fun kv => if negb (fst kv =? key) || isNullish (snd kv)
                                then [(fst kv, withoutKey key (snd kv))]
                                else []) props)
  | _ => v
  end.

(** [key] is neither [length] nor the key of an index. *)
Definition isName (key : string) : Prop :=
  key <> "length" /\ forall i, indexKey i <> key.

Definition isDigit (c : ascii) : bool :=
  match c with
  | "0" | "1" | "2" | "3" | "4" | "5" | "6" | "7" | "8" | "9" => true
  | _ => false
  end%char.

(** ** Writing properties; revObj and arr2enum (helpers.js) *)

(** The largest integer that a number holds exactly, [2^53 - 1]. *)
Definition maxSafeInteger : Z := 9007199254740991.

(** [String(n)] for a number: decimal digits, within the safe integers. *)
Definition numberToString (n : Z) : result string :=
  if (Z.abs n <=? maxSafeInteger)%Z then Ret (NilZero.string_of_int (Z.to_int n))
  else Throw Uncovered.

(** The array index that [key] is the canonical key of, if any. *)
Definition parseIndex (key : string) : option N :=
  match NilEmpty.uint_of_string key with
  | Some d =>
      let n := N.of_uint d in
      if (NilZero.string_of_uint (N.to_uint n) =? key) && (n <? 4294967295)%N
      then Some n else None
  | None => None
  end.

(** A new property with index [n] takes its place among the index keys,
    which come first and in ascending order. *)
Fixpoint insertIndex (n : N) (k : string) (v : value) (props : list (string * value))
  : list (string * value) :=
  match props with
  | [] => [(k, v)]
  | (k', v') :: rest =>
      match parseIndex k' with
      | Some m =>
          if (m <? n)%N then (k', v') :: insertIndex n k v rest
          else (k, v) :: (k', v') :: rest
      | None => (k, v) :: (k', v') :: rest
      end
  end.

(** Creating or overwriting the own property [k]: an existing property
    keeps its place, a new index key is sorted in, any other new key goes
    last. *)
Definition defineProp (k : string) (v : value) (props : list (string * value))
  : list (string * value) :=
  if hasOwn k props then setProp k v props
  else
    match parseIndex k with
    | Some n => insertIndex n k v props
    | None => props ++ [(k, v)]
    end.

(** [obj[k] = v] on an ordinary object: on an object without a
    [__proto__] of its own, the key [__proto__] sets the prototype to an
    object or [null] and ignores a primitive. *)
Definition assignProp (k : string) (v : value) (props : list (string * value))
  : result (list (string * value)) :=
  if (k =? "__proto__") && negb (hasOwn k props) then
    if isPrototype v then Throw Uncovered else Ret props
  else Ret (defineProp k v props).

(** [ToPropertyKey(v)] and [String(v)] on the values that need no call of
    a method of [v]. *)
Definition toPropertyKey (v : value) : result string :=
  match v with
  | VUndef => Ret "undefined"
  | VNull => Ret "null"
  | VBool b => Ret (if b then "true" else "false")
  | VNum n => numberToString n
  | VStr s => Ret s
  | VRegExp source flags => Ret (regExpToString source flags)
  | VSym _ | VFun _ _ | VArr _ | VObj _ => Throw Uncovered
  end.

(** The characters of a string, one string each. *)
Fixpoint characters (s : string) : list value :=
  match s with
  | EmptyString => []
  | String c s' => VStr (String c EmptyString) :: characters s'
  end.

(** The keys [0], [1], ... paired with the elements of a list. *)
Fixpoint indexed (i : nat) (items : list value) : list (string * value) :=
  match items with
  | [] => []
  | x :: rest => (indexKey i, x) :: indexed (S i) rest
  end.

(** [for(k in o)]: the keys it visits and what [o[k]] reads. *)
Definition enumerate (o : value) : list (string * value) :=
  match o with
  | VObj props => props
  | VArr items => indexed 0 items
  | VStr s => indexed 0 (characters s)
  | _ => []
  end.

(** A run of assignments [obj[key] = v], where each entry gives the value
    that becomes the key and the value stored. *)
Fixpoint assignAll (entries : list (value * value)) (obj : list (string * value))
  : result (list (string * value)) :=
  match entries with
  | [] => Ret obj
  | (keyValue, v) :: rest =>
      key <- toPropertyKey keyValue ;;
      obj' <- assignProp key v obj ;;
      assignAll rest obj'
  end.

(** [revObj(obj)]: [rev[obj[k]] = k] for each key [k]. *)
Definition revObj (obj : value) : result value :=
  rev <- assignAll (map (fun kv => (snd kv, VStr (fst kv))) (enumerate obj)) [] ;;
  Ret (VObj rev).

(** [arr2enum(arr)]: [enumObj[key] = index] for each element of an array;
    nothing but an array has a [forEach]. *)
Definition arr2enum (arr : value) : result value :=
  match arr with
  | VArr items =>
      enumObj <- assignAll (map (fun ix => (snd ix, VNum (Z.of_nat (fst ix))))
                                (combine (seq 0 (length items)) items)) [] ;;
      Ret (VObj enumObj)
  | VObj props => Throw (methodFault "forEach" props)
  | _ => Throw TypeError
  end.

(** ** stringEncoder (stringEncoder.js) *)

From Stdlib Require DecimalPos DecimalZ.

Definition backslashChar : ascii := ascii_of_nat 92.

(** The table [typeChars]. *)
Definition typeChar (type : string) : option ascii :=
  if type =? "string" then Some "s"%char
  else if type =? "boolean" then Some "b"%char
  else if type =? "number" then Some "n"%char
  else if type =? "null" then Some "N"%char
  else if type =? "undefined" then Some "u"%char
  else if (type =? "Object") || (type =? "objectlike") then Some "o"%char
  else if (type =? "Array") || (type =? "arraylike") then Some "a"%char
  else None.

(** *** JSON.stringify on what [encode] gives it *)

Definition hexDigit (n : nat) : ascii :=
  if (n <? 10)%nat then ascii_of_nat (48 + n) else ascii_of_nat (87 + n).

(** One character inside a JSON string. *)
Definition escapeChar (c : ascii) : string :=
  if Ascii.eqb c quoteChar then String backslashChar (String quoteChar EmptyString)
  else if Ascii.eqb c backslashChar then String backslashChar (String backslashChar EmptyString)
  else
    let n := nat_of_ascii c in
    if (n =? 8)%nat then String backslashChar "b"
    else if (n =? 9)%nat then String backslashChar "t"
    else if (n =? 10)%nat then String backslashChar "n"
    else if (n =? 12)%nat then String backslashChar "f"
    else if (n =? 13)%nat then String backslashChar "r"
    else if (n <? 32)%nat then
      String backslashChar
        (String "u" (String "0" (String "0"
           (String (hexDigit (n / 16)) (String (hexDigit (n mod 16)) EmptyString)))))
    else String c EmptyString.

Fixpoint escapeString (s : string) : string :=
  match s with
  | EmptyString => EmptyString
  | String c s' => (escapeChar c ++ escapeString s')%string
  end.

(** [QuoteJSONString] *)
Definition quoteJSON (s : string) : string :=
  String quoteChar (escapeString s ++ String quoteChar EmptyString)%string.

Fixpoint joinWith (sep : string) (pieces : list string) : string :=
  match pieces with
  | [] => EmptyString
  | [p] => p
  | p :: rest => (p ++ sep ++ joinWith sep rest)%string
  end.

(** An element of the array [step1]: the encoding of a value, or
    [undefined], which JSON writes as [null]. *)
Definition stringifyElement (v : value) : result string :=
  match v with
  | VStr s => Ret (quoteJSON s)
  | VUndef => Ret "null"
  | _ => Throw Uncovered
  end.

(** [JSON.stringify(step1)] for an array of strings. *)
Definition stringifyArray (step1 : list value) : result string :=
  pieces <- mapM stringifyElement step1 ;;
  Ret ("[" ++ joinWith "," pieces ++ "]")%string.

(** A member of the object [step1]; one whose value is [undefined] is
    left out. *)
Definition stringifyMember (kv : string * value) : result (list string) :=
  match snd kv with
  | VStr s => Ret [(quoteJSON (fst kv) ++ ":" ++ quoteJSON s)%string]
  | VUndef => Ret []
  | _ => Throw Uncovered
  end.

(** [JSON.stringify(step1)] for an object of strings. *)
Definition stringifyObject (step1 : list (string * value)) : result string :=
  pieces <- mapM stringifyMember step1 ;;
  Ret ("{" ++ joinWith "," (concat pieces) ++ "}")%string.

(** *** encode *)

Section EncodeClauses.
Variable enc : value -> result value.

(** Lines 48-53: [step1[k] = stringEncoder.encode(data[k])] for each key. *)
Fixpoint encodeProps (props step1 : list (string * value))
  : result (list (string * value)) :=
  match props with
  | [] => Ret step1
  | (k, v) :: rest =>
      encodedV <- enc v ;;
      step1' <- assignProp k encodedV step1 ;;
      encodeProps rest step1'
  end.
End EncodeClauses.

(** [stringEncoder.encode(data)]: a string, or [undefined] for a type the
    table does not list. *)
Fixpoint encode (data : value) : result value :=
  type <- getType data ;;
  match typeChar type with
  | None => Ret VUndef
  | Some prefixChar =>
      if Ascii.eqb prefixChar "a" then
        match data with
        | VArr items =>
            step1 <- mapM encode items ;;
            json <- stringifyArray step1 ;;
            Ret (VStr (String "a" json))
        | VObj props => Throw (methodFault "map" props)
        | _ => Throw Uncovered
        end
      else if Ascii.eqb prefixChar "o" then
        match data with
        | VObj props =>
            step1 <- encodeProps encode props [] ;;
            json <- stringifyObject step1 ;;
            Ret (VStr (String "o" json))
        | _ => Throw Uncovered
        end
      else
        str <- toPropertyKey data ;;
        Ret (VStr (String prefixChar str))
  end.

(** *** JSON.parse on flat texts *)

Definition hexValue (c : ascii) : option nat :=
  let n := nat_of_ascii c in
  if (48 <=? n)%nat && (n <=? 57)%nat then Some (n - 48)%nat
  else if (97 <=? n)%nat && (n <=? 102)%nat then Some (n - 87)%nat
  else if (65 <=? n)%nat && (n <=? 70)%nat then Some (n - 55)%nat
  else None.

(** The character that follows a backslash, other than [u]. *)
Definition unescapeChar (e : ascii) : option ascii :=
  if Ascii.eqb e quoteChar then Some quoteChar
  else if Ascii.eqb e backslashChar then Some backslashChar
  else if Ascii.eqb e "/" then Some "/"%char
  else if Ascii.eqb e "b" then Some (ascii_of_nat 8)
  else if Ascii.eqb e "t" then Some (ascii_of_nat 9)
  else if Ascii.eqb e "n" then Some (ascii_of_nat 10)
  else if Ascii.eqb e "f" then Some (ascii_of_nat 12)
  else if Ascii.eqb e "r" then Some (ascii_of_nat 13)
  else None.

Definition consChar (c : ascii) (r : option (string * string)) : option (string * string) :=
  match r with
  | Some (content, rest) => Some (String c content, rest)
  | None => None
  end.

(** A JSON string after its opening quote: its content and what follows
    the closing quote.  A code unit above 255 has no character here. *)
Fixpoint parseStringBody (s : string) : option (string * string) :=
  match s with
  | EmptyString => None
  | String c s' =>
      if Ascii.eqb c quoteChar then Some (EmptyString, s')
      else if Ascii.eqb c backslashChar then
        match s' with
        | String e s'' =>
            if Ascii.eqb e "u" then
              match s'' with
              | String h1 (String h2 (String h3 (String h4 s4))) =>
                  match hexValue h1, hexValue h2, hexValue h3, hexValue h4 with
                  | Some 0%nat, Some 0%nat, Some d3, Some d4 =>
                      consChar (ascii_of_nat (16 * d3 + d4)) (parseStringBody s4)
                  | _, _, _, _ => None
                  end
              | _ => None
              end
            else
              match unescapeChar e with
              | Some c' => consChar c' (parseStringBody s'')
              | None => None
              end
        | EmptyString => None
        end
      else if (nat_of_ascii c <? 32)%nat then None
      else consChar c (parseStringBody s')
  end.

(** An element: a string or [null]. *)
Definition parseElement (s : string) : option (value * string) :=
  match s with
  | String c s' =>
      if Ascii.eqb c quoteChar then
        match parseStringBody s' with
        | Some (content, rest) => Some (VStr content, rest)
        | None => None
        end
      else
        match s with
        | String "n" (String "u" (String "l" (String "l" rest))) => Some (VNull, rest)
        | _ => None
        end
  | EmptyString => None
  end.

(** The elements of an array after its opening bracket, up to the end of
    the text. *)
Fixpoint parseElements (fuel : nat) (s : string) : option (list value) :=
  match fuel with
  | O => None
  | S fuel' =>
      match parseElement s with
      | Some (v, String "," rest) =>
          match parseElements fuel' rest with
          | Some vs => Some (v :: vs)
          | None => None
          end
      | Some (v, String "]" EmptyString) => Some [v]
      | _ => None
      end
  end.

(** The members of an object after its opening brace, up to the end of
    the text. *)
Fixpoint parseMembers (fuel : nat) (s : string) : option (list (string * value)) :=
  match fuel with
  | O => None
  | S fuel' =>
      match s with
      | String c s' =>
          if Ascii.eqb c quoteChar then
            match parseStringBody s' with
            | Some (key, String ":" rest) =>
                match parseElement rest with
                | Some (v, String "," rest') =>
                    match parseMembers fuel' rest' with
                    | Some members => Some ((key, v) :: members)
                    | None => None
                    end
                | Some (v, String "}" EmptyString) => Some [(key, v)]
                | _ => None
                end
            | _ => None
            end
          else None
      | EmptyString => None
      end
  end.

(** [JSON.parse(text)] for a text without white space that is an array or
    an object of strings and [null]s; every other text, well-formed or
    not, is beyond what is embedded. *)
Definition parseFlat (text : string) : result value :=
  match text with
  | String "[" (String "]" EmptyString) => Ret (VArr [])
  | String "{" (String "}" EmptyString) => Ret (VObj [])
  | String "[" rest =>
      match parseElements (String.length rest) rest with
      | Some items => Ret (VArr items)
      | None => Throw Uncovered
      end
  | String "{" rest =>
      match parseMembers (String.length rest) rest with
      | Some members =>
          Ret (VObj (fold_left (fun obj kv => defineProp (fst kv) (snd kv) obj) members []))
      | None => Throw Uncovered
      end
  | _ => Throw Uncovered
  end.

(** *** decode *)

(** [Number(data)] for a run of decimal digits with an optional minus
    sign, within the safe integers. *)
Definition stringToNumber (data : string) : result value :=
  match NilZero.int_of_string data with
  | Some d =>
      let n := Z.of_int d in
      if (Z.abs n <=? maxSafeInteger)%Z then Ret (VNum n) else Throw Uncovered
  | None => Throw Uncovered
  end.

Section DecodeClauses.
Variable dec : value -> result value.

(** Lines 103-107: [step2[k] = stringEncoder.decode(step1[k])]. *)
Fixpoint decodeProps (entries step2 : list (string * value))
  : result (list (string * value)) :=
  match entries with
  | [] => Ret step2
  | (k, v) :: rest =>
      decodedV <- dec v ;;
      step2' <- assignProp k decodedV step2 ;;
      decodeProps rest step2'
  end.
End DecodeClauses.

(** [stringEncoder.decode(dataStr)], with a bound on the depth of the
    encodings inside encodings that it opens. *)
Fixpoint decodeWithin (depth : nat) (dataStr : value) : result value :=
  match dataStr with
  | VUndef | VNull => Ret VNull
  | VStr EmptyString => Ret VUndef
  | VStr (String prefixChar data) =>
      if Ascii.eqb prefixChar "s" then Ret (VStr data)
      else if Ascii.eqb prefixChar "b" then Ret (VBool (data =? "true"))
      else if Ascii.eqb prefixChar "n" then stringToNumber data
      else if Ascii.eqb prefixChar "N" then Ret VNull
      else if Ascii.eqb prefixChar "u" then Ret VUndef
      else if Ascii.eqb prefixChar "a" then
        match depth with
        | O => Throw Uncovered
        | S depth' =>
            step1 <- parseFlat data ;;
            match step1 with
            | VArr items => step2 <- mapM (decodeWithin depth') items ;; Ret (VArr step2)
            | VObj props => Throw (methodFault "map" props)
            | _ => Throw TypeError
            end
        end
      else if Ascii.eqb prefixChar "o" then
        match depth with
        | O => Throw Uncovered
        | S depth' =>
            step1 <- parseFlat data ;;
            step2 <- decodeProps (decodeWithin depth') (enumerate step1) [] ;;
            Ret (VObj step2)
        end
      else Ret VUndef
  | VObj props => Throw (methodFault "charAt" props)
  | _ => Throw TypeError
  end.

(** An encoding inside an encoding is shorter than it: the length of the
    string bounds the depth. *)
Definition decode (dataStr : value) : result value :=
  match dataStr with
  | VStr s => decodeWithin (String.length s) dataStr
  | _ => decodeWithin 0 dataStr
  end.

(** The depth of arrays and objects inside [v]. *)
Fixpoint height (v : value) : nat :=
  match v with
  | VArr items => S (fold_right (fun c h => Nat.max (height c) h) 0%nat items)
  | VObj props => S (fold_right (fun kv h => Nat.max (height (snd kv)) h) 0%nat props)
  | _ => 0%nat
  end.

Definition isNone {A : Type} (o : option A) : bool :=
  match o with
  | Some _ => false
  | None => true
  end.

(** A tree of [undefined], [null], booleans, safe integers, strings, arrays
    and objects, in which no object has a [length], a [__proto__], an
    index key or a repeated key. *)
Fixpoint encodable (v : value) : bool :=
  match v with
  | VUndef | VNull | VBool _ | VStr _ => true
  | VNum n => (Z.abs n <=? maxSafeInteger)%Z
  | VArr items => forallb encodable items
  | VObj props =>
      negb (hasOwn "length" props) && distinctKeys props &&
      forallb (fun kv => negb (fst kv =? "__proto__") && isNone (parseIndex (fst kv)) &&
                         encodable (snd kv)) props
  | _ => false
  end.

(** Keys that are written one after the other without disturbing the
    order: distinct, none an index, none [__proto__]. *)
Definition plainKeys (keys : list string) : Prop :=
  NoDup keys /\ forall k, In k keys -> k <> "__proto__" /\ parseIndex k = None.

(** [text] is what [encode] makes of [v], it is at least as long as [v] is
    high, and [decodeWithin] reads [v] back from it at every depth from the
    height of [v] on. *)
Definition encodesAs (v : value) (text : string) : Prop :=
  encode v = Ret (VStr text) /\
  (height v <= String.length text)%nat /\
  forall depth, (height v <= depth)%nat -> decodeWithin depth (VStr text) = Ret v.

(** An element of [step1] in [encode] is the encoding of an element of the
    array, or nothing where [encode] returned [undefined]: what it is as a
    value, in the JSON text, and after [JSON.parse]. *)
Definition elementValue (o : option string) : value :=
  match o with
  | Some e => VStr e
  | None => VUndef
  end.

Definition elementText (o : option string) : string :=
  match o with
  | Some e => quoteJSON e
  | None => "null"
  end.

Definition elementParsed (o : option string) : value :=
  match o with
  | Some e => VStr e
  | None => VNull
  end.


(** ** Outcome and list lemmas *)

Lemma mapM_ext {A B} (f g : A -> result B) (l : list A) :
  (forall a, In a l -> f a = g a) -> mapM f l = mapM g l.
Proof.
  induction l as [|a l IH]; intros H; simpl; [reflexivity|].
  rewrite (H a (or_introl eq_refl)), IH; [reflexivity|].
  intros b Hb. apply H. right. exact Hb.
Qed.

Lemma mapM_pure {A B} (f : A -> result B) (g : A -> B) (l : list A) :
  (forall a, In a l -> f a = Ret (g a)) -> mapM f l = Ret (map g l).
Proof.
  induction l as [|a l IH]; intros H; simpl; [reflexivity|].
  rewrite (H a (or_introl eq_refl)), IH; [reflexivity|].
  intros b Hb. apply H. right. exact Hb.
Qed.

Lemma mapM_map {A B C} (f : B -> result C) (h : A -> B) (l : list A) :
  mapM f (map h l) = mapM (fun a => f (h a)) l.
Proof.
  induction l as [|a l IH]; simpl; [reflexivity|]. rewrite IH. reflexivity.
Qed.

Lemma countTrue_existsb (l : list bool) :
  (0 <? countTrue l)%nat = existsb (fun b => b) l.
Proof.
  unfold countTrue. induction l as [|[|] l IH]; simpl; auto.
Qed.

Lemma countFalse_forallb (l : list bool) :
  (countFalse l =? 0)%nat = forallb (fun b => b) l.
Proof.
  unfold countFalse. induction l as [|[|] l IH]; simpl; auto.
Qed.

(** ** String lemmas *)

Lemma split_nonempty c s : split c s <> [].
Proof.
  destruct s as [|d s]; simpl; [discriminate|].
  destruct (Ascii.eqb d c); [discriminate|].
  destruct (split c s); discriminate.
Qed.

Lemma split_no_separator c s : contains c s = false -> split c s = [s].
Proof.
  induction s as [|d s IH]; simpl; intros H; [reflexivity|].
  apply orb_false_iff in H. destruct H as [Hd Hs].
  rewrite Hd, (IH Hs). reflexivity.
Qed.

Lemma split_separator c s : contains c s = true -> (2 <= length (split c s))%nat.
Proof.
  induction s as [|d s IH]; simpl; intros H; [discriminate|].
  destruct (Ascii.eqb d c) eqn:Hd; simpl in *.
  - pose proof (split_nonempty c s). destruct (split c s); [congruence|simpl; lia].
  - specialize (IH H). destruct (split c s); simpl in *; lia.
Qed.

Lemma split_pieces c s p : In p (split c s) -> contains c p = false.
Proof.
  revert p. induction s as [|d s IH]; simpl; intros p H.
  - destruct H as [<-|[]]. reflexivity.
  - destruct (Ascii.eqb d c) eqn:Hd.
    + destruct H as [<-|H]; [reflexivity|]. apply IH. exact H.
    + destruct (split c s) as [|q qs] eqn:Hq.
      * destruct H as [<-|[]]. simpl. rewrite Hd. reflexivity.
      * destruct H as [<-|H].
        -- simpl. rewrite Hd. apply IH. left. reflexivity.
        -- apply IH. right. exact H.
Qed.

Lemma split_app c a b :
  split c (a ++ String c b) = split c a ++ split c b.
Proof.
  induction a as [|d a IH]; simpl.
  - rewrite Ascii.eqb_refl. reflexivity.
  - destruct (Ascii.eqb d c); [rewrite IH; reflexivity|].
    rewrite IH. pose proof (split_nonempty c a).
    destruct (split c a); [congruence|reflexivity].
Qed.

(** ** The classifier on each kind of value *)

Lemma getType_str s : getType (VStr s) = Ret "string".
Proof. reflexivity. Qed.

Lemma getType_arr_empty : getType (VArr []) = Ret "Array".
Proof. reflexivity. Qed.

Lemma getType_arr_cons x items : getType (VArr (x :: items)) = Ret "arraylike".
Proof.
  unfold getType. cbn -[Z.of_nat Z.to_nat Nat.ltb].
  assert (H : (0 <? Z.of_nat (S (length items)))%Z = true) by (apply Z.ltb_lt; lia).
  rewrite H. cbn -[Z.of_nat Z.to_nat Nat.ltb].
  assert (H' : (Z.to_nat (Z.of_nat (S (length items)) - 1) <? S (length items))%nat = true)
    by (apply Nat.ltb_lt; lia).
  cbn -[Z.of_nat Z.to_nat Nat.ltb] in H'. rewrite H'. reflexivity.
Qed.

(** Only a regular expression has the tag ['RegExp']. *)
Lemma getType_RegExp_inv v : getType v = Ret "RegExp" -> exists s f, v = VRegExp s f.
Proof.
  destruct v as [| |b|n|s|i|f a|s f|items|props]; try discriminate.
  - eauto.
  - destruct items; [discriminate|]. rewrite getType_arr_cons. discriminate.
  - unfold getType. cbn -[own toNumber hasOwnProperty indexKey].
    destruct (strictEq _ _).
    + cbn. destruct props; discriminate.
    + destruct (toNumber _) as [[z|]|]; cbn -[own hasOwnProperty indexKey]; try discriminate.
      * destruct (0 <? z)%Z.
        -- destruct (hasOwnProperty _ _) as [[|]|]; cbn; try discriminate.
           destruct props; discriminate.
        -- cbn. destruct props; discriminate.
      * destruct props; discriminate.
Qed.

Lemma isEach_str s : isEach (VStr s) = Ret false.
Proof. reflexivity. Qed.


(** ** String validators *)

Lemma existsb_id_map {A} (g : A -> bool) (l : list A) :
  existsb (fun b => b) (map g l) = existsb g l.
Proof. induction l as [|a l IH]; simpl; [reflexivity|]. rewrite IH. reflexivity. Qed.

Lemma forallb_id_map {A} (g : A -> bool) (l : list A) :
  forallb (fun b => b) (map g l) = forallb g l.
Proof. induction l as [|a l IH]; simpl; [reflexivity|]. rewrite IH. reflexivity. Qed.

Lemma scalarCheck_str (inputType : string) (p : string) (x : value) :
  getType x = Ret inputType ->
  scalarCheck (VStr p) x = Ret (compareBranch inputType x (VStr p)).
Proof. intros H. unfold scalarCheck. rewrite getType_str, H. reflexivity. Qed.

Lemma candidate_str check (p : string) (x : value) :
  candidate check x (VStr p) = check (VStr p) x.
Proof.
  unfold candidate. cbn [getIndex bind].
  destruct (String.get 0 p); reflexivity.
Qed.

(** A string validator is the disjunction of its pipe-separated pieces,
    each compared with the whole input. *)
Lemma JSONCheck_str (s : string) (x : value) :
  JSONCheck (VStr s) x =
  (inputType <- getType x ;;
   Ret (existsb (fun p => compareBranch inputType x (VStr p)) (split pipeChar s))).
Proof.
  cbn [JSONCheck]. rewrite getType_str. cbn [bind].
  destruct (getType x) as [inputType|e] eqn:Hx; cbn [bind]; [|reflexivity].
  destruct (contains pipeChar s) eqn:Hs.
  - unfold arrayValidator.
    assert (Hpieces : forall check, (forall p, check (VStr p) x = scalarCheck (VStr p) x) ->
              mapM (fun v => check v x) (map VStr (split pipeChar s)) =
              Ret (map (fun p => compareBranch inputType x (VStr p)) (split pipeChar s))).
    { intros check Hc. rewrite mapM_map. apply mapM_pure. intros p _.
      rewrite Hc. apply scalarCheck_str. exact Hx. }
    destruct (inputType =? "arraylike").
    + rewrite (mapM_ext _ (fun v => scalarCheck v x)).
      * rewrite (Hpieces scalarCheck (fun _ => eq_refl)). cbn [bind].
        rewrite countTrue_existsb, existsb_id_map. reflexivity.
      * intros v Hv. apply in_map_iff in Hv. destruct Hv as [p [<- _]].
        apply (candidate_str scalarCheck).
    + rewrite (Hpieces scalarCheck (fun _ => eq_refl)). cbn [bind].
      rewrite countTrue_existsb, existsb_id_map. reflexivity.
  - rewrite (split_no_separator _ _ Hs). cbn [existsb]. rewrite orb_false_r. reflexivity.
Qed.

(** The pieces of a pipe-joined validator form a sequence-kind array of
    pipe-free strings, and the embedding's shortcut for them is the
    recursive call: [JSONCheck] on such a string continues, as in the
    source, as [JSONCheck] on the array of its pieces. *)
Lemma getType_pieces (s : string) :
  contains pipeChar s = true ->
  getType (VArr (map VStr (split pipeChar s))) = Ret "arraylike".
Proof.
  intros H. pose proof (split_separator _ _ H) as Hlen.
  destruct (split pipeChar s) as [|p ps]; [cbn in Hlen; lia|].
  cbn [map]. apply getType_arr_cons.
Qed.

Lemma JSONCheck_piece (p : string) (x : value) :
  contains pipeChar p = false -> JSONCheck (VStr p) x = scalarCheck (VStr p) x.
Proof. intros H. cbn [JSONCheck]. rewrite H. reflexivity. Qed.

Lemma JSONCheck_union_unfold (s : string) (x : value) :
  contains pipeChar s = true ->
  JSONCheck (VStr s) x = JSONCheck (VArr (map VStr (split pipeChar s))) x.
Proof.
  intros H. pose proof (getType_pieces s H) as Ht.
  cbn [JSONCheck]. rewrite H, Ht, getType_str. cbn [bind].
  change ("arraylike" =? "arraylike") with true. cbv iota.
  destruct (getType x) as [inputType|e]; cbn [bind]; [|reflexivity].
  unfold arrayValidator.
  assert (Hpiece : forall v, In v (map VStr (split pipeChar s)) ->
                             scalarCheck v x = JSONCheck v x).
  { intros v Hv. apply in_map_iff in Hv. destruct Hv as [p [<- Hp]].
    symmetry. apply JSONCheck_piece. apply (split_pieces _ _ _ Hp). }
  destruct (inputType =? "arraylike").
  - rewrite (mapM_ext (candidate scalarCheck x) (candidate JSONCheck x)); [reflexivity|].
    intros v Hv. pose proof (Hpiece v Hv) as Hv'.
    apply in_map_iff in Hv. destruct Hv as [p [<- _]].
    rewrite !candidate_str. exact Hv'.
  - rewrite (mapM_ext (fun v => scalarCheck v x) (fun v => JSONCheck v x)); [reflexivity|].
    exact Hpiece.
Qed.

(** A candidate that starts with [/each/] is an array with that first
    element, or an object with it as property [0]. *)
Lemma firstIsEach_shape (c : value) :
  firstIsEach c = Ret true ->
  (exists first validations, c = VArr (first :: validations)) \/
  (exists props, c = VObj props).
Proof.
  destruct c as [| |b|n|s|i|f a|s f|items|props]; try discriminate.
  - unfold firstIsEach. cbn [getIndex bind]. destruct (String.get 0 s); discriminate.
  - destruct items as [|first validations]; [discriminate|]. left. eauto.
  - right. eauto.
Qed.

(** ** Laws of string validators *)

(** C2 (union law): [validate(x, "a|b") == validate(x, "a") || validate(x, "b")]
    for every input [x] and all strings [a] and [b]: a pipe-joined validator
    matches exactly when one of the two sides, applied to the whole input,
    matches.  A fault of the classifier on [x] is the outcome of both
    sides. *)
Theorem union_law (x : value) (a b : string) :
  JSONCheck (VStr (a ++ "|" ++ b)) x =
  orElse (JSONCheck (VStr a) x) (JSONCheck (VStr b) x).
Proof.
  unfold orElse. rewrite !JSONCheck_str.
  change (a ++ "|" ++ b)%string with (a ++ String pipeChar b)%string.
  rewrite split_app.
  destruct (getType x) as [inputType|e]; cbn [bind]; [|reflexivity].
  rewrite existsb_app.
  destruct (existsb _ (split pipeChar a)); reflexivity.
Qed.

Lemma JSONCheck_typeName (x : value) (tag t : string) :
  getType x = Ret tag -> isTypeName t = true ->
  JSONCheck (VStr t) x = Ret (tag =? t).
Proof.
  intros Hx Ht. unfold isTypeName in Ht. apply andb_true_iff in Ht.
  destruct Ht as [Hp Hq]. apply negb_true_iff in Hp.
  rewrite JSONCheck_str, Hx. cbn [bind].
  rewrite (split_no_separator _ _ Hp). cbn [existsb compareBranch].
  rewrite Hq, orb_false_r. reflexivity.
Qed.

Lemma isScalar_getType (x : value) :
  isScalar x = true -> exists tag, getType x = Ret tag.
Proof.
  destruct x; intros H; try discriminate; eexists; reflexivity.
Qed.

(** C5 (type-name law): for every scalar input [x] and type name [t],
    [validate(x, t)] is [true] exactly when the classifier's tag of [x] is
    [t], and [validate(x, t2)] is [false] for every type name [t2] other
    than that tag. *)
Theorem typeName_law (x : value) (t : string)
    (Hx : isScalar x = true) (Ht : isTypeName t = true) :
  exists tag,
    getType x = Ret tag /\
    (JSONCheck (VStr t) x = Ret true <-> tag = t) /\
    (forall t2, isTypeName t2 = true -> t2 <> tag ->
                JSONCheck (VStr t2) x = Ret false).
Proof.
  destruct (isScalar_getType x Hx) as [tag Htag].
  exists tag. split; [exact Htag|]. split.
  - rewrite (JSONCheck_typeName x tag t Htag Ht). split.
    + intros H. inversion H as [H']. apply String.eqb_eq. exact H'.
    + intros ->. rewrite String.eqb_refl. reflexivity.
  - intros t2 Ht2 Hne. rewrite (JSONCheck_typeName x tag t2 Htag Ht2).
    f_equal. apply String.eqb_neq. congruence.
Qed.

Lemma typeName_law_witness :
  exists tag,
    getType (VNum 23) = Ret tag /\
    (JSONCheck (VStr "number") (VNum 23) = Ret true <-> tag = "number") /\
    (forall t2, isTypeName t2 = true -> t2 <> tag ->
                JSONCheck (VStr t2) (VNum 23) = Ret false).
Proof. apply (typeName_law (VNum 23) "number"); reflexivity. Defined.

Lemma join_split_removeAll c s : join (split c s) = removeAll c s.
Proof.
  induction s as [|d s IH]; simpl; [reflexivity|].
  destruct (Ascii.eqb d c); simpl; [exact IH|].
  rewrite <- IH. destruct (split c s); reflexivity.
Qed.

Lemma strictEq_str (x : value) (s : string) : strictEq x (VStr s) = true <-> x = VStr s.
Proof.
  destruct x; simpl; split; intros H; try discriminate.
  - apply String.eqb_eq in H. congruence.
  - inversion H. apply String.eqb_refl.
Qed.

Lemma JSONCheck_literal (x : value) (tag q : string) :
  getType x = Ret tag -> isLiteral q = true ->
  JSONCheck (VStr q) x = Ret (strictEq x (VStr (removeAll quoteChar q))).
Proof.
  intros Hx Hq. unfold isLiteral in Hq. apply andb_true_iff in Hq.
  destruct Hq as [Hp Hq]. apply negb_true_iff in Hp.
  rewrite JSONCheck_str, Hx. cbn [bind].
  rewrite (split_no_separator _ _ Hp). cbn [existsb compareBranch].
  rewrite Hq, orb_false_r, join_split_removeAll. reflexivity.
Qed.

(** C6 (literal law): for every input [x] the classifier classifies,
    validating [x] against the validator string made of a quote, foo and a
    quote is [x === "foo"], by strict equality; in general a validator
    string with a quote (and no pipe) stands for the string left after
    deleting every quote character, wherever it occurs, so the validator
    made of quote, a, quote, b, quote matches exactly the string ["ab"]. *)
Theorem literal_law (x : value) (tag : string) (Hx : getType x = Ret tag) :
  JSONCheck (VStr (quoted "foo")) x = Ret (strictEq x (VStr "foo")) /\
  (forall q, isLiteral q = true ->
             JSONCheck (VStr q) x = Ret (strictEq x (VStr (removeAll quoteChar q)))) /\
  (JSONCheck (VStr (quoted ("a" ++ String quoteChar "b"))) x = Ret true <->
   x = VStr "ab").
Proof.
  split; [|split].
  - apply (JSONCheck_literal x tag (quoted "foo") Hx). reflexivity.
  - intros q Hq. apply (JSONCheck_literal x tag q Hx Hq).
  - rewrite (JSONCheck_literal x tag _ Hx) by reflexivity.
    change (removeAll quoteChar (quoted ("a" ++ String quoteChar "b"))) with "ab".
    rewrite <- strictEq_str. split; intros H.
    + injection H as H. exact H.
    + f_equal. exact H.
Qed.

Lemma literal_law_witness :
  JSONCheck (VStr (quoted "foo")) (VStr "foo") = Ret (strictEq (VStr "foo") (VStr "foo")) /\
  (forall q, isLiteral q = true ->
             JSONCheck (VStr q) (VStr "foo") =
             Ret (strictEq (VStr "foo") (VStr (removeAll quoteChar q)))) /\
  (JSONCheck (VStr (quoted ("a" ++ String quoteChar "b"))) (VStr "foo") = Ret true <->
   VStr "foo" = VStr "ab").
Proof. apply (literal_law (VStr "foo") "string"). reflexivity. Defined.

(** The literal law does not hold for every input: an input that shadows
    [hasOwnProperty] with a number makes the classifier throw, and the
    validator with it, where [x === "foo"] is [false]. *)
Lemma literal_throws :
  JSONCheck (VStr (quoted "foo"))
            (VObj [("length", VNum 1); ("hasOwnProperty", VNum 0)]) = Throw TypeError /\
  strictEq (VObj [("length", VNum 1); ("hasOwnProperty", VNum 0)]) (VStr "foo") = false.
Proof. split; reflexivity. Qed.

(** ** Tags of containers *)

Lemma getType_obj_unfold (props : list (string * value)) :
  getType (VObj props) =
  (arraylike <-
     (if strictEq (orUndefined (own "length" props)) VUndef then Ret false
      else
        n <- toNumber (orUndefined (own "length" props)) ;;
        if numLt (Some 0%Z) n then
          match n with
          | Some z => hasOwnProperty (VObj props) (Z.to_nat (z - 1))
          | None => Ret false
          end
        else Ret false) ;;
   if arraylike then Ret "arraylike"
   else if hasEnumerable (VObj props) then Ret "objectlike"
   else Ret "Object").
Proof. reflexivity. Qed.

Lemma getType_obj_tags (props : list (string * value)) (t : string) :
  getType (VObj props) = Ret t ->
  t = "arraylike" \/ (t = "objectlike" /\ props <> []) \/ (t = "Object" /\ props = []).
Proof.
  rewrite getType_obj_unfold.
  destruct (if strictEq _ _ then _ else _) as [[|]|e]; cbn [bind].
  - intros H. left. congruence.
  - destruct props as [|kv props]; cbn [hasEnumerable]; intros H.
    + right. right. split; congruence.
    + right. left. split; congruence.
  - discriminate.
Qed.

Lemma getType_obj_no_length (props : list (string * value)) :
  own "length" props = None ->
  getType (VObj props) = Ret (if hasEnumerable (VObj props) then "objectlike" else "Object").
Proof.
  intros H. rewrite getType_obj_unfold, H. cbn.
  destruct props; reflexivity.
Qed.

Lemma getType_objectlike_inv (v : value) :
  getType v = Ret "objectlike" -> exists props, v = VObj props /\ props <> [].
Proof.
  destruct v as [| |b|n|s|i|f a|s f|items|props]; try discriminate.
  - destruct items; [discriminate|]. rewrite getType_arr_cons. discriminate.
  - intros H. exists props. split; [reflexivity|].
    destruct (getType_obj_tags props _ H) as [H'|[[_ H']|[H' _]]];
      [discriminate|exact H'|discriminate].
Qed.

Lemma getType_arraylike_inv (v : value) :
  getType v = Ret "arraylike" ->
  (exists x items, v = VArr (x :: items)) \/ (exists props, v = VObj props).
Proof.
  destruct v as [| |b|n|s|i|f a|s f|items|props]; try discriminate.
  - destruct items as [|x items]; [discriminate|]. left. eauto.
  - right. eauto.
Qed.

Lemma getType_number_inv (v : value) : getType v = Ret "number" -> isNumber v = true.
Proof.
  destruct v as [| |b|n|s|i|f a|s f|items|props]; try discriminate.
  - reflexivity.
  - destruct items; [discriminate|]. rewrite getType_arr_cons. discriminate.
  - intros H. destruct (getType_obj_tags props _ H) as [H'|[[H' _]|[H' _]]]; discriminate.
Qed.

(** ** Object validators *)

Lemma JSONCheck_obj_unfold (props : list (string * value)) (x : value) :
  getType (VObj props) = Ret "objectlike" ->
  JSONCheck (VObj props) x =
  (inputType <- getType x ;; objectValidator JSONCheck inputType x props).
Proof. intros H. cbn [JSONCheck]. rewrite H. reflexivity. Qed.

(** C10: the classifier gives the empty array the tag ['Array'] and the
    empty object the tag ['Object'], neither ['arraylike'] nor
    ['objectlike']; hence every keyed-kind validator [S] (an object with at
    least one key) rejects the empty object, whatever its fields allow. *)
Theorem empty_containers (S : value) (HS : getType S = Ret "objectlike") :
  getType (VArr []) = Ret "Array" /\
  getType (VObj []) = Ret "Object" /\
  JSONCheck S (VObj []) = Ret false.
Proof.
  split; [reflexivity|]. split; [reflexivity|].
  destruct (getType_objectlike_inv S HS) as [props [-> _]].
  rewrite (JSONCheck_obj_unfold props _ HS). reflexivity.
Qed.

Lemma empty_containers_witness :
  getType (VArr []) = Ret "Array" /\
  getType (VObj []) = Ret "Object" /\
  JSONCheck (VObj [("info", VStr "undefined|string"); ("code", VStr "undefined")])
            (VObj []) = Ret false.
Proof. apply empty_containers. reflexivity. Defined.

Lemma forIn_ext check (x x' : value) (props : list (string * value)) :
  (forall k v, In (k, v) props -> getProp x' k = getProp x k) ->
  forIn check x' props = forIn check x props.
Proof.
  induction props as [|[k v] props IH]; intros H; cbn [forIn]; [reflexivity|].
  rewrite (H k v (or_introl eq_refl)).
  rewrite IH; [reflexivity|].
  intros k' v' Hin. apply (H k' v'). right. exact Hin.
Qed.

Lemma own_none_keys {V} (k : string) (props : list (string * V)) :
  own k props = None -> forall k' v, In (k', v) props -> k' <> k.
Proof.
  induction props as [|[k0 v0] props IH]; intros H k' v Hin; [destruct Hin|].
  cbn [own] in H. destruct (String.eqb k0 k) eqn:E; [discriminate|].
  destruct Hin as [Heq|Hin].
  - inversion Heq; subst. apply String.eqb_neq. exact E.
  - apply (IH H k' v Hin).
Qed.

Lemma own_setProp_other (k k' : string) (w : value) (props : list (string * value)) :
  k' <> k -> own k' (setProp k w props) = own k' props.
Proof.
  intros Hne. induction props as [|[k0 v0] props IH]; cbn [setProp own].
  - apply String.eqb_neq in Hne. rewrite String.eqb_sym, Hne. reflexivity.
  - destruct (String.eqb k0 k) eqn:E; cbn [own].
    + apply String.eqb_eq in E. subst k0.
      apply String.eqb_neq in Hne. rewrite String.eqb_sym, Hne. reflexivity.
    + rewrite IH. reflexivity.
Qed.

(** C4 (missing-key law, as the code has it): for a validator [{k: s}] and
    a keyed-kind input (an object the classifier tags ['objectlike']) that
    has no property [k] of its own and inherits none from
    [Object.prototype], [validate(input, {k: s}) == validate(undefined, s)]. *)
Theorem missing_key_law (props : list (string * value)) (k : string) (s : value)
    (Hinput : getType (VObj props) = Ret "objectlike")
    (Hvalidator : getType (VObj [(k, s)]) = Ret "objectlike")
    (Hmissing : own k props = None)
    (Hplain : own k objectPrototype = None) :
  JSONCheck (VObj [(k, s)]) (VObj props) = JSONCheck s VUndef.
Proof.
  rewrite (JSONCheck_obj_unfold _ _ Hvalidator), Hinput.
  cbn [bind objectValidator String.eqb Ascii.eqb Bool.eqb negb forIn getProp].
  change (("objectlike" =? "objectlike")%string) with true. cbn [negb].
  rewrite Hmissing, Hplain. cbn [orUndefined bind].
  destruct (JSONCheck s VUndef) as [[|]|e]; reflexivity.
Qed.

Lemma missing_key_law_witness :
  JSONCheck (VObj [("code", VStr "undefined|string")]) (VObj [("info", VStr "x")]) =
  JSONCheck (VStr "undefined|string") VUndef.
Proof. apply missing_key_law; reflexivity. Defined.

(** The empty object misses every key, yet no object validator accepts it. *)
Lemma missing_key_empty_object :
  own "code" (@nil (string * value)) = None /\
  JSONCheck (VObj [("code", VStr "undefined")]) (VObj []) = Ret false /\
  JSONCheck (VStr "undefined") VUndef = Ret true.
Proof. repeat split. Qed.

(** A key absent from the object but present on [Object.prototype] reads
    as the inherited function, not as [undefined]. *)
Example missing_key_inherited :
  own "toString" [("a", VNum 1)] = None /\
  JSONCheck (VObj [("toString", VStr "undefined")]) (VObj [("a", VNum 1)]) = Ret false /\
  JSONCheck (VObj [("toString", VStr "function")]) (VObj [("a", VNum 1)]) = Ret true.
Proof. repeat split. Qed.

(** C3 (extra keys, as the code has it): for an object validator [S] and a
    key [k] that [S] does not reference, setting [k] to [w] on an object
    input whose classification is left unchanged by it (in particular an
    input that is keyed-kind before and after) does not change the result
    of validating against [S]. *)
Theorem extra_key_law (S props : list (string * value)) (k : string) (w : value)
    (HS : getType (VObj S) = Ret "objectlike")
    (Hk : own k S = None)
    (Hsame : getType (VObj (setProp k w props)) = getType (VObj props)) :
  JSONCheck (VObj S) (VObj (setProp k w props)) = JSONCheck (VObj S) (VObj props).
Proof.
  rewrite !(JSONCheck_obj_unfold _ _ HS), Hsame.
  destruct (getType (VObj props)) as [inputType|e]; cbn [bind]; [|reflexivity].
  unfold objectValidator. destruct (negb _); [reflexivity|].
  apply forIn_ext. intros k' v Hin.
  cbn [getProp]. rewrite own_setProp_other; [reflexivity|].
  apply (own_none_keys k S Hk k' v Hin).
Qed.

Lemma extra_key_law_witness :
  JSONCheck (VObj [("name", VStr "string")])
            (VObj (setProp "age" (VNum 32) [("name", VStr "John Doe")])) =
  JSONCheck (VObj [("name", VStr "string")]) (VObj [("name", VStr "John Doe")]).
Proof. apply extra_key_law; reflexivity. Defined.

(** Giving the empty object its first key turns a rejected input into an
    accepted one, although the validator does not mention that key. *)
Lemma extra_key_empty_object :
  own "b" [("a", VStr "undefined")] = None /\
  JSONCheck (VObj [("a", VStr "undefined")]) (VObj []) = Ret false /\
  JSONCheck (VObj [("a", VStr "undefined")]) (VObj (setProp "b" (VNum 1) [])) = Ret true.
Proof. repeat split. Qed.

(** Adding a key named [length] can turn a keyed-kind input into a
    sequence-kind one. *)
Example extra_key_length :
  own "length" [("x", VStr "number")] = None /\
  JSONCheck (VObj [("x", VStr "number")]) (VObj [("0", VStr "a"); ("x", VNum 1)]) = Ret true /\
  JSONCheck (VObj [("x", VStr "number")])
            (VObj (setProp "length" (VNum 1) [("0", VStr "a"); ("x", VNum 1)])) = Ret false.
Proof. repeat split. Qed.

(** ** Array validators *)

Lemma JSONCheck_arr_unfold (c : value) (cs : list value) (x : value) :
  JSONCheck (VArr (c :: cs)) x =
  (inputType <- getType x ;; arrayValidator JSONCheck inputType x (c :: cs)).
Proof. cbn [JSONCheck]. rewrite getType_arr_cons. reflexivity. Qed.

Lemma getType_tag_number (x : value) (t : string) :
  getType x = Ret t -> (t =? "number") = isNumber x.
Proof.
  intros H. destruct (t =? "number") eqn:E.
  - apply String.eqb_eq in E. subst t. symmetry. apply getType_number_inv. exact H.
  - destruct x; try reflexivity. cbn in H. inversion H; subst. discriminate.
Qed.

Lemma eachNumber_item (x : value) (t : string) :
  getType x = Ret t ->
  (vs <- mapM (fun validationItem => JSONCheck validationItem x) [VStr "number"] ;;
   Ret (0 <? countTrue vs)%nat) = Ret (isNumber x).
Proof.
  intros H. cbn [mapM].
  rewrite (JSONCheck_typeName x t "number" H eq_refl). cbn [bind].
  rewrite (getType_tag_number x t H). destruct (isNumber x); reflexivity.
Qed.

(** C1 (each-clause over numbers, as the code has it): on the validator
    [[[/each/, "number"]]] an array whose elements the classifier
    classifies is accepted exactly when it is non-empty and all its
    elements are numbers.  The empty array is rejected: its tag is
    ['Array'], not ['arraylike'], so the each-clause is never applied to
    it. *)
Theorem each_number_law (items : list value)
    (Hitems : forall x, In x items -> exists t, getType x = Ret t) :
  JSONCheck eachNumber (VArr items) =
  Ret (negb (length items =? 0)%nat && forallb isNumber items).
Proof.
  destruct items as [|x items]; [reflexivity|].
  unfold eachNumber. rewrite JSONCheck_arr_unfold, getType_arr_cons.
  cbn [bind]. unfold arrayValidator.
  change ("arraylike" =? "arraylike") with true. cbv iota.
  cbn [mapM]. unfold candidate. cbn [getIndex nth bind].
  change (isEach each) with (@Ret bool true). cbn [bind]. unfold eachClause.
  rewrite (mapM_pure _ isNumber).
  - cbn [bind]. rewrite countFalse_forallb, forallb_id_map.
    cbn [length Nat.eqb negb andb].
    destruct (forallb isNumber (x :: items)); reflexivity.
  - intros y Hy. destruct (Hitems y Hy) as [t Ht].
    apply (eachNumber_item y t Ht).
Qed.

Lemma each_number_law_witness :
  JSONCheck eachNumber (VArr [VNum 1; VStr "x"]) =
  Ret (negb (length [VNum 1; VStr "x"] =? 0)%nat && forallb isNumber [VNum 1; VStr "x"]).
Proof.
  apply each_number_law.
  intros x [<-|[<-|[]]]; eexists; reflexivity.
Defined.

(** The each-clause rejects the empty array. *)
Lemma each_number_empty_array : JSONCheck eachNumber (VArr []) = Ret false.
Proof. reflexivity. Qed.

(** ** Candidates *)

Lemma candidate_not_each check (x c : value) :
  firstIsEach c = Ret false ->
  candidate check x c =
  (validatorItemArrType <- getType c ;;
   if validatorItemArrType =? "string" then check c x else tupleClause check x c).
Proof.
  unfold firstIsEach, candidate. intros H.
  destruct (getIndex c 0) as [first|e]; cbn [bind] in *; [|discriminate].
  rewrite H. reflexivity.
Qed.

Lemma tupleArr_seq check (x : value) (pre items : list value) :
  tupleArr check x (length pre) items =
  mapM (fun i => inputI <- getIndex x i ;;
                 validatorI <- getIndex (VArr (pre ++ items)) i ;;
                 check validatorI inputI)
       (seq (length pre) (length items)).
Proof.
  revert pre. induction items as [|v rest IH]; intros pre; [reflexivity|].
  cbn [tupleArr length seq mapM getIndex].
  rewrite nth_middle. cbn [bind].
  specialize (IH (pre ++ [v])).
  rewrite length_app, Nat.add_1_r, <- app_assoc in IH. cbn [app] in IH.
  cbn [getIndex] in IH. rewrite IH.
  destruct (getIndex x (length pre)); reflexivity.
Qed.

Lemma own_map {V W} (g : V -> W) (k : string) (props : list (string * V)) :
  own k (map (fun kv => (fst kv, g (snd kv))) props) = option_map g (own k props).
Proof.
  induction props as [|[k0 v0] props IH]; cbn [map own fst snd]; [reflexivity|].
  destruct (String.eqb k0 k); [reflexivity|exact IH].
Qed.

Lemma JSONCheck_undef (x : value) : JSONCheck VUndef x = scalarCheck VUndef x.
Proof. reflexivity. Qed.

Lemma checkAt_own (props : list (string * value)) (i : nat) (x : value) :
  checkAt JSONCheck props i x = JSONCheck (orUndefined (own (indexKey i) props)) x.
Proof.
  unfold checkAt. rewrite own_map.
  destruct (own (indexKey i) props); reflexivity.
Qed.

Lemma loopCount_arr (items : list value) : loopCount (VArr items) = Ret (length items).
Proof. unfold loopCount. cbn [getLength toNumber bind]. rewrite Nat2Z.id. reflexivity. Qed.

Lemma loopCount_arraylike_obj (props : list (string * value)) :
  getType (VObj props) = Ret "arraylike" ->
  exists n, loopCount (VObj props) = Ret n /\ (0 < n)%nat.
Proof.
  rewrite getType_obj_unfold. unfold loopCount. cbn [getLength bind].
  destruct (strictEq (orUndefined (own "length" props)) VUndef).
  - cbn [bind]. destruct (hasEnumerable _); discriminate.
  - destruct (toNumber _) as [[z|]|e]; cbn [bind numLt].
    + destruct (0 <? z)%Z eqn:Hz.
      * intros _. exists (Z.to_nat z). split; [reflexivity|].
        apply Z.ltb_lt in Hz. lia.
      * cbn [bind]. destruct (hasEnumerable _); discriminate.
    + cbn [bind]. destruct (hasEnumerable _); discriminate.
    + discriminate.
Qed.

(** The positional loop of a sequence-kind candidate, position by position. *)
Lemma candidate_tuple (x c : value) :
  getType c = Ret "arraylike" -> firstIsEach c = Ret false ->
  exists n, loopCount c = Ret n /\ (0 < n)%nat /\
    candidate JSONCheck x c =
    (validArr <- mapM (position x c) (seq 0 n) ;;
     Ret (forallb (fun b => b) validArr)).
Proof.
  intros Hc Hnot. rewrite (candidate_not_each _ _ _ Hnot), Hc. cbn [bind].
  change ("arraylike" =? "string") with false. cbv iota.
  destruct (getType_arraylike_inv c Hc) as [[c0 [cs ->]]|[props ->]].
  - exists (length (c0 :: cs)). split; [apply loopCount_arr|].
    split; [cbn [length]; lia|].
    unfold tupleClause.
    change (tupleArr JSONCheck x 0 (c0 :: cs))
      with (tupleArr JSONCheck x (length (@nil value)) (c0 :: cs)).
    rewrite (tupleArr_seq JSONCheck x [] (c0 :: cs)).
    cbn [app length]. unfold position.
    destruct (mapM _ _); cbn [bind]; [rewrite countFalse_forallb|]; reflexivity.
  - destruct (loopCount_arraylike_obj props Hc) as [n [Hn Hpos]].
    exists n. split; [exact Hn|]. split; [exact Hpos|].
    unfold tupleClause. rewrite Hn. cbn [bind].
    rewrite (mapM_ext _ (position x (VObj props))).
    + destruct (mapM _ _); cbn [bind]; [rewrite countFalse_forallb|]; reflexivity.
    + intros i _. unfold position.
      destruct (getIndex x i) as [inputI|e]; cbn [bind getIndex]; [|reflexivity].
      apply checkAt_own.
Qed.

(** C7 (tuple law): for a sequence-kind input and a sequence-kind candidate
    that does not start with [/each/], the candidate runs
    [JSONCheck(input[i], candidate[i])] for [i] from [0] to
    [candidate.length - 1], reading [undefined] where the input has no
    element, and passes exactly when all of them return [true]; it reads
    no other position of the input, so two inputs that agree below
    [candidate.length] get the same verdict, whatever else they hold. *)
Theorem tuple_law (input c : value)
    (Hinput : getType input = Ret "arraylike")
    (Hc : getType c = Ret "arraylike")
    (Hnot : firstIsEach c = Ret false) :
  exists n, loopCount c = Ret n /\ (0 < n)%nat /\
    candidate JSONCheck input c =
      (validArr <- mapM (position input c) (seq 0 n) ;;
       Ret (forallb (fun b => b) validArr)) /\
    (forall verdict : nat -> bool,
        (forall i, (i < n)%nat -> position input c i = Ret (verdict i)) ->
        candidate JSONCheck input c = Ret (forallb verdict (seq 0 n))) /\
    (forall input',
        getType input' = Ret "arraylike" ->
        (forall i, (i < n)%nat -> getIndex input' i = getIndex input i) ->
        candidate JSONCheck input' c = candidate JSONCheck input c).
Proof.
  destruct (candidate_tuple input c Hc Hnot) as [n [Hn [Hpos Heq]]].
  exists n. split; [exact Hn|]. split; [exact Hpos|]. split; [exact Heq|]. split.
  - intros verdict Hv. rewrite Heq, (mapM_pure _ verdict).
    + cbn [bind]. rewrite forallb_id_map. reflexivity.
    + intros i Hi. apply Hv. apply in_seq in Hi. lia.
  - intros input' _ Hagree.
    destruct (candidate_tuple input' c Hc Hnot) as [n' [Hn' [_ Heq']]].
    rewrite Hn in Hn'. injection Hn' as <-.
    rewrite Heq, Heq'. rewrite (mapM_ext _ (position input c)); [reflexivity|].
    intros i Hi. apply in_seq in Hi. unfold position. rewrite Hagree by lia.
    reflexivity.
Qed.

Lemma tuple_law_witness :
  exists n, loopCount (VArr [VStr "number"; VStr "string"]) = Ret n /\ (0 < n)%nat /\
    candidate JSONCheck (VArr [VNum 1; VStr "a"; VNull]) (VArr [VStr "number"; VStr "string"]) =
      (validArr <- mapM (position (VArr [VNum 1; VStr "a"; VNull])
                                  (VArr [VStr "number"; VStr "string"])) (seq 0 n) ;;
       Ret (forallb (fun b => b) validArr)) /\
    (forall verdict : nat -> bool,
        (forall i, (i < n)%nat ->
                   position (VArr [VNum 1; VStr "a"; VNull])
                            (VArr [VStr "number"; VStr "string"]) i = Ret (verdict i)) ->
        candidate JSONCheck (VArr [VNum 1; VStr "a"; VNull])
                  (VArr [VStr "number"; VStr "string"]) = Ret (forallb verdict (seq 0 n))) /\
    (forall input',
        getType input' = Ret "arraylike" ->
        (forall i, (i < n)%nat -> getIndex input' i = getIndex (VArr [VNum 1; VStr "a"; VNull]) i) ->
        candidate JSONCheck input' (VArr [VStr "number"; VStr "string"]) =
        candidate JSONCheck (VArr [VNum 1; VStr "a"; VNull]) (VArr [VStr "number"; VStr "string"])).
Proof. apply tuple_law; reflexivity. Defined.

Lemma mapM_total {A B} (f : A -> result B) (l : list A) :
  (forall a, In a l -> exists b, f a = Ret b) -> exists bs, mapM f l = Ret bs.
Proof.
  induction l as [|a l IH]; intros H; cbn [mapM]; [eexists; reflexivity|].
  destruct (H a (or_introl eq_refl)) as [b Hb]. rewrite Hb.
  destruct IH as [bs Hbs]; [intros a' Ha'; apply H; right; exact Ha'|].
  rewrite Hbs. eexists. reflexivity.
Qed.

Lemma mapM_In {A B} (f : A -> result B) (l : list A) (bs : list B) (a : A) (b : B) :
  mapM f l = Ret bs -> In a l -> f a = Ret b -> In b bs.
Proof.
  revert bs. induction l as [|a0 l IH]; intros bs Hm Hin Hb; [destruct Hin|].
  cbn [mapM] in Hm. destruct (f a0) as [b0|] eqn:E0; [|discriminate].
  cbn [bind] in Hm. destruct (mapM f l) as [bs'|]; [|discriminate].
  cbn [bind] in Hm. injection Hm as <-.
  destruct Hin as [->|Hin].
  - left. congruence.
  - right. apply IH; auto.
Qed.

Lemma countTrue_In (bs : list bool) : In true bs -> (0 <? countTrue bs)%nat = true.
Proof.
  intros H. rewrite countTrue_existsb. apply existsb_exists. exists true. auto.
Qed.

(** C9 (keyed candidate, as the code has it): against a sequence-kind input
    a keyed-kind candidate [c] that has no [length] property of its own and
    whose property [0] is not [/each/] passes without looking at the input:
    its loop runs zero times.  A validator array holding such a candidate
    then accepts the input, provided its candidates all return. *)
Theorem keyed_candidate_law (v : value) (props : list (string * value)) (cs : list value)
    (Hv : getType v = Ret "arraylike")
    (Hc : getType (VObj props) = Ret "objectlike")
    (Hlength : own "length" props = None)
    (Hnot : firstIsEach (VObj props) = Ret false)
    (Hin : In (VObj props) cs)
    (Hreturn : forall c', In c' cs -> exists b, candidate JSONCheck v c' = Ret b) :
  candidate JSONCheck v (VObj props) = Ret true /\
  JSONCheck (VArr cs) v = Ret true.
Proof.
  assert (Hcand : candidate JSONCheck v (VObj props) = Ret true).
  { rewrite (candidate_not_each _ _ _ Hnot), Hc. cbn [bind].
    change ("objectlike" =? "string") with false. cbv iota.
    unfold tupleClause, loopCount. cbn [getLength]. rewrite Hlength. reflexivity. }
  split; [exact Hcand|].
  destruct cs as [|c0 cs]; [destruct Hin|].
  rewrite JSONCheck_arr_unfold, Hv. cbn [bind]. unfold arrayValidator.
  change ("arraylike" =? "arraylike") with true. cbv iota.
  destruct (mapM_total (candidate JSONCheck v) (c0 :: cs) Hreturn) as [bs Hbs].
  rewrite Hbs. cbn [bind]. f_equal. apply countTrue_In.
  apply (mapM_In _ _ _ _ _ Hbs Hin Hcand).
Qed.

Lemma keyed_candidate_law_witness :
  candidate JSONCheck (VArr [VNum 1; VNum 2]) (VObj [("a", VStr "string")]) = Ret true /\
  JSONCheck (VArr [VObj [("a", VStr "string")]]) (VArr [VNum 1; VNum 2]) = Ret true.
Proof.
  apply keyed_candidate_law; try reflexivity.
  - left. reflexivity.
  - intros c' [<-|[]]. eexists. reflexivity.
Defined.

(** A keyed-kind candidate with a numeric [length] is checked position by
    position against [undefined], and fails on a non-empty input. *)
Lemma keyed_candidate_with_length :
  getType (VObj [("a", VStr "string"); ("length", VNum 2)]) = Ret "objectlike" /\
  getType (VArr [VNum 1; VNum 2]) = Ret "arraylike" /\
  JSONCheck (VArr [VObj [("a", VStr "string"); ("length", VNum 2)]])
            (VArr [VNum 1; VNum 2]) = Ret false.
Proof. repeat split. Qed.

(** ** Freedom from faults *)

Lemma lengthFree_getType (v : value) :
  lengthFree v = true ->
  exists t, getType v = Ret t /\
    (t = "arraylike" -> exists a l, v = VArr (a :: l)) /\
    (t = "objectlike" -> exists props, v = VObj props).
Proof.
  destruct v as [| |b|n|s|i|f a|s f|items|props]; intros H;
    try (eexists; split; [reflexivity|split; discriminate]).
  - destruct items as [|a l].
    + eexists; split; [reflexivity|split; discriminate].
    + exists "arraylike". split; [apply getType_arr_cons|]. split; [eauto|discriminate].
  - cbn [lengthFree] in H. apply andb_true_iff in H. destruct H as [H _].
    unfold hasOwn in H. destruct (own "length" props) eqn:E; [discriminate|].
    rewrite (getType_obj_no_length props E).
    eexists. split; [reflexivity|]. split.
    + destruct (hasEnumerable _); discriminate.
    + eauto.
Qed.

Lemma own_In {V} (k : string) (props : list (string * V)) (v : V) :
  own k props = Some v -> exists k', In (k', v) props.
Proof.
  induction props as [|[k0 v0] props IH]; cbn [own]; [discriminate|].
  destruct (String.eqb k0 k).
  - intros H. injection H as ->. exists k0. left. reflexivity.
  - intros H. destruct (IH H) as [k' Hk']. exists k'. right. exact Hk'.
Qed.




















(** Other faults of the same kind: a [null] candidate, an object validator
    that the classifier takes for a sequence, an input that shadows
    [hasOwnProperty]. *)
Example validate_throws_null_candidate :
  JSONCheck (VArr [VNull]) (VArr [VNum 1]) = Throw TypeError /\
  JSONCheck (VArr [VNull]) (VNum 1) = Ret false.
Proof. split; reflexivity. Qed.

Example validate_throws_sequence_like_validator :
  JSONCheck (VObj [("0", VStr "string"); ("length", VNum 1)]) (VNum 5) = Throw TypeError.
Proof. reflexivity. Qed.

Example validate_throws_shadowed_method :
  JSONCheck (VStr "string")
            (VObj [("length", VNum 1); ("hasOwnProperty", VNum 0)]) = Throw TypeError.
Proof. reflexivity. Qed.

(** * Further properties of the classifier and the validator *)

(** X1 (duck typing, helpers.js lines 256-263): an object whose own
    [length] is the number [n], and that does not shadow [hasOwnProperty],
    is ['arraylike'] exactly when [n > 0] and it has the property [n - 1]
    of its own; otherwise it is ['objectlike']. *)
Theorem getType_duck_typing (props : list (string * value)) (n : Z)
    (Hlength : own "length" props = Some (VNum n))
    (Hmethod : own "hasOwnProperty" props = None) :
  getType (VObj props) =
  Ret (if (0 <? n)%Z && hasOwn (indexKey (Z.to_nat (n - 1))) props
       then "arraylike" else "objectlike").
Proof.
  rewrite getType_obj_unfold, Hlength. cbn [orUndefined strictEq toNumber bind numLt].
  destruct (0 <? n)%Z; cbn [andb].
  - cbn [hasOwnProperty]. rewrite Hmethod. unfold hasOwn.
    destruct (own (indexKey _) props); cbn [bind]; [reflexivity|].
    destruct props; [discriminate|reflexivity].
  - cbn [bind]. destruct props; [discriminate|reflexivity].
Qed.

Lemma getType_duck_typing_witness :
  getType (VObj [("key", VNum 24); ("length", VNum 4)]) =
  Ret (if (0 <? 4)%Z && hasOwn (indexKey (Z.to_nat (4 - 1))) [("key", VNum 24); ("length", VNum 4)]
       then "arraylike" else "objectlike").
Proof. apply getType_duck_typing; reflexivity. Defined.

(** X2 (json-validator.js lines 230-231): an ['objectlike'] validator
    rejects every input that is not ['objectlike'] itself: scalars, [null],
    arrays, and the empty object. *)
Theorem object_validator_rejects (S x : value) (t : string)
    (HS : getType S = Ret "objectlike")
    (Hx : getType x = Ret t)
    (Ht : t <> "objectlike") :
  JSONCheck S x = Ret false.
Proof.
  destruct (getType_objectlike_inv S HS) as [props [-> _]].
  rewrite (JSONCheck_obj_unfold props x HS), Hx. cbn [bind]. unfold objectValidator.
  apply String.eqb_neq in Ht. rewrite Ht. reflexivity.
Qed.

Lemma object_validator_rejects_witness :
  JSONCheck (VObj [("name", VStr "undefined|string")]) (VArr [VStr "John"]) = Ret false.
Proof. apply (object_validator_rejects _ _ "arraylike"); [reflexivity|reflexivity|discriminate]. Defined.

Lemma getProp_readProp (props : list (string * value)) (k : string) :
  getProp (VObj props) k = Ret (readProp props k).
Proof. unfold getProp, readProp. destruct (own k props); reflexivity. Qed.

Lemma forIn_true (xprops props : list (string * value)) :
  forIn JSONCheck (VObj xprops) props = Ret true <->
  (forall k s, In (k, s) props -> JSONCheck s (readProp xprops k) = Ret true).
Proof.
  induction props as [|[k s] props IH]; cbn [forIn].
  - split; [intros _ k s []|reflexivity].
  - rewrite getProp_readProp. cbn [bind]. split.
    + intros H k' s' [Heq|Hin].
      * injection Heq as <- <-.
        destruct (JSONCheck s (readProp xprops k)) as [[|]|e]; cbn [bind Bool.eqb] in H;
          [reflexivity|discriminate|discriminate].
      * destruct (JSONCheck s (readProp xprops k)) as [[|]|e]; cbn [bind Bool.eqb] in H;
          [|discriminate|discriminate].
        apply (proj1 IH H k' s' Hin).
    + intros H. rewrite (H k s (or_introl eq_refl)). cbn [bind Bool.eqb].
      apply IH. intros k' s' Hin. apply H. right. exact Hin.
Qed.

(** X3 (json-validator.js lines 230-238): an ['objectlike'] validator
    accepts an ['objectlike'] input exactly when every key of the validator
    accepts what the input holds under that key: its own property, else the
    property inherited from [Object.prototype], else [undefined]. *)
Theorem object_validator_accepts (props xprops : list (string * value))
    (HS : getType (VObj props) = Ret "objectlike")
    (Hx : getType (VObj xprops) = Ret "objectlike") :
  JSONCheck (VObj props) (VObj xprops) = Ret true <->
  (forall k s, In (k, s) props -> JSONCheck s (readProp xprops k) = Ret true).
Proof.
  rewrite (JSONCheck_obj_unfold props _ HS), Hx. cbn [bind]. unfold objectValidator.
  change ("objectlike" =? "objectlike") with true. cbn [negb].
  apply forIn_true.
Qed.

Lemma object_validator_accepts_witness :
  JSONCheck (VObj [("name", VStr "string"); ("age", VStr "number")])
            (VObj [("name", VStr "John Doe"); ("age", VNum 32)]) = Ret true <->
  (forall k s, In (k, s) [("name", VStr "string"); ("age", VStr "number")] ->
               JSONCheck s (readProp [("name", VStr "John Doe"); ("age", VNum 32)] k) = Ret true).
Proof. apply object_validator_accepts; reflexivity. Defined.

Lemma existsb_true_In (bs : list bool) : existsb (fun b => b) bs = true <-> In true bs.
Proof.
  rewrite existsb_exists. split.
  - intros [b [Hin Hb]]. subst. exact Hin.
  - intros H. exists true. auto.
Qed.

Lemma mapM_In_inv {A B} (f : A -> result B) (l : list A) (bs : list B) (b : B) :
  mapM f l = Ret bs -> In b bs -> exists a, In a l /\ f a = Ret b.
Proof.
  revert bs. induction l as [|a0 l IH]; intros bs Hm Hin; cbn [mapM] in Hm.
  - injection Hm as <-. destruct Hin.
  - destruct (f a0) as [b0|] eqn:E0; [|discriminate]. cbn [bind] in Hm.
    destruct (mapM f l) as [bs'|]; [|discriminate]. cbn [bind] in Hm.
    injection Hm as <-. destruct Hin as [<-|Hin].
    + exists a0. split; [left; reflexivity|exact E0].
    + destruct (IH bs' eq_refl Hin) as [a [Ha Hfa]]. exists a. split; [right|]; assumption.
Qed.

(** X4 (json-validator.js lines 282-284): against an input that is not
    ['arraylike'], an array validator whose entries all return is a flat
    alternation: it returns a boolean, [true] exactly when some entry
    accepts the whole input. *)
Theorem flat_alternation (c : value) (cs : list value) (x : value) (t : string)
    (Hx : getType x = Ret t)
    (Ht : t <> "arraylike")
    (Hreturn : forall s, In s (c :: cs) -> exists b, JSONCheck s x = Ret b) :
  exists b, JSONCheck (VArr (c :: cs)) x = Ret b /\
    (b = true <-> exists s, In s (c :: cs) /\ JSONCheck s x = Ret true).
Proof.
  rewrite JSONCheck_arr_unfold, Hx. cbn [bind]. unfold arrayValidator.
  apply String.eqb_neq in Ht. rewrite Ht.
  destruct (mapM_total (fun s => JSONCheck s x) (c :: cs) Hreturn) as [bs Hbs].
  rewrite Hbs. cbn [bind]. eexists. split; [reflexivity|].
  rewrite countTrue_existsb, existsb_true_In. split.
  - intros Hin. apply (mapM_In_inv _ _ _ _ Hbs Hin).
  - intros [s [Hs Hsx]]. apply (mapM_In _ _ _ _ _ Hbs Hs Hsx).
Qed.

Lemma flat_alternation_witness :
  exists b, JSONCheck (VArr [VStr (quoted "Game"); VStr (quoted "software")]) (VStr "Game") = Ret b /\
    (b = true <-> exists s, In s [VStr (quoted "Game"); VStr (quoted "software")] /\
                            JSONCheck s (VStr "Game") = Ret true).
Proof.
  apply (flat_alternation _ _ _ "string"); [reflexivity|discriminate|].
  intros s [<-|[<-|[]]]; eexists; reflexivity.
Defined.

Lemma forallb_true_In (bs : list bool) :
  forallb (fun b => b) bs = true <-> (forall b, In b bs -> b = true).
Proof. apply forallb_forall. Qed.

Lemma candidate_each (x : value) (subs : list value) :
  candidate JSONCheck x (VArr (each :: subs)) = eachClause JSONCheck x subs.
Proof. reflexivity. Qed.

(** X5 (json-validator.js lines 246-258): when all element checks return,
    the candidate [[/each/, s1, ..., sn]] returns a boolean on an array,
    [true] exactly when every element of the array is accepted by at least
    one of [s1, ..., sn]. *)
Theorem each_clause_law (xs subs : list value)
    (Hreturn : forall x s, In x xs -> In s subs -> exists b, JSONCheck s x = Ret b) :
  exists b, candidate JSONCheck (VArr xs) (VArr (each :: subs)) = Ret b /\
    (b = true <-> forall x, In x xs -> exists s, In s subs /\ JSONCheck s x = Ret true).
Proof.
  rewrite candidate_each. unfold eachClause.
  set (f := fun inputDataItem : value =>
              vs <- mapM (fun validationItem => JSONCheck validationItem inputDataItem) subs ;;
              Ret (0 <? countTrue vs)%nat).
  assert (Hf : forall x, In x xs -> exists bx, f x = Ret bx /\
                 (bx = true <-> exists s, In s subs /\ JSONCheck s x = Ret true)).
  { intros x Hx. unfold f.
    destruct (mapM_total (fun s => JSONCheck s x) subs) as [vs Hvs];
      [intros s Hs; apply (Hreturn x s Hx Hs)|].
    rewrite Hvs. cbn [bind]. eexists. split; [reflexivity|].
    rewrite countTrue_existsb, existsb_true_In. split.
    - intros Hin. apply (mapM_In_inv _ _ _ _ Hvs Hin).
    - intros [s [Hs Hsx]]. apply (mapM_In _ _ _ _ _ Hvs Hs Hsx). }
  destruct (mapM_total f xs) as [bs Hbs].
  { intros x Hx. destruct (Hf x Hx) as [bx [Hbx _]]. eauto. }
  rewrite Hbs. cbn [bind]. eexists. split; [reflexivity|].
  rewrite countFalse_forallb, forallb_true_In. split.
  - intros Hall x Hx. destruct (Hf x Hx) as [bx [Hbx Hiff]].
    apply Hiff. apply Hall. apply (mapM_In _ _ _ _ _ Hbs Hx Hbx).
  - intros Hall b Hb. destruct (mapM_In_inv _ _ _ _ Hbs Hb) as [x [Hx Hfx]].
    destruct (Hf x Hx) as [bx [Hbx Hiff]]. rewrite Hfx in Hbx. injection Hbx as ->.
    apply Hiff. apply Hall. exact Hx.
Qed.

Lemma each_clause_law_witness :
  exists b, candidate JSONCheck (VArr [VNum 1; VStr "x"])
                      (VArr [each; VStr "number"; VStr "string"]) = Ret b /\
    (b = true <-> forall x, In x [VNum 1; VStr "x"] ->
                  exists s, In s [VStr "number"; VStr "string"] /\ JSONCheck s x = Ret true).
Proof.
  apply each_clause_law.
  intros x s [<-|[<-|[]]] [<-|[<-|[]]]; eexists; reflexivity.
Defined.

(** X6 (json-validator.js lines 222-228 and 265-267): an array of two
    strings validates like the two strings joined by a pipe, on every
    input: the pipe form is split into exactly that array, and a string
    candidate is applied to the whole input, sequence or not. *)
Theorem string_array_is_union (x : value) (a b : string) :
  JSONCheck (VArr [VStr a; VStr b]) x = JSONCheck (VStr (a ++ "|" ++ b)) x.
Proof.
  rewrite JSONCheck_arr_unfold, JSONCheck_str.
  change (a ++ "|" ++ b)%string with (a ++ String pipeChar b)%string.
  rewrite split_app.
  destruct (getType x) as [inputType|e] eqn:Hx; cbn [bind]; [|reflexivity].
  assert (Hboth : mapM (fun s => JSONCheck s x) [VStr a; VStr b] =
                  Ret [existsb (fun p => compareBranch inputType x (VStr p)) (split pipeChar a);
                       existsb (fun p => compareBranch inputType x (VStr p)) (split pipeChar b)]).
  { cbn [mapM]. rewrite !JSONCheck_str, Hx. reflexivity. }
  unfold arrayValidator. destruct (inputType =? "arraylike").
  - cbn [mapM]. rewrite !candidate_str. cbn [mapM] in Hboth. rewrite Hboth. cbn [bind].
    rewrite countTrue_existsb, existsb_app. cbn [existsb]. rewrite orb_false_r. reflexivity.
  - rewrite Hboth. cbn [bind].
    rewrite countTrue_existsb, existsb_app. cbn [existsb]. rewrite orb_false_r. reflexivity.
Qed.

Lemma strictEq_container_r (x : value) :
  strictEq x (VArr []) = false /\ strictEq x (VObj []) = false.
Proof. destruct x; split; reflexivity. Qed.

(** X7 (json-validator.js lines 297-302 with helpers.js lines 262-265): the
    empty array and the empty object, used as validators, reject every
    input the classifier classifies: they are neither ['arraylike'] nor
    ['objectlike'], so the input is compared with them by [===], and the
    input is never that very object. *)
Theorem empty_validator_rejects (x : value) (t : string) (Hx : getType x = Ret t) :
  JSONCheck (VArr []) x = Ret false /\ JSONCheck (VObj []) x = Ret false.
Proof.
  destruct (strictEq_container_r x) as [Ha Ho].
  split; cbn [JSONCheck]; rewrite Hx.
  - rewrite getType_arr_empty. cbn [bind]. unfold compareBranch. rewrite Ha. reflexivity.
  - change (getType (VObj [])) with (@Ret string "Object"). cbn [bind].
    cbn [String.eqb Ascii.eqb Bool.eqb]. unfold compareBranch. rewrite Ho. reflexivity.
Qed.

Lemma empty_validator_rejects_witness :
  JSONCheck (VArr []) (VArr [VNum 1]) = Ret false /\
  JSONCheck (VObj []) (VArr [VNum 1]) = Ret false.
Proof. apply (empty_validator_rejects _ "arraylike"). reflexivity. Defined.

Lemma strictEq_plain (x v : value) :
  isPlainLiteral v = true -> (strictEq x v = true <-> x = v).
Proof.
  intros Hv. destruct v; try discriminate; destruct x; cbn [strictEq];
    split; intros H; try discriminate H; try reflexivity.
  - apply Bool.eqb_prop in H. congruence.
  - injection H as ->. apply Bool.eqb_reflx.
  - apply Z.eqb_eq in H. congruence.
  - injection H as ->. apply Z.eqb_refl.
Qed.

(** X8 (json-validator.js lines 297-302): a validator that is [undefined],
    [null], a boolean or an integer is a literal: on an input the
    classifier classifies it returns a boolean, [true] exactly when the
    input is that very value.  The numbers here are the integers; the
    validator [NaN], which is [===] to nothing and so accepts no input, is
    not among them. *)
Theorem plain_literal_law (v x : value) (t : string)
    (Hv : isPlainLiteral v = true) (Hx : getType x = Ret t) :
  exists b, JSONCheck v x = Ret b /\ (b = true <-> x = v).
Proof.
  exists (strictEq x v). split; [|apply strictEq_plain; exact Hv].
  destruct v; try discriminate; cbn [JSONCheck getType typeof negb String.eqb Ascii.eqb
                                     Bool.eqb bind]; rewrite Hx; reflexivity.
Qed.

Lemma plain_literal_law_witness :
  exists b, JSONCheck (VNum 1) (VStr "1") = Ret b /\ (b = true <-> VStr "1" = VNum 1).
Proof. apply (plain_literal_law _ _ "string"); reflexivity. Defined.

Lemma candidate_accepts (x c : value) (cs : list value) :
  getType x = Ret "arraylike" -> In c cs ->
  candidate JSONCheck x c = Ret true ->
  (forall c', In c' cs -> exists b, candidate JSONCheck x c' = Ret b) ->
  JSONCheck (VArr cs) x = Ret true.
Proof.
  intros Hx Hin Hc Hreturn.
  destruct cs as [|c0 cs]; [destruct Hin|].
  rewrite JSONCheck_arr_unfold, Hx. cbn [bind]. unfold arrayValidator.
  change ("arraylike" =? "arraylike") with true. cbv iota.
  destruct (mapM_total (candidate JSONCheck x) (c0 :: cs) Hreturn) as [bs Hbs].
  rewrite Hbs. cbn [bind]. f_equal. apply countTrue_In.
  apply (mapM_In _ _ _ _ _ Hbs Hin Hc).
Qed.

(** X9 (json-validator.js lines 262-275): against a sequence-kind input, a
    candidate that is a boolean, a number, a symbol, a regular expression
    or the empty array has no position to check and passes; an array
    validator holding one accepts the input whenever its candidates all
    return, so for instance [validate([1,2,3], [42])] is [true]. *)
Theorem bare_candidate_passes (x c : value) (cs : list value)
    (Hx : getType x = Ret "arraylike")
    (Hc : isBareCandidate c = true)
    (Hin : In c cs)
    (Hreturn : forall c', In c' cs -> exists b, candidate JSONCheck x c' = Ret b) :
  candidate JSONCheck x c = Ret true /\ JSONCheck (VArr cs) x = Ret true.
Proof.
  assert (Hcand : candidate JSONCheck x c = Ret true).
  { destruct c as [| |b|n|s|i|f a|s f|[|c0 items]|props]; try discriminate; reflexivity. }
  split; [exact Hcand|]. apply (candidate_accepts x c cs Hx Hin Hcand Hreturn).
Qed.

Lemma bare_candidate_passes_witness :
  candidate JSONCheck (VArr [VNum 1; VNum 2; VNum 3]) (VNum 42) = Ret true /\
  JSONCheck (VArr [VNum 42]) (VArr [VNum 1; VNum 2; VNum 3]) = Ret true.
Proof.
  apply bare_candidate_passes; try reflexivity.
  - left. reflexivity.
  - intros c' [<-|[]]. eexists. reflexivity.
Defined.

(** * equals *)

Lemma equals_unfold (a b : value) :
  equals a b =
  (typeA <- getType a ;;
   bothArraylike <-
     (if typeA =? "arraylike" then typeB <- getType b ;; Ret (typeB =? "arraylike")
      else Ret false) ;;
   if bothArraylike then equalsArraylike equals b a
   else
     bothObjectlike <-
       (if typeA =? "objectlike" then typeB <- getType b ;; Ret (typeB =? "objectlike")
        else Ret false) ;;
     if bothObjectlike then
       match a with
       | VObj props => equalsObjectlike equals b props
       | _ => Throw Uncovered
       end
     else Ret (strictEq a b)).
Proof. destruct a; reflexivity. Qed.

Lemma allM_true {A} (f : A -> result bool) (l : list A) :
  allM f l = Ret true <-> (forall a, In a l -> f a = Ret true).
Proof.
  induction l as [|a l IH]; cbn [allM].
  - split; [intros _ a []|reflexivity].
  - split.
    + intros H a' [<-|Hin];
        destruct (f a) as [[|]|e]; cbn [bind negb] in H; try discriminate;
        [reflexivity|apply (proj1 IH H a' Hin)].
    + intros H. rewrite (H a (or_introl eq_refl)). cbn [bind negb].
      apply IH. intros a' Hin. apply H. right. exact Hin.
Qed.

Lemma allM_ext {A} (f g : A -> result bool) (l : list A) :
  (forall a, In a l -> f a = g a) -> allM f l = allM g l.
Proof.
  induction l as [|a l IH]; intros H; cbn [allM]; [reflexivity|].
  rewrite (H a (or_introl eq_refl)), IH; [reflexivity|].
  intros a' Ha'. apply H. right. exact Ha'.
Qed.

Lemma equals_objectlike (pa pb : list (string * value)) :
  getType (VObj pa) = Ret "objectlike" -> getType (VObj pb) = Ret "objectlike" ->
  equals (VObj pa) (VObj pb) =
  allM (fun kv => equals (snd kv) (readProp pb (fst kv))) pa.
Proof.
  intros Ha Hb. rewrite equals_unfold, Ha, Hb. cbn [bind].
  change ("objectlike" =? "arraylike") with false.
  change ("objectlike" =? "objectlike") with true. cbn [bind].
  unfold equalsObjectlike. apply allM_ext. intros kv _.
  rewrite getProp_readProp. reflexivity.
Qed.

(** X10 (helpers.js lines 426-433): two keyed-kind objects are [equals]
    exactly when every key of the first holds, in the second, a value
    [equals] to its own; what the second reads under a key is its own
    property, else the one inherited from [Object.prototype], else
    [undefined].  Keys that only the second object has are never read. *)
Theorem equals_objects (pa pb : list (string * value))
    (Ha : getType (VObj pa) = Ret "objectlike")
    (Hb : getType (VObj pb) = Ret "objectlike") :
  equals (VObj pa) (VObj pb) = Ret true <->
  (forall k v, In (k, v) pa -> equals v (readProp pb k) = Ret true).
Proof.
  rewrite (equals_objectlike pa pb Ha Hb), allM_true. split.
  - intros H k v Hin. apply (H (k, v) Hin).
  - intros H [k v] Hin. apply (H k v Hin).
Qed.

Lemma equals_objects_witness :
  equals (VObj [("b", VArr [VNum 1; VNum 2]); ("key", VNum 24)])
         (VObj [("key", VNum 24); ("b", VArr [VNum 1; VNum 2])]) = Ret true <->
  (forall k v, In (k, v) [("b", VArr [VNum 1; VNum 2]); ("key", VNum 24)] ->
               equals v (readProp [("key", VNum 24); ("b", VArr [VNum 1; VNum 2])] k) = Ret true).
Proof. apply equals_objects; reflexivity. Defined.

(** X11 (helpers.js lines 426-433): [equals] is not symmetric on objects.
    Setting, on the second object, a key that the first does not have
    leaves the verdict unchanged, as long as the second stays keyed-kind;
    so an object equals each of its extensions, while an extension need
    not equal it. *)
Theorem equals_ignores_extra_keys (pa pb : list (string * value)) (k : string) (w : value)
    (Ha : getType (VObj pa) = Ret "objectlike")
    (Hb : getType (VObj pb) = Ret "objectlike")
    (Hb' : getType (VObj (setProp k w pb)) = Ret "objectlike")
    (Hk : own k pa = None) :
  equals (VObj pa) (VObj (setProp k w pb)) = equals (VObj pa) (VObj pb).
Proof.
  rewrite (equals_objectlike pa _ Ha Hb'), (equals_objectlike pa _ Ha Hb).
  apply allM_ext. intros [k' v] Hin. cbn [fst snd]. unfold readProp.
  rewrite own_setProp_other; [reflexivity|].
  apply (own_none_keys k pa Hk k' v Hin).
Qed.

Lemma equals_ignores_extra_keys_witness :
  equals (VObj [("k", VNum 1)]) (VObj (setProp "e" (VNum 2) [("k", VNum 1)])) =
  equals (VObj [("k", VNum 1)]) (VObj [("k", VNum 1)]).
Proof. apply equals_ignores_extra_keys; reflexivity. Defined.

Example equals_not_symmetric :
  equals (VObj [("k", VNum 1)]) (VObj [("k", VNum 1); ("e", VNum 2)]) = Ret true /\
  equals (VObj [("k", VNum 1); ("e", VNum 2)]) (VObj [("k", VNum 1)]) = Ret false.
Proof. split; reflexivity. Qed.

Lemma equalsItems_true eq (ys pre items : list value) :
  equalsItems eq (VArr ys) (length pre) items = Ret true <->
  (forall j, (j < length items)%nat ->
             eq (nth j items VUndef) (nth (length pre + j) ys VUndef) = Ret true).
Proof.
  revert pre. induction items as [|a items IH]; intros pre; cbn [equalsItems].
  - split; [intros _ j Hj; cbn in Hj; lia|reflexivity].
  - cbn [getIndex bind length]. specialize (IH (pre ++ [a])).
    rewrite length_app, Nat.add_1_r in IH. split.
    + intros H j Hj.
      destruct (eq a (nth (length pre) ys VUndef)) as [[|]|e] eqn:E;
        cbn [bind negb] in H; try discriminate.
      destruct j as [|j]; [rewrite Nat.add_0_r; exact E|].
      cbn [nth]. rewrite Nat.add_succ_r. apply (proj1 IH H j). lia.
    + intros H. pose proof (H 0%nat (Nat.lt_0_succ _)) as H0.
      cbn [nth] in H0. rewrite Nat.add_0_r in H0. rewrite H0. cbn [bind negb].
      apply IH. intros j Hj. specialize (H (S j)). cbn [nth] in H.
      rewrite Nat.add_succ_r in H. apply H. lia.
Qed.

(** X12 (helpers.js lines 411-423): two non-empty arrays are [equals]
    exactly when they have the same length and hold [equals] elements at
    every index. *)
Theorem equals_arrays (x y : value) (xs ys : list value) :
  equals (VArr (x :: xs)) (VArr (y :: ys)) = Ret true <->
  (length (x :: xs) = length (y :: ys) /\
   forall i, (i < length (x :: xs))%nat ->
             equals (nth i (x :: xs) VUndef) (nth i (y :: ys) VUndef) = Ret true).
Proof.
  rewrite equals_unfold, !getType_arr_cons. cbn [bind].
  change ("arraylike" =? "arraylike") with true. cbn [bind].
  unfold equalsArraylike. cbn [getLength bind strictEq].
  destruct (Z.of_nat (length (x :: xs)) =? Z.of_nat (length (y :: ys)))%Z eqn:E; cbn [negb].
  - apply Z.eqb_eq in E. apply Nat2Z.inj in E.
    change (equalsItems equals (VArr (y :: ys)) 0 (x :: xs))
      with (equalsItems equals (VArr (y :: ys)) (length (@nil value)) (x :: xs)).
    rewrite equalsItems_true. cbn [length Nat.add]. split.
    + intros H. split; [exact E|exact H].
    + intros [_ H]. exact H.
  - apply Z.eqb_neq in E. split; [discriminate|].
    intros [Hlen _]. exfalso. apply E. rewrite Hlen. reflexivity.
Qed.

(** X13 (helpers.js lines 411, 426, 435): when the first argument is
    neither ['arraylike'] nor ['objectlike'], and is not [NaN], [equals(a,
    b)] is [a === b] and the second argument is not even classified.  So
    the empty array, the empty object and a regular expression are
    [equals] to no value built apart from them, not even to another empty
    array.  ([NaN], the one value for which lines 400-404 return [true]
    where [===] is [false], is not a value of the embedding.) *)
Theorem equals_falls_back (a b : value) (t : string)
    (Ha : getType a = Ret t)
    (Harr : t <> "arraylike") (Hobj : t <> "objectlike") :
  equals a b = Ret (strictEq a b) /\
  equals (VArr []) b = Ret false /\
  equals (VObj []) b = Ret false /\
  (forall source flags, equals (VRegExp source flags) b = Ret false).
Proof.
  split; [|repeat split; reflexivity].
  rewrite equals_unfold, Ha. cbn [bind].
  apply String.eqb_neq in Harr, Hobj. rewrite Harr, Hobj. reflexivity.
Qed.

Lemma equals_falls_back_witness :
  equals (VNum 1) (VBool true) = Ret (strictEq (VNum 1) (VBool true)) /\
  equals (VArr []) (VBool true) = Ret false /\
  equals (VObj []) (VBool true) = Ret false /\
  (forall source flags, equals (VRegExp source flags) (VBool true) = Ret false).
Proof. apply (equals_falls_back _ _ "number"); [reflexivity|discriminate|discriminate]. Defined.

Lemma own_distinct {V} (props : list (string * V)) (k : string) (v : V) :
  distinctKeys props = true -> In (k, v) props -> own k props = Some v.
Proof.
  induction props as [|[k0 v0] props IH]; intros Hd Hin; [destruct Hin|].
  cbn [distinctKeys] in Hd. apply andb_true_iff in Hd. destruct Hd as [Hk0 Hd].
  cbn [own]. destruct Hin as [Heq|Hin].
  - injection Heq as -> ->. rewrite String.eqb_refl. reflexivity.
  - destruct (String.eqb k0 k) eqn:E; [|apply IH; assumption].
    apply String.eqb_eq in E. subst k0.
    unfold hasOwn in Hk0. rewrite (IH Hd Hin) in Hk0. discriminate.
Qed.

(** X14 (helpers.js lines 398-436): a value with no function, no regular
    expression, no empty array and no empty object inside, whose objects
    have no [length] and no repeated key, is [equals] to a copy of itself. *)
Theorem equals_copy (v : value) (Hv : solid v = true) : equals v v = Ret true.
Proof.
  induction v as [| |b|n|s|i|f a|s f|items IH|props IH] using value_tree_ind;
    try reflexivity; try discriminate.
  - cbn [equals equalsWith andb getType typeof negb String.eqb Ascii.eqb Bool.eqb bind strictEq].
    rewrite Bool.eqb_reflx. reflexivity.
  - cbn [equals equalsWith andb getType typeof negb String.eqb Ascii.eqb Bool.eqb bind strictEq].
    rewrite Z.eqb_refl. reflexivity.
  - cbn [equals equalsWith andb getType typeof negb String.eqb Ascii.eqb Bool.eqb bind strictEq].
    rewrite String.eqb_refl. reflexivity.
  - cbn [equals equalsWith andb getType typeof negb String.eqb Ascii.eqb Bool.eqb bind strictEq].
    rewrite Nat.eqb_refl. reflexivity.
  - destruct items as [|x xs]; [discriminate|]. cbn [solid] in Hv.
    rewrite equals_unfold, !getType_arr_cons. cbn [bind].
    change ("arraylike" =? "arraylike") with true. cbn [bind].
    unfold equalsArraylike. cbn [getLength bind strictEq]. rewrite Z.eqb_refl. cbn [negb].
    change (equalsItems equals (VArr (x :: xs)) 0 (x :: xs))
      with (equalsItems equals (VArr (x :: xs)) (length (@nil value)) (x :: xs)).
    apply equalsItems_true. intros j Hj. cbn [length Nat.add].
    rewrite Forall_forall in IH. rewrite forallb_forall in Hv.
    apply IH; [|apply Hv]; apply nth_In; exact Hj.
  - destruct props as [|kv rest]; [discriminate|].
    remember (kv :: rest) as props eqn:Hprops.
    assert (Hv' : negb (hasOwn "length" props) && distinctKeys props &&
                  forallb (fun kv => solid (snd kv)) props = true).
    { subst props. exact Hv. }
    apply andb_true_iff in Hv'. destruct Hv' as [Hv' Hall].
    apply andb_true_iff in Hv'. destruct Hv' as [Hlen Hdist].
    assert (Htype : getType (VObj props) = Ret "objectlike").
    { unfold hasOwn in Hlen. destruct (own "length" props) eqn:E; [discriminate|].
      rewrite (getType_obj_no_length props E). subst props. reflexivity. }
    rewrite (equals_objectlike props props Htype Htype). apply allM_true.
    intros [k v] Hin. cbn [fst snd]. unfold readProp.
    rewrite (own_distinct props k v Hdist Hin).
    rewrite Forall_forall in IH. rewrite forallb_forall in Hall.
    apply (IH (k, v) Hin). apply (Hall (k, v) Hin).
Qed.

Lemma equals_copy_witness :
  equals (VArr [VNum 1; VObj [("hello", VStr "World")]; VNull])
         (VArr [VNum 1; VObj [("hello", VStr "World")]; VNull]) = Ret true.
Proof. apply equals_copy. reflexivity. Defined.

(** * objDeepClone *)

Lemma objDeepClone_unfold typeList keyList valList address (input : value)
    (place valArr : list nat) :
  objDeepClone typeList keyList valList address input place valArr =
  (type <- getType input ;;
   if inStrings typeList type || inValues valList input then Ret (VUndef, valArr)
   else
     if ((type =? "arraylike") || (type =? "objectlike")) && met address valArr place input
     then Ret (if noCircular typeList then VUndef else VStr circularReference, valArr)
     else
       if type =? "null"
       then Ret (VNull,
                 if (type =? "arraylike") || (type =? "objectlike")
                 then valArr ++ [address place] else valArr)
       else if type =? "arraylike" then
         match input with
         | VArr items =>
             arr <- cloneItems typeList valList address
                      (objDeepClone typeList keyList valList address) place 0 items
                      (if (type =? "arraylike") || (type =? "objectlike")
                       then valArr ++ [address place] else valArr) ;;
             Ret (VArr (fst arr), snd arr)
         | VObj props =>
             len <- loopCount input ;;
             arr <- cloneIndices typeList valList address
                      (objDeepClone typeList keyList valList address) place props (seq 0 len)
                      (if (type =? "arraylike") || (type =? "objectlike")
                       then valArr ++ [address place] else valArr) ;;
             Ret (VArr (fst arr), snd arr)
         | _ => Throw Uncovered
         end
       else if type =? "objectlike" then
         match input with
         | VObj props =>
             obj <- cloneProps typeList keyList valList address
                      (objDeepClone typeList keyList valList address) place 0 props
                      (if (type =? "arraylike") || (type =? "objectlike")
                       then valArr ++ [address place] else valArr) ;;
             Ret (VObj (fst obj), snd obj)
         | _ => Throw Uncovered
         end
       else Ret (input,
                 if (type =? "arraylike") || (type =? "objectlike")
                 then valArr ++ [address place] else valArr)).
Proof. destruct input; reflexivity. Qed.

Lemma kept_no_filter (v : value) (t : string) :
  getType v = Ret t -> kept [] [] v = Ret true.
Proof. intros H. unfold kept. rewrite H. reflexivity. Qed.

Lemma admitted_no_filter address (valArr place : list nat) (v : value) (t : string) :
  getType v = Ret t -> admitted [] [] address valArr place v = Ret true.
Proof. intros H. unfold admitted. rewrite (kept_no_filter v t H). reflexivity. Qed.

Lemma hasOwn_false_neq {V} (k : string) (props : list (string * V)) :
  hasOwn k props = false -> forall k' v, In (k', v) props -> k' <> k.
Proof.
  intros H. apply own_none_keys. unfold hasOwn in H.
  destruct (own k props); [discriminate|reflexivity].
Qed.

Lemma not_met address (valArr place : list nat) (rest : list nat) (v : value) :
  NoDup (valArr ++ address place :: rest) -> met address valArr place v = false.
Proof.
  intros H. apply NoDup_remove_2 in H.
  assert (Hex : existsb (Nat.eqb (address place)) valArr = false).
  { apply not_true_is_false. intros Hex. apply existsb_exists in Hex.
    destruct Hex as [a [Ha Heq]]. apply Nat.eqb_eq in Heq. subst a.
    apply H. apply in_or_app. left. exact Ha. }
  destruct v; try reflexivity; exact Hex.
Qed.

Lemma NoDup_app_left {A} (l l' : list A) : NoDup (l ++ l') -> NoDup l.
Proof.
  induction l as [|a l IH]; intros H; [constructor|].
  cbn [app] in H. inversion H as [|x xs Hx Hxs]; subst. constructor.
  - intros Hin. apply Hx. apply in_or_app. left. exact Hin.
  - apply IH. exact Hxs.
Qed.

Section CloneOfTree.
Variable address : list nat -> nat.

Lemma cloneItems_tree (place : list nat) (items : list value) :
  (forall c, In c items ->
     forall pl st, NoDup (st ++ addressesIn address c pl) ->
       objDeepClone [] [] [] address c pl st = Ret (c, st ++ addressesIn address c pl)) ->
  (forall c, In c items -> exists t, getType c = Ret t) ->
  forall i st,
    NoDup (st ++ addressesOfItems (addressesIn address) place i items) ->
    cloneItems [] [] address (objDeepClone [] [] [] address) place i items st =
    Ret (items, st ++ addressesOfItems (addressesIn address) place i items).
Proof.
  induction items as [|c rest IH]; intros Hclone Htype i st Hnd.
  - cbn [cloneItems addressesOfItems]. rewrite app_nil_r. reflexivity.
  - cbn [cloneItems addressesOfItems] in *.
    destruct (Htype c (or_introl eq_refl)) as [t Ht].
    rewrite (admitted_no_filter address _ _ c t Ht). cbn [bind].
    rewrite app_assoc in Hnd.
    rewrite (Hclone c (or_introl eq_refl) _ _ (NoDup_app_left _ _ Hnd)). cbn [bind fst snd].
    rewrite IH.
    + cbn [bind fst snd]. rewrite app_assoc. reflexivity.
    + intros c' Hc'. apply Hclone. right. exact Hc'.
    + intros c' Hc'. apply Htype. right. exact Hc'.
    + exact Hnd.
Qed.

Lemma cloneProps_tree (place : list nat) (props : list (string * value)) :
  (forall k c, In (k, c) props ->
     forall pl st, NoDup (st ++ addressesIn address c pl) ->
       objDeepClone [] [] [] address c pl st = Ret (c, st ++ addressesIn address c pl)) ->
  (forall k c, In (k, c) props -> exists t, getType c = Ret t) ->
  (forall k c, In (k, c) props -> k <> "__proto__") ->
  forall j st,
    NoDup (st ++ addressesOfProps (addressesIn address) place j props) ->
    cloneProps [] [] [] address (objDeepClone [] [] [] address) place j props st =
    Ret (props, st ++ addressesOfProps (addressesIn address) place j props).
Proof.
  induction props as [|[k c] rest IH]; intros Hclone Htype Hkeys j st Hnd.
  - cbn [cloneProps addressesOfProps]. rewrite app_nil_r. reflexivity.
  - cbn [cloneProps addressesOfProps inStrings existsb] in *.
    destruct (Htype k c (or_introl eq_refl)) as [t Ht].
    rewrite (admitted_no_filter address _ _ c t Ht). cbn [bind].
    rewrite app_assoc in Hnd.
    rewrite (Hclone k c (or_introl eq_refl) _ _ (NoDup_app_left _ _ Hnd)). cbn [bind fst snd].
    unfold assignFresh. pose proof (Hkeys k c (or_introl eq_refl)) as Hk.
    apply String.eqb_neq in Hk. rewrite Hk. cbn [bind].
    rewrite IH.
    + cbn [bind fst snd app]. rewrite app_assoc. reflexivity.
    + intros k' c' Hc'. apply (Hclone k' c'). right. exact Hc'.
    + intros k' c' Hc'. apply (Htype k' c'). right. exact Hc'.
    + intros k' c' Hc'. apply (Hkeys k' c'). right. exact Hc'.
    + exact Hnd.
Qed.

(** The clone without filters of a tree in which no object is met twice,
    and the objects it has met. *)
Lemma clone_tree (v : value) :
  lengthFree v = true -> protoFree v = true ->
  forall place valArr,
    NoDup (valArr ++ addressesIn address v place) ->
    objDeepClone [] [] [] address v place valArr =
    Ret (v, valArr ++ addressesIn address v place).
Proof.
  induction v as [| |b|n|s|i|f a|s f|items IH|props IH] using value_tree_ind;
    intros Hlength Hproto place valArr Hnd;
    try (cbn [addressesIn]; rewrite app_nil_r; reflexivity).
  - destruct items as [|x xs]; [cbn [addressesIn]; rewrite app_nil_r; reflexivity|].
    rewrite objDeepClone_unfold, getType_arr_cons. cbn [bind inStrings inValues existsb orb].
    change ("arraylike" =? "null") with false.
    change ("arraylike" =? "arraylike") with true. cbn [orb andb].
    cbn [addressesIn] in Hnd |- *.
    rewrite (not_met address valArr place _ _ Hnd).
    cbn [lengthFree protoFree] in Hlength, Hproto.
    rewrite forallb_forall in Hlength, Hproto. rewrite Forall_forall in IH.
    rewrite (cloneItems_tree place (x :: xs)).
    + cbn [bind fst snd]. rewrite <- app_assoc. reflexivity.
    + intros c Hc. apply (IH c Hc (Hlength c Hc) (Hproto c Hc)).
    + intros c Hc. destruct (lengthFree_getType c (Hlength c Hc)) as [t [Ht _]]. eauto.
    + rewrite <- app_assoc. exact Hnd.
  - cbn [lengthFree protoFree] in Hlength, Hproto.
    apply andb_true_iff in Hlength. destruct Hlength as [Hlen Hlength].
    apply andb_true_iff in Hproto. destruct Hproto as [Hpro Hproto].
    apply negb_true_iff in Hlen, Hpro.
    assert (Hnolen : own "length" props = None).
    { unfold hasOwn in Hlen. destruct (own "length" props); [discriminate|reflexivity]. }
    destruct props as [|kv rest]; [cbn [addressesIn]; rewrite app_nil_r; reflexivity|].
    rewrite objDeepClone_unfold, (getType_obj_no_length _ Hnolen).
    cbn [hasEnumerable bind inStrings inValues existsb orb].
    change ("objectlike" =? "null") with false.
    change ("objectlike" =? "arraylike") with false.
    change ("objectlike" =? "objectlike") with true. cbn [orb andb].
    cbn [addressesIn] in Hnd |- *.
    rewrite (not_met address valArr place _ _ Hnd).
    rewrite forallb_forall in Hlength, Hproto. rewrite Forall_forall in IH.
    rewrite (cloneProps_tree place (kv :: rest)).
    + cbn [bind fst snd]. rewrite <- app_assoc. reflexivity.
    + intros k c Hc. apply (IH (k, c) Hc (Hlength (k, c) Hc) (Hproto (k, c) Hc)).
    + intros k c Hc. destruct (lengthFree_getType c (Hlength (k, c) Hc)) as [t [Ht _]]. eauto.
    + apply (hasOwn_false_neq _ _ Hpro).
    + rewrite <- app_assoc. exact Hnd.
Qed.
End CloneOfTree.

(** X15 (helpers.js lines 111-198): without filters, and called without
    [valArr], the clone of a value in which no object has a [length] or a
    [__proto__] property of its own, and in which no array or object that
    is not empty is met twice (none is shared, none contains itself), is
    the value itself, rebuilt: [objDeepClone(v)] returns a tree equal to
    [v], and has met each of those arrays and objects once. *)
Theorem clone_without_filters (address : list nat -> nat) (v : value)
    (Hlength : lengthFree v = true) (Hproto : protoFree v = true)
    (Honce : NoDup (addressesIn address v [])) :
  objDeepClone [] [] [] address v [] [] = Ret (v, addressesIn address v []).
Proof. apply (clone_tree address v Hlength Hproto [] [] Honce). Qed.

Lemma clone_without_filters_witness :
  objDeepClone [] [] [] (fun place => length place)
    (VObj [("key2", VNum 24); ("list", VArr [VNull; VArr [VStr "a"]; VArr []])]) [] [] =
  Ret (VObj [("key2", VNum 24); ("list", VArr [VNull; VArr [VStr "a"]; VArr []])],
       [0; 1; 2]).
Proof.
  apply (clone_without_filters (fun place => length place)
           (VObj [("key2", VNum 24); ("list", VArr [VNull; VArr [VStr "a"]; VArr []])]));
    [reflexivity|reflexivity|].
  repeat constructor; cbn; intuition discriminate.
Defined.

(** An object met a second time is not cloned again.  The test of
    objDeepCloneTests: [val1 = {k: 2}; val1.s = val1], where the object at
    the place of [s] is the input itself. *)
Example clone_of_self_reference :
  objDeepClone [] [] [] (fun _ => 0)
    (VObj [("k", VNum 2); ("s", VObj [("k", VNum 2); ("s", VUndef)])]) [] [] =
  Ret (VObj [("k", VNum 2); ("s", VStr "<circular-reference>")], [0]) /\
  objDeepClone ["circular-reference"] [] [] (fun _ => 0)
    (VObj [("k", VNum 2); ("s", VObj [("k", VNum 2); ("s", VUndef)])]) [] [] =
  Ret (VObj [("k", VNum 2)], [0]).
Proof. split; reflexivity. Qed.

(** An object shared by two properties, with no cycle, is replaced at the
    second of them as well. *)
Example clone_of_shared_object :
  objDeepClone [] [] [] (fun place => match place with [] => 0 | _ => 1 end)
    (VObj [("a", VObj [("k", VNum 2)]); ("b", VObj [("k", VNum 2)])]) [] [] =
  Ret (VObj [("a", VObj [("k", VNum 2)]); ("b", VStr "<circular-reference>")], [0; 1]).
Proof. reflexivity. Qed.

Lemma children_ind (P : value -> Prop) :
  (forall v, (forall c, In c (children v) -> P c) -> P v) -> forall v, P v.
Proof.
  intros H v.
  induction v as [| |b|n|s|i|f a|s f|items IH|props IH] using value_tree_ind;
    apply H; cbn [children]; try (intros c []).
  - rewrite Forall_forall in IH. exact IH.
  - rewrite Forall_forall in IH. intros c Hc. apply in_map_iff in Hc.
    destruct Hc as [kv [<- Hkv]]. apply (IH kv Hkv).
Qed.

Lemma in_children_prop (props : list (string * value)) (k : string) (v : value) :
  In (k, v) props -> In v (children (VObj props)).
Proof. intros H. cbn [children]. apply in_map_iff. exists (k, v). split; [reflexivity|exact H]. Qed.

Section CloneInversion.
Variable typeList keyList : list string.
Variable valList : list value.
Variable address : list nat -> nat.
Variable clone : value -> list nat -> list nat -> result (value * list nat).

Lemma cloneItems_inv (place : list nat) (items : list value) :
  forall i valArr arr valArr',
    cloneItems typeList valList address clone place i items valArr = Ret (arr, valArr') ->
    forall c, In c arr -> exists val, In val items /\ clonedFrom typeList valList address clone val c.
Proof.
  induction items as [|val rest IH]; intros i valArr arr valArr' H c Hc;
    cbn [cloneItems] in H.
  - injection H as <- _. destruct Hc.
  - destruct (admitted typeList valList address valArr (place ++ [i]) val)
      as [[|]|e] eqn:Hk; cbn [bind] in H; try discriminate.
    + destruct (clone val (place ++ [i]) valArr) as [[c0 s0]|e] eqn:Hc0;
        cbn [bind fst snd] in H; [|discriminate].
      destruct (cloneItems typeList valList address clone place (S i) rest s0)
        as [[cs s1]|e] eqn:Hcs; cbn [bind fst snd] in H; [|discriminate].
      injection H as <- _. destruct Hc as [<-|Hc].
      * exists val. split; [left; reflexivity|]. exists (place ++ [i]), valArr, s0.
        split; assumption.
      * destruct (IH _ _ _ _ Hcs c Hc) as [val' [Hin Hval']].
        exists val'. split; [right; exact Hin|exact Hval'].
    + destruct (IH _ _ _ _ H c Hc) as [val' [Hin Hval']].
      exists val'. split; [right; exact Hin|exact Hval'].
Qed.

Lemma cloneIndices_inv (place : list nat) (props : list (string * value))
    (indices : list nat) :
  forall valArr arr valArr',
    cloneIndices typeList valList address clone place props indices valArr =
      Ret (arr, valArr') ->
    forall c, In c arr ->
      (c = VUndef /\ kept typeList valList VUndef = Ret true) \/
      exists k val, In (k, val) props /\ clonedFrom typeList valList address clone val c.
Proof.
  induction indices as [|i rest IH]; intros valArr arr valArr' H c Hc;
    cbn [cloneIndices] in H.
  - injection H as <- _. destruct Hc.
  - cbv zeta in H. rewrite own_map in H.
    destruct (admitted typeList valList address valArr
                (place ++ [keyPosition (indexKey i) props])
                (orUndefined (own (indexKey i) props))) as [[|]|e] eqn:Hk;
      cbn [bind] in H; try discriminate; [|apply (IH _ _ _ H c Hc)].
    destruct (own (indexKey i) props) as [val|] eqn:Hown; cbn [orUndefined option_map] in *.
    + destruct (clone val (place ++ [keyPosition (indexKey i) props]) valArr)
        as [[c0 s0]|e] eqn:Hc0; cbn [bind fst snd] in H; [|discriminate].
      destruct (cloneIndices typeList valList address clone place props rest s0)
        as [[cs s1]|e] eqn:Hcs; cbn [bind fst snd] in H; [|discriminate].
      injection H as <- _. destruct Hc as [<-|Hc]; [|apply (IH _ _ _ Hcs c Hc)].
      right. destruct (own_In _ _ _ Hown) as [k Hin]. exists k, val.
      split; [exact Hin|]. eexists _, _, _. split; eassumption.
    + cbn [bind fst snd] in H.
      destruct (cloneIndices typeList valList address clone place props rest valArr)
        as [[cs s1]|e] eqn:Hcs; cbn [bind fst snd] in H; [|discriminate].
      injection H as <- _. destruct Hc as [<-|Hc]; [|apply (IH _ _ _ Hcs c Hc)].
      left. split; [reflexivity|]. unfold admitted in Hk.
      destruct (kept typeList valList VUndef) as [[|]|e]; cbn [bind] in Hk;
        [reflexivity|discriminate|discriminate].
Qed.

Lemma cloneProps_inv (place : list nat) (props : list (string * value)) :
  forall j valArr obj valArr',
    cloneProps typeList keyList valList address clone place j props valArr =
      Ret (obj, valArr') ->
    forall k c, In (k, c) obj ->
      inStrings keyList k = false /\
      exists val, In (k, val) props /\ clonedFrom typeList valList address clone val c.
Proof.
  induction props as [|[k0 val] rest IH]; intros j valArr obj valArr' H k c Hc;
    cbn [cloneProps] in H.
  - injection H as <- _. destruct Hc.
  - assert (Hrest : forall j' s obj' s',
              cloneProps typeList keyList valList address clone place j' rest s =
                Ret (obj', s') ->
              In (k, c) obj' ->
              inStrings keyList k = false /\
              exists val', In (k, val') ((k0, val) :: rest) /\
                           clonedFrom typeList valList address clone val' c).
    { intros j' s obj' s' H' Hc'. destruct (IH _ _ _ _ H' k c Hc') as [Hk [val' [Hin Hval']]].
      split; [exact Hk|]. exists val'. split; [right; exact Hin|exact Hval']. }
    destruct (inStrings keyList k0) eqn:Hk0; [apply (Hrest _ _ _ _ H Hc)|].
    destruct (admitted typeList valList address valArr (place ++ [j]) val)
      as [[|]|e] eqn:Hk; cbn [bind] in H; try discriminate; [|apply (Hrest _ _ _ _ H Hc)].
    destruct (clone val (place ++ [j]) valArr) as [[c0 s0]|e] eqn:Hc0;
      cbn [bind fst snd] in H; [|discriminate].
    destruct (assignFresh k0 c0) as [entry|e] eqn:Hentry; cbn [bind] in H; [|discriminate].
    destruct (cloneProps typeList keyList valList address clone place (S j) rest s0)
      as [[entries s1]|e] eqn:Hentries; cbn [bind fst snd] in H; [|discriminate].
    injection H as <- _. apply in_app_or in Hc. destruct Hc as [Hc|Hc];
      [|apply (Hrest _ _ _ _ Hentries Hc)].
    unfold assignFresh in Hentry.
    destruct (k0 =? "__proto__"); [destruct (isPrototype c0); [discriminate|]|];
      injection Hentry as <-; [destruct Hc|].
    destruct Hc as [Heq|[]]. injection Heq as <- <-.
    split; [exact Hk0|]. exists val. split; [left; reflexivity|].
    exists (place ++ [j]), valArr, s0. split; assumption.
Qed.
End CloneInversion.

(** What a clone can be: [undefined], [null], the string that stands for an
    object met before, the input itself when it has nothing inside, an
    array of clones of admitted elements, or an object of clones of
    admitted property values under keys that are not filtered. *)
Lemma clone_shape typeList keyList valList address (input out : value)
    (place valArr valArr' : list nat) :
  objDeepClone typeList keyList valList address input place valArr = Ret (out, valArr') ->
  out = VUndef \/ out = VNull \/
  (out = VStr circularReference /\ noCircular typeList = false) \/
  (out = input /\ children input = []) \/
  (exists arr, out = VArr arr /\
     forall c, In c arr ->
       exists val, (In val (children input) \/ val = VUndef) /\
         clonedFrom typeList valList address
           (objDeepClone typeList keyList valList address) val c) \/
  (exists obj, out = VObj obj /\
     forall k c, In (k, c) obj ->
       inStrings keyList k = false /\
       exists val, In val (children input) /\
         clonedFrom typeList valList address
           (objDeepClone typeList keyList valList address) val c).
Proof.
  intros H. rewrite objDeepClone_unfold in H.
  destruct (getType input) as [t|e] eqn:Ht; cbn [bind] in H; [|discriminate].
  destruct (inStrings typeList t || inValues valList input); [left; congruence|].
  destruct (((t =? "arraylike") || (t =? "objectlike")) && met address valArr place input).
  { destruct (noCircular typeList); injection H as <- _;
      [left; reflexivity|right; right; left; split; reflexivity]. }
  destruct (t =? "null"); [right; left; congruence|].
  destruct (t =? "arraylike") eqn:Ea; [|destruct (t =? "objectlike") eqn:Eo].
  - right. right. right. right. left. cbn [orb] in H. destruct input; try discriminate.
    + destruct (cloneItems _ _ _ _ _ _ items _) as [[arr s]|e] eqn:Harr;
        cbn [bind fst snd] in H; [|discriminate].
      injection H as <- _. exists arr. split; [reflexivity|]. intros c Hc.
      destruct (cloneItems_inv _ _ _ _ _ _ _ _ _ _ Harr c Hc) as [val [Hin Hval]].
      exists val. split; [left; exact Hin|exact Hval].
    + destruct (loopCount (VObj props)) as [len|e]; cbn [bind] in H; [|discriminate].
      destruct (cloneIndices _ _ _ _ _ _ _ _) as [[arr s]|e] eqn:Harr;
        cbn [bind fst snd] in H; [|discriminate].
      injection H as <- _. exists arr. split; [reflexivity|]. intros c Hc.
      destruct (cloneIndices_inv _ _ _ _ _ _ _ _ _ _ Harr c Hc)
        as [[-> Hk]|[k [val [Hin Hval]]]].
      * exists VUndef. split; [right; reflexivity|].
        exists [], [], []. split.
        -- unfold admitted. rewrite Hk. cbn [bind met]. rewrite andb_false_r. reflexivity.
        -- rewrite objDeepClone_unfold. unfold kept in Hk.
           cbn [getType typeof negb String.eqb Ascii.eqb Bool.eqb bind] in *.
           destruct (inStrings typeList "undefined"); [discriminate|].
           destruct (inValues valList VUndef); [discriminate|]. reflexivity.
      * exists val. split; [left; apply (in_children_prop _ k); exact Hin|exact Hval].
  - right. right. right. right. right. cbn [orb] in H. destruct input; try discriminate.
    destruct (cloneProps _ _ _ _ _ _ _ props _) as [[obj s]|e] eqn:Hobj;
      cbn [bind fst snd] in H; [|discriminate].
    injection H as <- _. exists obj. split; [reflexivity|]. intros k c Hc.
    destruct (cloneProps_inv _ _ _ _ _ _ _ _ _ _ _ Hobj k c Hc) as [Hk [val [Hin Hval]]].
    split; [exact Hk|]. exists val. split; [apply (in_children_prop _ k); exact Hin|exact Hval].
  - right. right. right. left. split; [congruence|].
    destruct input as [| |b|n|s|i|f a|s f|items|props]; try reflexivity.
    + destruct items; [reflexivity|]. rewrite getType_arr_cons in Ht.
      injection Ht as <-. discriminate.
    + destruct (getType_obj_tags props t Ht) as [->|[[-> _]|[_ ->]]];
        [discriminate|discriminate|reflexivity].
Qed.

Lemma childless_hasKeyIn keys (v : value) : children v = [] -> hasKeyIn keys v = false.
Proof. destruct v as [| |b|n|s|i|f a|s f|items|props]; try reflexivity;
         cbn [children]; [intros ->|destruct props; [|discriminate]]; reflexivity. Qed.

Lemma clone_of_undefined typeList keyList valList address (place valArr valArr' : list nat)
    (c : value) :
  objDeepClone typeList keyList valList address VUndef place valArr = Ret (c, valArr') ->
  c = VUndef.
Proof.
  intros Hc. rewrite objDeepClone_unfold in Hc.
  cbn [getType typeof negb String.eqb Ascii.eqb Bool.eqb bind orb andb] in Hc.
  destruct (_ || _); injection Hc as <- _; reflexivity.
Qed.

(** X16 (helpers.js lines 163-168): whatever the filters, whatever objects
    the input shares and whatever [valArr] holds at the call, no object of
    a clone has a key listed in [keyList], at any depth. *)
Theorem clone_drops_keys (typeList keyList : list string) (valList : list value)
    (address : list nat -> nat) (input out : value) (place valArr valArr' : list nat)
    (Hclone : objDeepClone typeList keyList valList address input place valArr =
              Ret (out, valArr')) :
  hasKeyIn keyList out = false.
Proof.
  revert out place valArr valArr' Hclone.
  induction input as [input IH] using children_ind. intros out place valArr valArr' H.
  destruct (clone_shape _ _ _ _ _ _ _ _ _ H)
    as [->|[->|[[-> _]|[[-> Hleaf]|[[arr [-> Harr]]|[obj [-> Hobj]]]]]]]; try reflexivity.
  - apply childless_hasKeyIn. exact Hleaf.
  - cbn [hasKeyIn]. apply not_true_is_false. intros Hex.
    apply existsb_exists in Hex. destruct Hex as [c [Hc Hkey]].
    destruct (Harr c Hc) as [val [[Hval| ->] [pl [s [s' [_ Hcl]]]]]].
    + rewrite (IH val Hval c pl s s' Hcl) in Hkey. discriminate.
    + rewrite (clone_of_undefined _ _ _ _ _ _ _ _ Hcl) in Hkey. discriminate.
  - cbn [hasKeyIn]. apply not_true_is_false. intros Hex.
    apply existsb_exists in Hex. destruct Hex as [[k c] [Hc Hkey]]. cbn [fst snd] in Hkey.
    destruct (Hobj k c Hc) as [Hk [val [Hval [pl [s [s' [_ Hcl]]]]]]].
    rewrite Hk, (IH val Hval c pl s s' Hcl) in Hkey. discriminate.
Qed.

Lemma clone_drops_keys_witness :
  hasKeyIn ["b"] (VObj [("a", VObj [])]) = false.
Proof.
  apply (clone_drops_keys [] ["b"] [] (fun place => length place)
           (VObj [("a", VObj [("b", VObj [])]); ("b", VNum 1)])
           (VObj [("a", VObj [])]) [] [] [0; 1]).
  reflexivity.
Defined.

Lemma getType_null_inv (v : value) : getType v = Ret "null" -> v = VNull.
Proof.
  destruct v as [| |b|n|s|i|f a|s f|items|props]; try discriminate; try reflexivity.
  - destruct items; [discriminate|]. rewrite getType_arr_cons. discriminate.
  - intros H. destruct (getType_obj_tags props _ H) as [H'|[[H' _]|[H' _]]]; discriminate.
Qed.

Lemma inValues_container vals (c : value) :
  (exists items, c = VArr items) \/ (exists props, c = VObj props) ->
  inValues vals c = false.
Proof.
  intros H. unfold inValues. apply not_true_is_false. intros Hex.
  apply existsb_exists in Hex. destruct Hex as [x [_ Hx]].
  destruct H as [[items ->]|[props ->]]; discriminate.
Qed.

Lemma clone_admitted_not_listed typeList keyList valList address (val c : value) :
  noCircular typeList = true \/ inValues valList (VStr circularReference) = false ->
  clonedFrom typeList valList address (objDeepClone typeList keyList valList address) val c ->
  inValues valList c = false.
Proof.
  intros Hplaceholder [place [valArr [valArr' [Hk H]]]].
  unfold admitted, kept in Hk. rewrite objDeepClone_unfold in H.
  destruct (getType val) as [t|e] eqn:Ht; cbn [bind] in *; [|discriminate].
  destruct (negb (inStrings typeList t) && negb (inValues valList val)) eqn:Hkept;
    [|discriminate].
  injection Hk as Hvalid. apply negb_true_iff in Hvalid.
  apply andb_true_iff in Hkept. destruct Hkept as [Hk1 Hk2].
  apply negb_true_iff in Hk1, Hk2. rewrite Hk1, Hk2 in H. cbn [orb] in H.
  destruct (((t =? "arraylike") || (t =? "objectlike")) && met address valArr place val)
    eqn:Hmet.
  { apply andb_true_iff in Hmet. destruct Hmet as [_ Hmet]. rewrite Hmet in Hvalid.
    rewrite andb_true_r in Hvalid. rewrite Hvalid in H. injection H as <- _.
    destruct Hplaceholder as [Hnc|Hp]; [congruence|exact Hp]. }
  destruct (t =? "null") eqn:En.
  - apply String.eqb_eq in En. subst t. apply getType_null_inv in Ht. subst val.
    injection H as <- _. exact Hk2.
  - destruct (t =? "arraylike"); [|destruct (t =? "objectlike")].
    + apply inValues_container. left.
      destruct val; try discriminate.
      * destruct (cloneItems _ _ _ _ _ _ _ _) as [[arr s]|]; cbn [bind fst snd] in H;
          [|discriminate].
        injection H as <- _. eauto.
      * destruct (loopCount _); cbn [bind] in H; [|discriminate].
        destruct (cloneIndices _ _ _ _ _ _ _ _) as [[arr s]|]; cbn [bind fst snd] in H;
          [|discriminate].
        injection H as <- _. eauto.
    + apply inValues_container. right.
      destruct val; try discriminate.
      destruct (cloneProps _ _ _ _ _ _ _ _ _) as [[obj s]|]; cbn [bind fst snd] in H;
        [|discriminate].
      injection H as <- _. eauto.
    + injection H as <- _. exact Hk2.
Qed.

Lemma childless_holdsValueIn vals (v : value) :
  children v = [] -> holdsValueIn vals v = false.
Proof. destruct v as [| |b|n|s|i|f a|s f|items|props]; try reflexivity;
         cbn [children]; [intros ->|destruct props; [|discriminate]]; reflexivity. Qed.

(** X17 (helpers.js lines 125-137, 144-156 and 179-191): unless [valList]
    lists the string that [objDeepClone] itself puts in the place of an
    object met before (and [typeList] does not ask to drop such objects),
    no element and no property value of a clone, at any depth, is [===] to
    a member of [valList], whatever the filters, whatever objects the
    input shares and whatever [valArr] holds at the call. *)
Theorem clone_drops_values (typeList keyList : list string) (valList : list value)
    (address : list nat -> nat) (input out : value) (place valArr valArr' : list nat)
    (Hplaceholder : noCircular typeList = true \/
                    inValues valList (VStr circularReference) = false)
    (Hclone : objDeepClone typeList keyList valList address input place valArr =
              Ret (out, valArr')) :
  holdsValueIn valList out = false.
Proof.
  revert out place valArr valArr' Hclone.
  induction input as [input IH] using children_ind. intros out place valArr valArr' H.
  destruct (clone_shape _ _ _ _ _ _ _ _ _ H)
    as [->|[->|[[-> _]|[[-> Hleaf]|[[arr [-> Harr]]|[obj [-> Hobj]]]]]]]; try reflexivity.
  - apply childless_holdsValueIn. exact Hleaf.
  - cbn [holdsValueIn]. apply not_true_is_false. intros Hex.
    apply existsb_exists in Hex. destruct Hex as [c [Hc Hval]].
    destruct (Harr c Hc) as [val [Hin Hfrom]].
    rewrite (clone_admitted_not_listed _ _ _ _ _ _ Hplaceholder Hfrom) in Hval.
    cbn [orb] in Hval. destruct Hfrom as [pl [s [s' [_ Hcl]]]].
    destruct Hin as [Hin| ->].
    + rewrite (IH val Hin c pl s s' Hcl) in Hval. discriminate.
    + rewrite (clone_of_undefined _ _ _ _ _ _ _ _ Hcl) in Hval. discriminate.
  - cbn [holdsValueIn]. apply not_true_is_false. intros Hex.
    apply existsb_exists in Hex. destruct Hex as [[k c] [Hc Hval]]. cbn [snd] in Hval.
    destruct (Hobj k c Hc) as [_ [val [Hin Hfrom]]].
    rewrite (clone_admitted_not_listed _ _ _ _ _ _ Hplaceholder Hfrom) in Hval.
    destruct Hfrom as [pl [s [s' [_ Hcl]]]].
    rewrite (IH val Hin c pl s s' Hcl) in Hval. discriminate.
Qed.

Lemma clone_drops_values_witness :
  holdsValueIn [VNull] (VObj [("hello", VStr "world")]) = false.
Proof.
  apply (clone_drops_values ["function"; "Array"] [] [VNull] (fun place => length place)
           (VObj [("key1", VFun "f" 0); ("key2", VNull);
                  ("hello", VStr "world"); ("list", VArr [])])
           (VObj [("hello", VStr "world")]) [] [] [0]).
  - right. reflexivity.
  - reflexivity.
Defined.

(** The one value of [valList] that a clone can hold: the string put in
    the place of an object met before. *)
Example clone_holds_listed_placeholder :
  objDeepClone [] [] [VStr "<circular-reference>"]
    (fun place => match place with [] => 0 | _ => 1 end)
    (VObj [("a", VObj [("k", VNum 2)]); ("b", VObj [("k", VNum 2)])]) [] [] =
  Ret (VObj [("a", VObj [("k", VNum 2)]); ("b", VStr "<circular-reference>")], [0; 1]).
Proof. reflexivity. Qed.

(** The filter on types looks at a value before its members are filtered:
    an object emptied by the filter stays, although its type is now
    listed. *)
Example clone_keeps_emptied_object :
  objDeepClone ["Object"] [] [] (fun place => length place)
    (VObj [("a", VObj [("b", VObj [])])]) [] [] =
  Ret (VObj [("a", VObj [])], [0; 1]) /\
  getType (VObj []) = Ret "Object".
Proof. split; reflexivity. Qed.

(** An object with a [length] and a last index is cloned as an array. *)
Example clone_of_sequence_like_object :
  objDeepClone [] [] [] (fun place => length place)
    (VObj [("0", VStr "a"); ("1", VStr "b"); ("length", VNum 2)]) [] [] =
  Ret (VArr [VStr "a"; VStr "b"], [0]).
Proof. reflexivity. Qed.

(** * recursiveRemoveKey *)

Lemma removeFromArray_name (key : string) (items : list value) :
  isName key -> removeFromArray key items = Ret tt.
Proof.
  intros [Hlen Hidx]. unfold removeFromArray.
  apply String.eqb_neq in Hlen. rewrite Hlen.
  destruct (existsb _ _) eqn:E; [|reflexivity].
  apply existsb_exists in E. destruct E as [i [_ Hi]].
  apply andb_true_iff in Hi. destruct Hi as [Hi _].
  apply String.eqb_eq in Hi. destruct (Hidx i Hi).
Qed.

Lemma recursiveRemoveKey_obj (key : string) (props : list (string * value)) :
  own "length" props = None ->
  recursiveRemoveKey key (VObj props) =
  (props' <- removeInProps (recursiveRemoveKey key)
               (fun k => negb (isNullish (readProp props key)) && String.eqb k key)
               (fun _ => true) props ;;
   Ret (VObj props')).
Proof.
  intros Hlen. cbn [recursiveRemoveKey]. rewrite (getType_obj_no_length props Hlen).
  destruct props as [|kv rest]; [|reflexivity].
  cbn [hasEnumerable bind]. unfold removeFromObject. cbn [deleteProp removeInProps bind].
  destruct (negb _); reflexivity.
Qed.

Lemma lengthFree_props (props : list (string * value)) :
  lengthFree (VObj props) = true ->
  own "length" props = None /\ forall k v, In (k, v) props -> lengthFree v = true.
Proof.
  cbn [lengthFree]. intros H. apply andb_true_iff in H. destruct H as [Hl H]. split.
  - unfold hasOwn in Hl. destruct (own "length" props); [discriminate|reflexivity].
  - rewrite forallb_forall in H. intros k v Hin. apply (H (k, v) Hin).
Qed.

Lemma mapM_id {A} (f : A -> result A) (l : list A) :
  (forall a, In a l -> f a = Ret a) -> mapM f l = Ret l.
Proof.
  intros H. rewrite (mapM_pure f (fun a => a) l H), map_id. reflexivity.
Qed.

Lemma indexKey_starts_with_digit (i : nat) :
  exists c s, indexKey i = String c s /\ isDigit c = true.
Proof.
  unfold indexKey. destruct (Nat.to_uint i); cbn; eexists; eexists; split; reflexivity.
Qed.

(** A key that does not start with a digit, other than [length], is a name. *)
Lemma isName_intro (c : ascii) (s : string) :
  isDigit c = false -> String c s <> "length" -> isName (String c s).
Proof.
  intros Hc Hlen. split; [exact Hlen|]. intros i Hi.
  destruct (indexKey_starts_with_digit i) as [d [s' [Hd Hdig]]].
  rewrite Hd in Hi. injection Hi as -> _. congruence.
Qed.

(** X18 (helpers.js lines 335-360): on a tree in which no object has a
    [length] of its own, removing a key that occurs nowhere in it, and
    that is neither [length] nor an index, leaves the tree as it is. *)
Theorem remove_absent_key (key : string) (input : value)
    (Hname : isName key)
    (Hlength : lengthFree input = true)
    (Habsent : hasKeyIn [key] input = false) :
  recursiveRemoveKey key input = Ret input.
Proof.
  induction input as [| |b|n|s|i|f a|s f|items IH|props IH] using value_tree_ind;
    try reflexivity.
  - cbn [recursiveRemoveKey]. rewrite (removeFromArray_name key items Hname).
    destruct items as [|x xs]; [reflexivity|].
    rewrite getType_arr_cons. cbn [bind].
    change ("arraylike" =? "arraylike") with true. cbv iota.
    rewrite mapM_id; [reflexivity|].
    cbn [lengthFree hasKeyIn] in Hlength, Habsent.
    rewrite forallb_forall in Hlength. rewrite Forall_forall in IH.
    intros c Hc. apply (IH c Hc (Hlength c Hc)).
    apply not_true_is_false. intros Hk.
    assert (Hex : existsb (hasKeyIn [key]) (x :: xs) = true)
      by (apply existsb_exists; exists c; split; assumption).
    congruence.
  - destruct (lengthFree_props props Hlength) as [Hlen Hchildren].
    rewrite (recursiveRemoveKey_obj key props Hlen).
    assert (H : forall dropped,
               (forall k v, In (k, v) props -> dropped k = false) ->
               removeInProps (recursiveRemoveKey key) dropped (fun _ => true) props = Ret props).
    { intros dropped Hd. cbn [hasKeyIn] in Habsent. rewrite Forall_forall in IH.
      revert IH Hchildren Habsent Hd. clear. intros IH Hchildren Habsent Hd.
      induction props as [|[k v] rest IHr]; [reflexivity|].
      cbn [removeInProps]. rewrite (Hd k v (or_introl eq_refl)).
      cbn [existsb fst snd] in Habsent. apply orb_false_iff in Habsent.
      destruct Habsent as [Hkv Hrest]. apply orb_false_iff in Hkv. destruct Hkv as [_ Hv].
      pose proof (IH (k, v) (or_introl eq_refl)) as Hrec. cbn [snd] in Hrec.
      rewrite (Hrec (Hchildren k v (or_introl eq_refl)) Hv). cbn [bind].
      rewrite IHr; [reflexivity| | | |].
      - intros kv Hkv. apply IH. right. exact Hkv.
      - intros k' v' Hin. apply (Hchildren k' v'). right. exact Hin.
      - exact Hrest.
      - intros k' v' Hin. apply (Hd k' v'). right. exact Hin. }
    rewrite H; [reflexivity|].
    intros k v Hin. apply andb_false_iff. right. apply String.eqb_neq. intros ->.
    cbn [hasKeyIn] in Habsent.
    assert (Hex : existsb (fun kv => inStrings [key] (fst kv) || hasKeyIn [key] (snd kv)) props
                  = true).
    { apply existsb_exists. exists (key, v). split; [exact Hin|].
      cbn [fst inStrings existsb]. rewrite String.eqb_refl. reflexivity. }
    congruence.
Qed.


Lemma remove_absent_key_witness :
  recursiveRemoveKey "id" (VObj [("a", VArr [VObj [("x", VNull)]; VNum 3])]) =
  Ret (VObj [("a", VArr [VObj [("x", VNull)]; VNum 3])]).
Proof.
  apply remove_absent_key; [|reflexivity|reflexivity].
  apply isName_intro; [reflexivity|discriminate].
Defined.

Lemma own_In_key {V} (k : string) (props : list (string * V)) (v : V) :
  own k props = Some v -> In (k, v) props.
Proof.
  induction props as [|[k0 v0] props IH]; cbn [own]; [discriminate|].
  destruct (String.eqb k0 k) eqn:E.
  - apply String.eqb_eq in E. subst k0. intros H. injection H as ->. left. reflexivity.
  - intros H. right. apply IH. exact H.
Qed.

Lemma mapM_all {A B} (f : A -> result B) (Q : B -> Prop) (l : list A) :
  (forall a, In a l -> exists b, f a = Ret b /\ Q b) ->
  exists bs, mapM f l = Ret bs /\ forall b, In b bs -> Q b.
Proof.
  intros H. destruct (mapM_total f l) as [bs Hbs].
  { intros a Ha. destruct (H a Ha) as [b [Hb _]]. eauto. }
  exists bs. split; [exact Hbs|]. intros b Hb.
  destruct (mapM_In_inv _ _ _ _ Hbs Hb) as [a [Ha Hfa]].
  destruct (H a Ha) as [b' [Hb' HQ]]. congruence.
Qed.

Section RemoveInProps.
Variable remove : value -> result value.
Variable dropped : string -> bool.

Lemma removeInProps_all (Q : value -> Prop) (props : list (string * value)) :
  (forall k v, In (k, v) props -> exists v', remove v = Ret v' /\ Q v') ->
  exists props', removeInProps remove dropped (fun _ => true) props = Ret props' /\
    (forall k v', In (k, v') props' -> dropped k = false /\ Q v').
Proof.
  induction props as [|[k v] rest IH]; intros H; cbn [removeInProps].
  - exists []. split; [reflexivity|]. intros k v' [].
  - destruct IH as [rest' [Hrest Hall]];
      [intros k' v' Hin; apply (H k' v'); right; exact Hin|].
    rewrite Hrest. destruct (dropped k) eqn:Hd.
    + exists rest'. split; [reflexivity|exact Hall].
    + destruct (H k v (or_introl eq_refl)) as [v' [Hv' HQ]]. rewrite Hv'. cbn [bind].
      exists ((k, v') :: rest'). split; [reflexivity|].
      intros k' v'' [Heq|Hin]; [injection Heq as <- <-; split; assumption|].
      apply (Hall k' v'' Hin).
Qed.

Lemma removeInProps_own (props props' : list (string * value)) (k : string) :
  removeInProps remove dropped (fun _ => true) props = Ret props' ->
  dropped k = false ->
  match own k props with
  | None => own k props' = None
  | Some v => exists v', own k props' = Some v' /\ remove v = Ret v'
  end.
Proof.
  revert props'. induction props as [|[k0 v0] rest IH]; intros props' H Hk;
    cbn [removeInProps] in H.
  - injection H as <-. reflexivity.
  - cbn [own]. destruct (dropped k0) eqn:Hd.
    + destruct (String.eqb k0 k) eqn:E; [|apply (IH props' H Hk)].
      apply String.eqb_eq in E. congruence.
    + destruct (remove v0) as [v0'|e] eqn:Hv0; cbn [bind] in H; [|discriminate].
      destruct (removeInProps remove dropped (fun _ => true) rest) as [rest'|e] eqn:Hrest;
        cbn [bind] in H; [|discriminate].
      injection H as <-. cbn [own]. destruct (String.eqb k0 k).
      * exists v0'. split; [reflexivity|exact Hv0].
      * apply (IH rest' eq_refl Hk).
Qed.
End RemoveInProps.

Lemma recursiveRemoveKey_nullish (key : string) (v : value) :
  isNullish v = true -> recursiveRemoveKey key v = Ret v.
Proof. destruct v; try discriminate; reflexivity. Qed.

(** After the call no object of the tree holds under [key] anything but
    [null] or [undefined]. *)
Lemma remove_key_none_left (key : string) (input : value)
    (Hname : isName key)
    (Hlength : lengthFree input = true) :
  exists out, recursiveRemoveKey key input = Ret out /\ holdsKey key out = false.
Proof.
  induction input as [| |b|n|s|i|f a|s f|items IH|props IH] using value_tree_ind;
    try (eexists; split; reflexivity).
  - cbn [recursiveRemoveKey]. rewrite (removeFromArray_name key items Hname).
    destruct items as [|x xs]; [eexists; split; reflexivity|].
    rewrite getType_arr_cons. cbn [bind].
    change ("arraylike" =? "arraylike") with true. cbv iota.
    cbn [lengthFree] in Hlength. rewrite forallb_forall in Hlength.
    rewrite Forall_forall in IH.
    destruct (mapM_all (recursiveRemoveKey key) (fun c => holdsKey key c = false) (x :: xs))
      as [items' [Hitems Hall]].
    { intros c Hc. apply (IH c Hc (Hlength c Hc)). }
    rewrite Hitems. eexists. split; [reflexivity|].
    cbn [holdsKey]. apply not_true_is_false. intros Hex.
    apply existsb_exists in Hex. destruct Hex as [c [Hc Hk]].
    rewrite (Hall c Hc) in Hk. discriminate.
  - destruct (lengthFree_props props Hlength) as [Hlen Hchildren].
    rewrite (recursiveRemoveKey_obj key props Hlen).
    remember (fun k => negb (isNullish (readProp props key)) && String.eqb k key)
      as dropped eqn:Hdropped.
    rewrite Forall_forall in IH.
    destruct (removeInProps_all (recursiveRemoveKey key) dropped
                (fun c => holdsKey key c = false) props) as [props' [Hprops Hall]].
    { intros k v Hin. apply (IH (k, v) Hin (Hchildren k v Hin)). }
    rewrite Hprops. eexists. split; [reflexivity|].
    cbn [holdsKey]. apply orb_false_iff. split.
    + apply negb_false_iff.
      destruct (isNullish (readProp props key)) eqn:Hnull.
      * assert (Hd : dropped key = false) by (subst dropped; reflexivity).
        pose proof (removeInProps_own _ _ _ _ key Hprops Hd) as Hown.
        unfold readProp in Hnull. destruct (own key props) as [v|] eqn:E.
        -- destruct Hown as [v' [Hv' Hrem]].
           rewrite (recursiveRemoveKey_nullish key v Hnull) in Hrem.
           injection Hrem as <-. rewrite Hv'. exact Hnull.
        -- rewrite Hown. reflexivity.
      * destruct (own key props') as [v'|] eqn:E; [|reflexivity].
        apply own_In_key in E. destruct (Hall key v' E) as [Hd _].
        subst dropped. cbn [negb andb] in Hd. rewrite String.eqb_refl in Hd. discriminate.
    + apply not_true_is_false. intros Hex.
      apply existsb_exists in Hex. destruct Hex as [[k c] [Hc Hk]]. cbn [snd] in Hk.
      destruct (Hall k c Hc) as [_ Hfalse]. rewrite Hfalse in Hk. discriminate.
Qed.

Lemma removeInProps_filter (key : string) (dropped : string -> bool)
    (props : list (string * value)) :
  (forall k v, In (k, v) props ->
     dropped k = negb (negb (k =? key) || isNullish v) /\
     recursiveRemoveKey key v = Ret (withoutKey key v)) ->
  removeInProps (recursiveRemoveKey key) dropped (fun _ => true) props =
  Ret (flat_map (fun kv => if negb (fst kv =? key) || isNullish (snd kv)
                           then [(fst kv, withoutKey key (snd kv))]
                           else []) props).
Proof.
  induction props as [|[k v] rest IH]; intros H; [reflexivity|].
  cbn [removeInProps flat_map fst snd].
  destruct (H k v (or_introl eq_refl)) as [Hd Hv]. rewrite Hd.
  rewrite IH; [|intros k' v' Hin; apply (H k' v'); right; exact Hin].
  destruct (negb (k =? key) || isNullish v); cbn [negb app].
  - rewrite Hv. reflexivity.
  - reflexivity.
Qed.

(** What the call leaves of a tree: the tree without the properties of
    that key whose value is something other than [null] and [undefined]. *)
Lemma remove_key_result (key : string) (input : value) :
  isName key -> lengthFree input = true -> distinctKeysIn input = true ->
  recursiveRemoveKey key input = Ret (withoutKey key input).
Proof.
  intros Hname.
  induction input as [| |b|n|s|i|f a|s f|items IH|props IH] using value_tree_ind;
    intros Hlength Hkeys; try reflexivity.
  - cbn [recursiveRemoveKey]. rewrite (removeFromArray_name key items Hname).
    destruct items as [|x xs]; [reflexivity|].
    rewrite getType_arr_cons. cbn [bind].
    change ("arraylike" =? "arraylike") with true. cbv iota.
    cbn [lengthFree distinctKeysIn] in Hlength, Hkeys.
    rewrite forallb_forall in Hlength, Hkeys. rewrite Forall_forall in IH.
    rewrite (mapM_pure _ (withoutKey key)); [reflexivity|].
    intros c Hc. apply (IH c Hc (Hlength c Hc) (Hkeys c Hc)).
  - destruct (lengthFree_props props Hlength) as [Hlen Hchildren].
    rewrite (recursiveRemoveKey_obj key props Hlen).
    cbn [distinctKeysIn] in Hkeys. apply andb_true_iff in Hkeys.
    destruct Hkeys as [Hdist Hkeys]. rewrite forallb_forall in Hkeys.
    rewrite Forall_forall in IH.
    rewrite (removeInProps_filter key); [reflexivity|].
    intros k v Hin. split.
    + destruct (k =? key) eqn:E; cbn [negb orb].
      * apply String.eqb_eq in E. subst k. unfold readProp.
        rewrite (own_distinct props key v Hdist Hin). rewrite andb_true_r. reflexivity.
      * rewrite andb_false_r. reflexivity.
    + apply (IH (k, v) Hin (Hchildren k v Hin) (Hkeys (k, v) Hin)).
Qed.

(** X19 (helpers.js lines 335-360): on a tree in which no object has a
    [length] of its own or a repeated key, removing a key that is neither
    [length] nor an index returns, and what it leaves is the tree without
    the properties of that key whose value is something other than [null]
    and [undefined]: these are deleted in every object, at any depth; a
    property of that key whose value is [null] or [undefined] is kept, and
    so is every other property and every element, in its place.
    Afterwards no object of the tree holds under the key anything but
    [null] or [undefined]. *)
Theorem remove_key_everywhere (key : string) (input : value)
    (Hname : isName key)
    (Hlength : lengthFree input = true)
    (Hkeys : distinctKeysIn input = true) :
  recursiveRemoveKey key input = Ret (withoutKey key input) /\
  holdsKey key (withoutKey key input) = false.
Proof.
  pose proof (remove_key_result key input Hname Hlength Hkeys) as Hout.
  split; [exact Hout|].
  destruct (remove_key_none_left key input Hname Hlength) as [out [Hrun Hnone]].
  rewrite Hout in Hrun. injection Hrun as <-. exact Hnone.
Qed.

Lemma remove_key_everywhere_witness :
  recursiveRemoveKey "id"
    (VObj [("id", VNum 1);
           ("a", VArr [VObj [("id", VNum 2); ("x", VNull)]; VNum 3]);
           ("b", VObj [("id", VNull)])]) =
  Ret (VObj [("a", VArr [VObj [("x", VNull)]; VNum 3]);
             ("b", VObj [("id", VNull)])]) /\
  holdsKey "id"
    (VObj [("a", VArr [VObj [("x", VNull)]; VNum 3]);
           ("b", VObj [("id", VNull)])]) = false.
Proof.
  apply (remove_key_everywhere "id"
           (VObj [("id", VNum 1);
                  ("a", VArr [VObj [("id", VNum 2); ("x", VNull)]; VNum 3]);
                  ("b", VObj [("id", VNull)])])); [|reflexivity|reflexivity].
  apply isName_intro; [reflexivity|discriminate].
Defined.

(** A key whose value is [null] stays; on an array, the keys [length] and
    the index of an element are beyond what is embedded. *)
Example remove_key_edges :
  recursiveRemoveKey "id" (VObj [("id", VNull); ("x", VNum 1)]) =
    Ret (VObj [("id", VNull); ("x", VNum 1)]) /\
  recursiveRemoveKey "length" (VArr [VNum 3]) = Throw Uncovered /\
  recursiveRemoveKey "0" (VArr [VNum 3]) = Throw Uncovered.
Proof. repeat split. Qed.

(** * Writing properties, revObj and arr2enum *)

Lemma own_app {V} (k : string) (ps qs : list (string * V)) :
  own k (ps ++ qs) = match own k ps with Some v => Some v | None => own k qs end.
Proof.
  induction ps as [|[k0 v0] ps IH]; cbn [app own]; [reflexivity|].
  destruct (String.eqb k0 k); [reflexivity|exact IH].
Qed.

Lemma own_setProp (k k' : string) (w : value) (props : list (string * value)) :
  own k' (setProp k w props) = if String.eqb k k' then Some w else own k' props.
Proof.
  destruct (String.eqb k k') eqn:E.
  - apply String.eqb_eq in E. subst k'.
    induction props as [|[k0 v0] props IH]; cbn [setProp own].
    + rewrite String.eqb_refl. reflexivity.
    + destruct (String.eqb k0 k) eqn:E0; cbn [own].
      * rewrite String.eqb_refl. reflexivity.
      * rewrite E0. exact IH.
  - apply own_setProp_other. apply String.eqb_neq. rewrite String.eqb_sym. exact E.
Qed.

Lemma own_insertIndex (n : N) (k k' : string) (v : value) (props : list (string * value)) :
  own k props = None ->
  own k' (insertIndex n k v props) = if String.eqb k k' then Some v else own k' props.
Proof.
  intros Hk. induction props as [|[k0 v0] props IH]; cbn [insertIndex own].
  - destruct (String.eqb k k'); reflexivity.
  - cbn [own] in Hk. destruct (String.eqb k0 k) eqn:E0; [discriminate|].
    assert (Hhere : own k' ((k, v) :: (k0, v0) :: props) =
                    if String.eqb k k' then Some v else own k' ((k0, v0) :: props))
      by reflexivity.
    destruct (parseIndex k0) as [m|]; [destruct (m <? n)%N|]; try exact Hhere.
    cbn [own]. rewrite (IH Hk). destruct (String.eqb k0 k') eqn:E1; [|reflexivity].
    apply String.eqb_eq in E1. subst k'. rewrite String.eqb_sym, E0. reflexivity.
Qed.

Lemma own_defineProp (k k' : string) (v : value) (props : list (string * value)) :
  own k' (defineProp k v props) = if String.eqb k k' then Some v else own k' props.
Proof.
  unfold defineProp, hasOwn. destruct (own k props) eqn:Hk.
  - apply own_setProp.
  - destruct (parseIndex k).
    + apply own_insertIndex. exact Hk.
    + rewrite own_app. cbn [own]. destruct (String.eqb k k') eqn:E.
      * apply String.eqb_eq in E. subst k'. rewrite Hk. reflexivity.
      * destruct (own k' props); reflexivity.
Qed.

(** The entries [key := v] of a run of assignments whose keys are strings. *)
Lemma assignAll_own (es : list (string * value)) (obj : list (string * value)) :
  ~ In "__proto__" (map fst es) ->
  exists obj', assignAll (map (fun kv => (VStr (fst kv), snd kv)) es) obj = Ret obj' /\
    forall k, own k obj' = match own k (rev es) with
                           | Some v => Some v
                           | None => own k obj
                           end.
Proof.
  revert obj. induction es as [|[k0 v0] es IH]; intros obj Hproto.
  - exists obj. split; reflexivity.
  - cbn [map fst snd assignAll toPropertyKey bind]. unfold assignProp.
    assert (Hk0 : (k0 =? "__proto__") = false).
    { apply String.eqb_neq. intros ->. apply Hproto. left. reflexivity. }
    rewrite Hk0. cbn [andb bind].
    destruct (IH (defineProp k0 v0 obj)) as [obj' [Hobj' Hown]].
    { intros H. apply Hproto. right. exact H. }
    exists obj'. split; [exact Hobj'|]. intros k. rewrite Hown.
    cbn [rev]. rewrite own_app. destruct (own k (rev es)); [reflexivity|].
    cbn [own]. rewrite own_defineProp. destruct (String.eqb k0 k); reflexivity.
Qed.

Lemma own_NoDup {V} (ps : list (string * V)) (k : string) (v : V) :
  NoDup (map fst ps) -> In (k, v) ps -> own k ps = Some v.
Proof.
  induction ps as [|[k0 v0] ps IH]; intros Hnd Hin; [destruct Hin|].
  cbn [map fst] in Hnd. inversion Hnd as [|x l Hnotin Hnd']; subst.
  cbn [own]. destruct Hin as [Heq|Hin].
  - injection Heq as -> ->. rewrite String.eqb_refl. reflexivity.
  - destruct (String.eqb k0 k) eqn:E; [|apply IH; assumption].
    apply String.eqb_eq in E. subst k0. exfalso. apply Hnotin.
    apply in_map_iff. exists (k, v). split; [reflexivity|exact Hin].
Qed.

Lemma NoDup_rev_keys {V} (ps : list (string * V)) :
  NoDup (map fst ps) -> NoDup (map fst (rev ps)).
Proof.
  intros H. rewrite map_rev. apply NoDup_rev. exact H.
Qed.

Lemma revObj_table (strs : list (string * string)) :
  NoDup (map snd strs) -> ~ In "__proto__" (map snd strs) ->
  exists rev,
    revObj (VObj (map (fun ks => (fst ks, VStr (snd ks))) strs)) = Ret (VObj rev) /\
    forall k s, own s rev = Some (VStr k) <-> In (k, s) strs.
Proof.
  intros Hdistinct Hproto.
  unfold revObj. cbn [enumerate]. rewrite map_map. cbn [fst snd].
  set (es := map (fun ks : string * string => (snd ks, VStr (fst ks))) strs).
  assert (Hes : map (fun x : string * string => (VStr (snd x), VStr (fst x))) strs =
                map (fun kv => (VStr (fst kv), snd kv)) es).
  { unfold es. rewrite map_map. reflexivity. }
  rewrite Hes.
  assert (Hkeys : map fst es = map snd strs).
  { unfold es. rewrite map_map. reflexivity. }
  destruct (assignAll_own es []) as [rev0 [Hrev Hown]]; [rewrite Hkeys; exact Hproto|].
  rewrite Hrev. cbn [bind]. exists rev0. split; [reflexivity|].
  intros k s. rewrite Hown. cbn [own].
  assert (Hnd : NoDup (map fst (rev es))).
  { apply NoDup_rev_keys. rewrite Hkeys. exact Hdistinct. }
  split.
  - intros H. destruct (own s (rev es)) as [v|] eqn:E; [|discriminate].
    injection H as ->. apply own_In_key in E. apply in_rev in E.
    unfold es in E. apply in_map_iff in E. destruct E as [[k' s'] [Heq Hin]].
    cbn [fst snd] in Heq. injection Heq as <- <-. exact Hin.
  - intros Hin. rewrite (own_NoDup (rev es) s (VStr k) Hnd); [reflexivity|].
    apply in_rev. rewrite rev_involutive. unfold es. apply in_map_iff.
    exists (k, s). split; [reflexivity|exact Hin].
Qed.

(** X20 (helpers.js lines 37-44): for an object whose values are distinct
    strings, none of them [__proto__], [revObj] returns the reversed
    table: it holds the key [k] under [s] exactly when the object holds
    the value [s] under [k]. *)
Theorem revObj_lookup (strs : list (string * string))
    (Hdistinct : NoDup (map snd strs))
    (Hproto : ~ In "__proto__" (map snd strs)) :
  exists rev,
    revObj (VObj (map (fun ks => (fst ks, VStr (snd ks))) strs)) = Ret (VObj rev) /\
    forall k s, own s rev = Some (VStr k) <-> In (k, s) strs.
Proof. apply revObj_table; assumption. Qed.

Lemma revObj_lookup_witness :
  exists rev,
    revObj (VObj (map (fun ks => (fst ks, VStr (snd ks))) [("age", "forty"); ("b", "x")]))
      = Ret (VObj rev) /\
    forall k s, own s rev = Some (VStr k) <-> In (k, s) [("age", "forty"); ("b", "x")].
Proof.
  apply revObj_lookup.
  - repeat constructor; cbn; intuition discriminate.
  - cbn. intuition discriminate.
Defined.

Lemma map_snd_numbered {A} (start : nat) (l : list A) :
  map snd (combine (seq start (length l)) l) = l.
Proof.
  revert start. induction l as [|x l IH]; intros start; [reflexivity|].
  cbn [length seq combine map snd]. rewrite IH. reflexivity.
Qed.

Lemma In_numbered {A} (d : A) (l : list A) (start i : nat) :
  (i < length l)%nat ->
  In ((start + i)%nat, nth i l d) (combine (seq start (length l)) l).
Proof.
  revert start i. induction l as [|x l IH]; intros start i Hi; cbn [length] in Hi; [lia|].
  cbn [length seq combine]. destruct i as [|i].
  - left. rewrite Nat.add_0_r. reflexivity.
  - right. rewrite Nat.add_succ_r. apply (IH (S start) i). lia.
Qed.

(** X21 (helpers.js lines 53-57): for an array of distinct strings, none
    of them [__proto__], [arr2enum] returns the table of their indices: it
    holds the number [i] under the [i]-th string, and nothing under any
    other key. *)
Theorem arr2enum_lookup (names : list string)
    (Hdistinct : NoDup names)
    (Hproto : ~ In "__proto__" names) :
  exists enumObj,
    arr2enum (VArr (map VStr names)) = Ret (VObj enumObj) /\
    (forall i, (i < length names)%nat ->
               own (nth i names EmptyString) enumObj = Some (VNum (Z.of_nat i))) /\
    (forall k, ~ In k names -> own k enumObj = None).
Proof.
  unfold arr2enum. rewrite length_map.
  set (es := map (fun ix : nat * string => (snd ix, VNum (Z.of_nat (fst ix))))
                 (combine (seq 0 (length names)) names)).
  assert (Hes : map (fun ix : nat * value => (snd ix, VNum (Z.of_nat (fst ix))))
                    (combine (seq 0 (length names)) (map VStr names)) =
                map (fun kv => (VStr (fst kv), snd kv)) es).
  { unfold es. rewrite map_map. cbn [fst snd].
    generalize 0%nat. induction names as [|x xs IH]; intros start; [reflexivity|].
    cbn [length seq map combine fst snd]. f_equal. apply IH.
    - inversion Hdistinct; assumption.
    - intros H. apply Hproto. right. exact H. }
  rewrite Hes.
  assert (Hkeys : map fst es = names).
  { unfold es. rewrite map_map. cbn [fst snd].
    change (fun x : nat * string => snd x) with (@snd nat string).
    apply map_snd_numbered. }
  destruct (assignAll_own es []) as [e [He Hown]]; [rewrite Hkeys; exact Hproto|].
  rewrite He. cbn [bind]. exists e. split; [reflexivity|].
  assert (Hnd : NoDup (map fst (rev es))).
  { apply NoDup_rev_keys. rewrite Hkeys. exact Hdistinct. }
  split.
  - intros i Hi. rewrite Hown.
    rewrite (own_NoDup (rev es) _ (VNum (Z.of_nat i)) Hnd); [reflexivity|].
    apply in_rev. rewrite rev_involutive. unfold es. apply in_map_iff.
    exists (i, nth i names EmptyString). split; [reflexivity|].
    apply (In_numbered EmptyString names 0 i Hi).
  - intros k Hk. rewrite Hown. cbn [own].
    destruct (own k (rev es)) as [v|] eqn:E; [|reflexivity].
    apply own_In_key in E. exfalso. apply Hk. rewrite <- Hkeys.
    apply in_map_iff. exists (k, v). split; [reflexivity|].
    apply in_rev. exact E.
Qed.

Lemma arr2enum_lookup_witness :
  exists enumObj,
    arr2enum (VArr (map VStr ["red"; "green"])) = Ret (VObj enumObj) /\
    (forall i, (i < length ["red"; "green"])%nat ->
               own (nth i ["red"; "green"] EmptyString) enumObj = Some (VNum (Z.of_nat i))) /\
    (forall k, ~ In k ["red"; "green"] -> own k enumObj = None).
Proof.
  apply arr2enum_lookup.
  - repeat constructor; cbn; intuition discriminate.
  - cbn. intuition discriminate.
Defined.

Lemma In_setProp (k k' : string) (v v' : value) (props : list (string * value)) :
  In (k', v') (setProp k v props) -> (k', v') = (k, v) \/ In (k', v') props.
Proof.
  induction props as [|[k0 v0] props IH]; cbn [setProp].
  - intros [H|[]]. left. congruence.
  - destruct (String.eqb k0 k).
    + intros [H|H]; [left; congruence|right; right; exact H].
    + intros [H|H]; [right; left; exact H|].
      destruct (IH H) as [H'|H']; [left; exact H'|right; right; exact H'].
Qed.

Lemma In_insertIndex (n : N) (k k' : string) (v v' : value) (props : list (string * value)) :
  In (k', v') (insertIndex n k v props) -> (k', v') = (k, v) \/ In (k', v') props.
Proof.
  induction props as [|[k0 v0] props IH]; cbn [insertIndex].
  - intros [H|[]]. left. congruence.
  - assert (Hhere : In (k', v') ((k, v) :: (k0, v0) :: props) ->
                    (k', v') = (k, v) \/ In (k', v') ((k0, v0) :: props)).
    { intros [H|H]; [left; congruence|right; exact H]. }
    destruct (parseIndex k0) as [m|]; [destruct (m <? n)%N|]; try exact Hhere.
    intros [H|H]; [right; left; exact H|].
    destruct (IH H) as [H'|H']; [left; exact H'|right; right; exact H'].
Qed.

Lemma In_defineProp (k k' : string) (v v' : value) (props : list (string * value)) :
  In (k', v') (defineProp k v props) -> (k', v') = (k, v) \/ In (k', v') props.
Proof.
  unfold defineProp. destruct (hasOwn k props); [apply In_setProp|].
  destruct (parseIndex k); [apply In_insertIndex|].
  intros H. apply in_app_or in H. destruct H as [H|[H|[]]];
    [right; exact H|left; congruence].
Qed.

Lemma assignAll_In (es : list (value * value)) (obj obj' : list (string * value)) :
  assignAll es obj = Ret obj' ->
  forall k v, In (k, v) obj' ->
    In (k, v) obj \/ exists keyValue, In (keyValue, v) es /\ toPropertyKey keyValue = Ret k.
Proof.
  revert obj. induction es as [|[kv0 v0] es IH]; intros obj H k v Hin; cbn [assignAll] in H.
  - injection H as <-. left. exact Hin.
  - destruct (toPropertyKey kv0) as [key|e] eqn:Hkey; cbn [bind] in H; [|discriminate].
    destruct (assignProp key v0 obj) as [obj1|e] eqn:Hassign; cbn [bind] in H; [|discriminate].
    destruct (IH obj1 H k v Hin) as [Hobj1|[keyValue [Hes Hk]]].
    + unfold assignProp in Hassign.
      destruct ((key =? "__proto__") && negb (hasOwn key obj)).
      * destruct (isPrototype v0); [discriminate|]. injection Hassign as <-. left. exact Hobj1.
      * injection Hassign as <-. destruct (In_defineProp _ _ _ _ _ Hobj1) as [Heq|Hobj].
        -- injection Heq as -> ->. right. exists kv0. split; [left; reflexivity|exact Hkey].
        -- left. exact Hobj.
    + right. exists keyValue. split; [right; exact Hes|exact Hk].
Qed.

Lemma own_Some_of_In {V} (k : string) (v : V) (ps : list (string * V)) :
  In (k, v) ps -> exists v', own k ps = Some v'.
Proof.
  induction ps as [|[k0 v0] ps IH]; intros Hin; [destruct Hin|].
  cbn [own]. destruct (String.eqb k0 k) eqn:E; [eauto|].
  destruct Hin as [Heq|Hin]; [|apply IH; exact Hin].
  injection Heq as -> ->. rewrite String.eqb_refl in E. discriminate.
Qed.

(** X22 (helpers.js lines 37-44): on an object whose keys are distinct,
    whose values are distinct strings, and where [__proto__] is neither a
    key nor a value, [revObj] undoes itself: reversing the reversed table
    gives a table with the lookups of the object. *)
Theorem revObj_involution (strs : list (string * string))
    (Hkeys : NoDup (map fst strs))
    (Hvalues : NoDup (map snd strs))
    (Hproto : ~ In "__proto__" (map fst strs) /\ ~ In "__proto__" (map snd strs)) :
  exists table table2,
    revObj (VObj (map (fun ks => (fst ks, VStr (snd ks))) strs)) = Ret (VObj table) /\
    revObj (VObj table) = Ret (VObj table2) /\
    forall k, own k table2 = own k (map (fun ks => (fst ks, VStr (snd ks))) strs).
Proof.
  destruct Hproto as [Hproto1 Hproto2].
  destruct (revObj_table strs Hvalues Hproto2) as [table [Hrev Htable]].
  exists table.
  assert (Hentries : forall s v, In (s, v) table -> exists k, v = VStr k /\ In (k, s) strs).
  { intros s v Hin. unfold revObj in Hrev. cbn [enumerate] in Hrev.
    destruct (assignAll _ []) as [rev0|e] eqn:Hall; cbn [bind] in Hrev; [|discriminate].
    injection Hrev as <-.
    destruct (assignAll_In _ _ _ Hall s v Hin) as [[]|[keyValue [Hes Hkey]]].
    apply in_map_iff in Hes. destruct Hes as [[k0 v0] [Heq Hk0]]. cbn [fst snd] in Heq.
    injection Heq as <- <-. apply in_map_iff in Hk0. destruct Hk0 as [[k1 s1] [Heq Hk1]].
    cbn [fst snd] in Heq. injection Heq as <- <-. cbn [toPropertyKey] in Hkey.
    injection Hkey as <-. exists k1. split; [reflexivity|exact Hk1]. }
  set (es2 := map (fun kv : string * value =>
                     (match snd kv with VStr k => k | _ => EmptyString end, VStr (fst kv))) table).
  assert (Hes2 : map (fun kv : string * value => (snd kv, VStr (fst kv))) table =
                 map (fun kv => (VStr (fst kv), snd kv)) es2).
  { unfold es2. rewrite map_map. apply map_ext_in. intros [s v] Hin.
    destruct (Hentries s v Hin) as [k [-> _]]. reflexivity. }
  assert (Hin2 : forall k v, In (k, v) es2 <-> exists s, v = VStr s /\ In (k, s) strs).
  { intros k v. unfold es2. rewrite in_map_iff. split.
    - intros [[s v'] [Heq Hin]]. cbn [fst snd] in Heq.
      destruct (Hentries s v' Hin) as [k' [-> Hk']]. injection Heq as <- <-.
      exists s. split; [reflexivity|exact Hk'].
    - intros [s [-> Hin]]. exists (s, VStr k). split; [reflexivity|].
      apply own_In_key. apply Htable. exact Hin. }
  destruct (assignAll_own es2 []) as [table2 [Hrev2 Hown2]].
  { intros H. apply in_map_iff in H. destruct H as [[k v] [Heq Hin]]. cbn [fst] in Heq. subst k.
    apply Hin2 in Hin. destruct Hin as [s [_ Hin]]. apply Hproto1.
    apply in_map_iff. exists ("__proto__", s). split; [reflexivity|exact Hin]. }
  exists table2. split; [exact Hrev|]. split.
  - unfold revObj. cbn [enumerate]. rewrite Hes2, Hrev2. reflexivity.
  - intros k. rewrite Hown2. cbn [own].
    assert (Hobj : forall s, In (k, s) strs ->
                   own k (map (fun ks => (fst ks, VStr (snd ks))) strs) = Some (VStr s)).
    { intros s Hin. apply own_NoDup.
      - rewrite map_map. cbn [fst]. exact Hkeys.
      - apply in_map_iff. exists (k, s). split; [reflexivity|exact Hin]. }
    destruct (own k (rev es2)) as [v|] eqn:E.
    + apply own_In_key in E. apply in_rev in E. apply Hin2 in E.
      destruct E as [s [-> Hin]]. symmetry. apply Hobj. exact Hin.
    + destruct (own k (map _ strs)) as [v|] eqn:E'; [|reflexivity].
      apply own_In_key in E'. apply in_map_iff in E'.
      destruct E' as [[k' s] [Heq Hin]]. cbn [fst snd] in Heq. injection Heq as -> <-.
      assert (Hin' : In (k, VStr s) (rev es2)).
      { apply in_rev. rewrite rev_involutive. apply Hin2. eauto. }
      destruct (own_Some_of_In _ _ _ Hin') as [v' Hv']. congruence.
Qed.

Lemma revObj_involution_witness :
  exists table table2,
    revObj (VObj (map (fun ks => (fst ks, VStr (snd ks))) [("age", "forty"); ("b", "x")]))
      = Ret (VObj table) /\
    revObj (VObj table) = Ret (VObj table2) /\
    forall k, own k table2 =
              own k (map (fun ks => (fst ks, VStr (snd ks))) [("age", "forty"); ("b", "x")]).
Proof.
  apply revObj_involution.
  - repeat constructor; cbn; intuition discriminate.
  - repeat constructor; cbn; intuition discriminate.
  - split; cbn; intuition discriminate.
Defined.

(** A value [__proto__] is lost, and of two keys with one value the later
    wins. *)
Example revObj_edges :
  revObj (VObj [("a", VStr "__proto__")]) = Ret (VObj []) /\
  revObj (VObj [("a", VStr "x"); ("b", VStr "x")]) = Ret (VObj [("x", VStr "b")]).
Proof. split; reflexivity. Qed.

(** * stringEncoder *)

Lemma append_assoc' (a b c : string) : ((a ++ b) ++ c = a ++ (b ++ c))%string.
Proof. induction a as [|x a IH]; cbn; [reflexivity|]. rewrite IH. reflexivity. Qed.

Lemma length_append' (a b : string) :
  String.length (a ++ b) = (String.length a + String.length b)%nat.
Proof. induction a as [|x a IH]; cbn; [reflexivity|]. rewrite IH. reflexivity. Qed.

Lemma parse_escapeChar (c : ascii) (X : string) :
  parseStringBody (escapeChar c ++ X) = consChar c (parseStringBody X).
Proof.
  destruct c as [[|] [|] [|] [|] [|] [|] [|] [|]]; reflexivity.
Qed.

Lemma parseStringBody_escape (s rest : string) :
  parseStringBody (escapeString s ++ String quoteChar rest) = Some (s, rest).
Proof.
  induction s as [|c s IH]; [reflexivity|].
  cbn [escapeString]. rewrite append_assoc', parse_escapeChar, IH. reflexivity.
Qed.

Lemma parseElement_quote (s rest : string) :
  parseElement (quoteJSON s ++ rest) = Some (VStr s, rest).
Proof.
  unfold quoteJSON. cbn [append parseElement]. rewrite append_assoc'. cbn [append].
  change (Ascii.eqb quoteChar quoteChar) with true. cbv iota.
  rewrite parseStringBody_escape. reflexivity.
Qed.

Lemma parseElements_quoted (e : string) (es : list string) (fuel : nat) :
  (length (e :: es) <= fuel)%nat ->
  parseElements fuel (joinWith "," (map quoteJSON (e :: es)) ++ "]") =
  Some (map VStr (e :: es)).
Proof.
  revert e fuel. induction es as [|e' es IH]; intros e fuel Hfuel;
    (destruct fuel as [|fuel]; [cbn [length] in Hfuel; lia|]).
  - cbn [map joinWith parseElements]. rewrite parseElement_quote. reflexivity.
  - cbn [map joinWith parseElements] in *. rewrite !append_assoc', parseElement_quote.
    cbn [append]. rewrite IH; [reflexivity|]. cbn [length] in *. lia.
Qed.

Lemma length_quoteJSON (s : string) : (2 <= String.length (quoteJSON s))%nat.
Proof. unfold quoteJSON. cbn [String.length]. rewrite length_append'. cbn. lia. Qed.

Lemma length_joined_quotes (es : list string) :
  (length es <= String.length (joinWith "," (map quoteJSON es)))%nat.
Proof.
  induction es as [|e es IH]; [cbn; lia|].
  cbn [map joinWith length]. pose proof (length_quoteJSON e).
  destruct (map quoteJSON es) eqn:E.
  - destruct es; [cbn; lia|discriminate].
  - rewrite !length_append'. cbn [String.length] in *. lia.
Qed.

Lemma parseFlat_bracket (t : string) :
  parseFlat (String "[" (String quoteChar t)) =
  match parseElements (String.length (String quoteChar t)) (String quoteChar t) with
  | Some items => Ret (VArr items)
  | None => Throw Uncovered
  end.
Proof. reflexivity. Qed.

Lemma parseFlat_brace (t : string) :
  parseFlat (String "{" (String quoteChar t)) =
  match parseMembers (String.length (String quoteChar t)) (String quoteChar t) with
  | Some members =>
      Ret (VObj (fold_left (fun obj kv => defineProp (fst kv) (snd kv) obj) members []))
  | None => Throw Uncovered
  end.
Proof. reflexivity. Qed.

Lemma joined_quotes_start (e : string) (es : list string) (tail : string) :
  exists t, (joinWith "," (map quoteJSON (e :: es)) ++ tail)%string = String quoteChar t.
Proof.
  cbn [map joinWith]. destruct (map quoteJSON es); unfold quoteJSON; cbn [append]; eauto.
Qed.

Lemma parseFlat_array (es : list string) :
  parseFlat ("[" ++ joinWith "," (map quoteJSON es) ++ "]") = Ret (VArr (map VStr es)).
Proof.
  destruct es as [|e es]; [reflexivity|].
  cbn [append]. destruct (joined_quotes_start e es "]") as [t Ht].
  rewrite Ht, parseFlat_bracket, <- Ht.
  rewrite parseElements_quoted; [reflexivity|].
  rewrite length_append'. pose proof (length_joined_quotes (e :: es)). cbn [String.length]. lia.
Qed.

Lemma joinWith_cons (sep p q : string) (rest : list string) :
  joinWith sep (p :: q :: rest) = (p ++ sep ++ joinWith sep (q :: rest))%string.
Proof. reflexivity. Qed.

Lemma parseMember_quoted (k e rest : string) :
  parseStringBody (escapeString k ++ String quoteChar (":" ++ quoteJSON e ++ rest)) =
  Some (k, (":" ++ quoteJSON e ++ rest)%string) /\
  parseElement (quoteJSON e ++ rest) = Some (VStr e, rest).
Proof. split; [apply parseStringBody_escape|apply parseElement_quote]. Qed.

Lemma parseMembers_step (fuel : nat) (k e rest : string) :
  parseMembers (S fuel) ((quoteJSON k ++ ":" ++ quoteJSON e) ++ rest) =
  match rest with
  | String "," rest' =>
      match parseMembers fuel rest' with
      | Some members => Some ((k, VStr e) :: members)
      | None => None
      end
  | String "}" EmptyString => Some [(k, VStr e)]
  | _ => None
  end.
Proof.
  cbn [parseMembers]. unfold quoteJSON at 1. cbn [append].
  change (Ascii.eqb quoteChar quoteChar) with true. cbv iota.
  rewrite !append_assoc'. cbn [append].
  rewrite parseStringBody_escape, parseElement_quote. reflexivity.
Qed.

Lemma parseMembers_quoted (m : string * string) (ms : list (string * string)) (fuel : nat) :
  (length (m :: ms) <= fuel)%nat ->
  parseMembers fuel
    (joinWith "," (map (fun ke => quoteJSON (fst ke) ++ ":" ++ quoteJSON (snd ke))%string
                       (m :: ms)) ++ "}") =
  Some (map (fun ke => (fst ke, VStr (snd ke))) (m :: ms)).
Proof.
  revert m fuel. induction ms as [|m' ms IH]; intros [k e] fuel Hfuel;
    (destruct fuel as [|fuel]; [cbn [length] in Hfuel; lia|]).
  - cbn [map joinWith fst snd]. rewrite parseMembers_step. reflexivity.
  - cbn [map]. rewrite joinWith_cons. cbn [fst snd].
    rewrite (append_assoc' (quoteJSON k ++ ":" ++ quoteJSON e)), parseMembers_step.
    cbn [append]. specialize (IH m' fuel). cbn [map append] in IH.
    rewrite IH; [reflexivity|]. cbn [length] in *. lia.
Qed.

Lemma length_joined_members (ms : list (string * string)) :
  (length ms <=
   String.length (joinWith ","
     (map (fun ke => quoteJSON (fst ke) ++ ":" ++ quoteJSON (snd ke))%string ms)))%nat.
Proof.
  induction ms as [|[k e] ms IH]; [cbn; lia|].
  cbn [map joinWith length fst snd]. pose proof (length_quoteJSON k).
  destruct (map _ ms) eqn:E.
  - destruct ms; [rewrite !length_append'; cbn; lia|discriminate].
  - rewrite !length_append'. cbn [String.length] in *. lia.
Qed.

Lemma hasOwn_false_iff {V} (k : string) (ps : list (string * V)) :
  hasOwn k ps = false <-> ~ In k (map fst ps).
Proof.
  unfold hasOwn. split.
  - intros H Hin. apply in_map_iff in Hin. destruct Hin as [[k' v] [Heq Hin]].
    cbn [fst] in Heq. subst k'. destruct (own_Some_of_In _ _ _ Hin) as [v' Hv'].
    rewrite Hv' in H. discriminate.
  - intros H. destruct (own k ps) as [v|] eqn:E; [|reflexivity].
    exfalso. apply H. apply in_map_iff. exists (k, v). split; [reflexivity|].
    apply own_In_key. exact E.
Qed.

Lemma distinctKeys_NoDup {V} (ps : list (string * V)) :
  distinctKeys ps = true -> NoDup (map fst ps).
Proof.
  induction ps as [|[k v] ps IH]; intros H; [constructor|].
  cbn [distinctKeys] in H. apply andb_true_iff in H. destruct H as [Hk H].
  apply negb_true_iff in Hk. cbn [map fst]. constructor.
  - apply hasOwn_false_iff. exact Hk.
  - apply IH. exact H.
Qed.

Lemma defineProp_fresh (k : string) (v : value) (acc : list (string * value)) :
  ~ In k (map fst acc) -> parseIndex k = None ->
  defineProp k v acc = acc ++ [(k, v)].
Proof.
  intros Hk Hidx. unfold defineProp.
  rewrite (proj2 (hasOwn_false_iff k acc) Hk), Hidx. reflexivity.
Qed.

Lemma assignProp_fresh (k : string) (v : value) (acc : list (string * value)) :
  k <> "__proto__" -> ~ In k (map fst acc) -> parseIndex k = None ->
  assignProp k v acc = Ret (acc ++ [(k, v)]).
Proof.
  intros Hp Hk Hidx. unfold assignProp.
  apply String.eqb_neq in Hp. rewrite Hp. cbn [andb].
  rewrite (defineProp_fresh k v acc Hk Hidx). reflexivity.
Qed.

Lemma plainKeys_tail (k : string) (keys : list string) :
  plainKeys (k :: keys) -> plainKeys keys.
Proof.
  intros [Hnd H]. split; [inversion Hnd; assumption|].
  intros k' Hk'. apply H. right. exact Hk'.
Qed.

Lemma fold_define_plain (members acc : list (string * value)) :
  NoDup (map fst acc ++ map fst members) ->
  (forall k, In k (map fst members) -> parseIndex k = None) ->
  fold_left (fun obj kv => defineProp (fst kv) (snd kv) obj) members acc = acc ++ members.
Proof.
  revert acc. induction members as [|[k v] members IH]; intros acc Hnd Hidx.
  - rewrite app_nil_r. reflexivity.
  - cbn [fold_left fst snd]. cbn [map fst] in Hnd.
    rewrite defineProp_fresh.
    + rewrite IH.
      * rewrite <- app_assoc. reflexivity.
      * rewrite map_app. cbn [map fst]. rewrite <- app_assoc. exact Hnd.
      * intros k' Hk'. apply Hidx. right. exact Hk'.
    + apply NoDup_remove_2 in Hnd. intros Hin. apply Hnd. apply in_or_app. left. exact Hin.
    + apply Hidx. left. reflexivity.
Qed.

Lemma parseFlat_object (ms : list (string * string)) :
  plainKeys (map fst ms) ->
  parseFlat ("{" ++ joinWith ","
      (map (fun ke => quoteJSON (fst ke) ++ ":" ++ quoteJSON (snd ke))%string ms) ++ "}") =
  Ret (VObj (map (fun ke => (fst ke, VStr (snd ke))) ms)).
Proof.
  intros [Hnd Hkeys]. destruct ms as [|m ms]; [reflexivity|].
  match goal with
  | |- parseFlat (_ ++ ?body)%string = ?r => change (parseFlat (String "{" body) = r)
  end.
  assert (Hstart : exists t,
             (joinWith "," (map (fun ke => quoteJSON (fst ke) ++ ":" ++ quoteJSON (snd ke))%string
                                (m :: ms)) ++ "}")%string = String quoteChar t).
  { cbn [map joinWith]. destruct (map _ ms); unfold quoteJSON; cbn [append]; eauto. }
  destruct Hstart as [t Ht]. rewrite Ht, parseFlat_brace, <- Ht.
  rewrite parseMembers_quoted.
  - rewrite fold_define_plain; [reflexivity| |].
    + cbn [map app]. rewrite map_map. cbn [fst]. exact Hnd.
    + intros k Hk. rewrite map_map in Hk. cbn [fst] in Hk. apply (Hkeys k Hk).
  - rewrite length_append'. pose proof (length_joined_members (m :: ms)).
    cbn [String.length]. lia.
Qed.

Lemma stringifyArray_strings (es : list string) :
  stringifyArray (map VStr es) = Ret ("[" ++ joinWith "," (map quoteJSON es) ++ "]")%string.
Proof.
  unfold stringifyArray. rewrite mapM_map.
  rewrite (mapM_pure _ quoteJSON); reflexivity.
Qed.

Lemma concat_map_singleton {A B : Type} (f : A -> B) (l : list A) :
  concat (map (fun a => [f a]) l) = map f l.
Proof.
  induction l as [|a l IH]; [reflexivity|]. cbn [map concat app]. rewrite IH. reflexivity.
Qed.

Lemma stringifyObject_strings (ms : list (string * string)) :
  stringifyObject (map (fun ke => (fst ke, VStr (snd ke))) ms) =
  Ret ("{" ++ joinWith ","
         (map (fun ke => quoteJSON (fst ke) ++ ":" ++ quoteJSON (snd ke))%string ms) ++ "}")%string.
Proof.
  unfold stringifyObject. rewrite mapM_map.
  rewrite (mapM_pure _ (fun ke => [(quoteJSON (fst ke) ++ ":" ++ quoteJSON (snd ke))%string]));
    [|reflexivity].
  cbn [bind]. rewrite concat_map_singleton. reflexivity.
Qed.

Lemma stringToNumber_numberToString (n : Z) (s : string) :
  numberToString n = Ret s -> stringToNumber s = Ret (VNum n).
Proof.
  unfold numberToString, stringToNumber.
  destruct (Z.abs n <=? maxSafeInteger)%Z eqn:Hsafe; [|discriminate].
  intros H. injection H as <-.
  rewrite NilZero.isi.
  - rewrite DecimalZ.of_to, Hsafe. reflexivity.
  - destruct n; cbn [Z.to_int]; try discriminate.
    intros H. injection H as H. apply (DecimalPos.Unsigned.to_uint_nonnil _ H).
  - destruct n; cbn [Z.to_int]; try discriminate.
    intros H. injection H as H. apply (DecimalPos.Unsigned.to_uint_nonnil _ H).
Qed.

Lemma length_escapeChar (c : ascii) : (1 <= String.length (escapeChar c))%nat.
Proof.
  unfold escapeChar.
  repeat match goal with |- context [if ?b then _ else _] => destruct b end;
    cbn [String.length]; lia.
Qed.

Lemma length_escapeString (s : string) :
  (String.length s <= String.length (escapeString s))%nat.
Proof.
  induction s as [|c s IH]; [cbn; lia|].
  cbn [escapeString String.length]. rewrite length_append'.
  pose proof (length_escapeChar c). lia.
Qed.

Lemma length_quoted (s : string) :
  (String.length s <= String.length (quoteJSON s))%nat.
Proof.
  unfold quoteJSON. cbn [String.length]. rewrite length_append'.
  pose proof (length_escapeString s). lia.
Qed.

Lemma length_joined_piece (sep p : string) (pieces : list string) :
  In p pieces -> (String.length p <= String.length (joinWith sep pieces))%nat.
Proof.
  induction pieces as [|q pieces IH]; intros Hin; [destruct Hin|].
  destruct pieces as [|r pieces].
  - destruct Hin as [->|[]]. cbn [joinWith]. lia.
  - rewrite joinWith_cons, !length_append'. destruct Hin as [->|Hin]; [lia|].
    specialize (IH Hin). lia.
Qed.

Lemma height_array (items : list value) (d : nat) :
  (height (VArr items) <= S d)%nat <-> forall c, In c items -> (height c <= d)%nat.
Proof.
  cbn [height]. induction items as [|c items IH]; cbn [fold_right]; split.
  - intros _ c [].
  - intros _. lia.
  - intros H c' [<-|Hin]; [lia|]. apply IH; [lia|exact Hin].
  - intros H. pose proof (H c (or_introl eq_refl)).
    assert (Hrest : forall c', In c' items -> (height c' <= d)%nat)
      by (intros c' Hc'; apply H; right; exact Hc').
    apply IH in Hrest. lia.
Qed.

Lemma height_object (props : list (string * value)) (d : nat) :
  (height (VObj props) <= S d)%nat <-> forall kv, In kv props -> (height (snd kv) <= d)%nat.
Proof.
  cbn [height]. induction props as [|kv props IH]; cbn [fold_right]; split.
  - intros _ c [].
  - intros _. lia.
  - intros H c' [<-|Hin]; [lia|]. apply IH; [lia|exact Hin].
  - intros H. pose proof (H kv (or_introl eq_refl)).
    assert (Hrest : forall c', In c' props -> (height (snd c') <= d)%nat)
      by (intros c' Hc'; apply H; right; exact Hc').
    apply IH in Hrest. lia.
Qed.

Lemma mapM_Forall2 {A B} (f : A -> result B) (l : list A) (bs : list B) :
  Forall2 (fun a b => f a = Ret b) l bs -> mapM f l = Ret bs.
Proof.
  induction 1 as [|a b l bs Hab _ IH]; cbn [mapM]; [reflexivity|].
  rewrite Hab. cbn [bind]. rewrite IH. reflexivity.
Qed.

Lemma encode_array (items : list value) (es : list string) :
  Forall2 (fun c e => encode c = Ret (VStr e)) items es ->
  encode (VArr items) =
  Ret (VStr (String "a" ("[" ++ joinWith "," (map quoteJSON es) ++ "]"))).
Proof.
  intros H.
  assert (Hm : mapM encode items = Ret (map VStr es)).
  { apply mapM_Forall2. induction H; cbn [map]; constructor; assumption. }
  assert (Ht : exists t, getType (VArr items) = Ret t /\ typeChar t = Some "a"%char).
  { destruct items as [|c items].
    - exists "Array". split; reflexivity.
    - exists "arraylike". split; [apply getType_arr_cons|reflexivity]. }
  destruct Ht as [t [Ht Hc]].
  cbn [encode]. rewrite Ht. cbn [bind]. rewrite Hc.
  change (Ascii.eqb "a" "a") with true. cbv iota.
  rewrite Hm. cbn [bind]. rewrite stringifyArray_strings. reflexivity.
Qed.

Lemma decode_array (depth : nat) (items : list value) (es : list string) :
  Forall2 (fun c e => decodeWithin depth (VStr e) = Ret c) items es ->
  decodeWithin (S depth)
    (VStr (String "a" ("[" ++ joinWith "," (map quoteJSON es) ++ "]"))) = Ret (VArr items).
Proof.
  intros H.
  assert (Hm : mapM (decodeWithin depth) (map VStr es) = Ret items).
  { rewrite mapM_map. apply mapM_Forall2.
    induction H; constructor; assumption. }
  cbn [decodeWithin].
  change (Ascii.eqb "a" "s") with false. change (Ascii.eqb "a" "b") with false.
  change (Ascii.eqb "a" "n") with false. change (Ascii.eqb "a" "N") with false.
  change (Ascii.eqb "a" "u") with false. change (Ascii.eqb "a" "a") with true.
  cbv iota. rewrite parseFlat_array. cbn [bind]. rewrite Hm. reflexivity.
Qed.

Lemma encodeProps_plain (enc : value -> result value)
    (props : list (string * value)) (ms : list (string * string))
    (acc : list (string * value)) :
  Forall2 (fun kv ke => fst kv = fst ke /\ enc (snd kv) = Ret (VStr (snd ke))) props ms ->
  NoDup (map fst acc ++ map fst props) ->
  (forall k, In k (map fst props) -> k <> "__proto__" /\ parseIndex k = None) ->
  encodeProps enc props acc = Ret (acc ++ map (fun ke => (fst ke, VStr (snd ke))) ms).
Proof.
  intros H. revert acc.
  induction H as [|[k v] [k' e] props ms [Hk He] _ IH]; intros acc Hnd Hkeys.
  - cbn [encodeProps map]. rewrite app_nil_r. reflexivity.
  - cbn [fst snd] in Hk, He. subst k'.
    cbn [encodeProps map fst snd]. rewrite He. cbn [bind].
    destruct (Hkeys k (or_introl eq_refl)) as [Hp Hidx].
    cbn [map fst] in Hnd.
    rewrite assignProp_fresh; [|exact Hp| |exact Hidx].
    + cbn [bind]. rewrite IH.
      * rewrite <- app_assoc. reflexivity.
      * rewrite map_app. cbn [map fst]. rewrite <- app_assoc. exact Hnd.
      * intros k' Hk'. apply Hkeys. right. exact Hk'.
    + apply NoDup_remove_2 in Hnd. intros Hin. apply Hnd. apply in_or_app. left. exact Hin.
Qed.

Lemma decodeProps_plain (dec : value -> result value)
    (props : list (string * value)) (ms : list (string * string))
    (acc : list (string * value)) :
  Forall2 (fun kv ke => fst kv = fst ke /\ dec (VStr (snd ke)) = Ret (snd kv)) props ms ->
  NoDup (map fst acc ++ map fst props) ->
  (forall k, In k (map fst props) -> k <> "__proto__" /\ parseIndex k = None) ->
  decodeProps dec (map (fun ke => (fst ke, VStr (snd ke))) ms) acc = Ret (acc ++ props).
Proof.
  intros H. revert acc.
  induction H as [|[k v] [k' e] props ms [Hk He] _ IH]; intros acc Hnd Hkeys.
  - cbn [decodeProps map]. rewrite app_nil_r. reflexivity.
  - cbn [fst snd] in Hk, He. subst k'.
    cbn [decodeProps map fst snd]. rewrite He. cbn [bind].
    destruct (Hkeys k (or_introl eq_refl)) as [Hp Hidx].
    cbn [map fst] in Hnd.
    rewrite assignProp_fresh; [|exact Hp| |exact Hidx].
    + cbn [bind]. rewrite IH.
      * rewrite <- app_assoc. reflexivity.
      * rewrite map_app. cbn [map fst]. rewrite <- app_assoc. exact Hnd.
      * intros k' Hk'. apply Hkeys. right. exact Hk'.
    + apply NoDup_remove_2 in Hnd. intros Hin. apply Hnd. apply in_or_app. left. exact Hin.
Qed.

Lemma Forall2_keys {V W : Type} (R : V -> W -> Prop)
    (props : list (string * V)) (ms : list (string * W)) :
  Forall2 (fun kv ke => fst kv = fst ke /\ R (snd kv) (snd ke)) props ms ->
  map fst ms = map fst props.
Proof.
  induction 1 as [|kv ke props ms [Hk _] _ IH]; [reflexivity|].
  cbn [map]. rewrite Hk, IH. reflexivity.
Qed.

Lemma encode_object (props : list (string * value)) (ms : list (string * string)) :
  hasOwn "length" props = false ->
  plainKeys (map fst props) ->
  Forall2 (fun kv ke => fst kv = fst ke /\ encode (snd kv) = Ret (VStr (snd ke))) props ms ->
  encode (VObj props) =
  Ret (VStr (String "o" ("{" ++ joinWith ","
         (map (fun ke => quoteJSON (fst ke) ++ ":" ++ quoteJSON (snd ke))%string ms) ++ "}"))).
Proof.
  intros Hlen [Hnd Hkeys] H.
  assert (Ht : exists t, getType (VObj props) = Ret t /\ typeChar t = Some "o"%char).
  { unfold hasOwn in Hlen. destruct (own "length" props) eqn:E; [discriminate|].
    rewrite (getType_obj_no_length props E).
    destruct (hasEnumerable (VObj props)); eexists; split; reflexivity. }
  destruct Ht as [t [Ht Hc]].
  cbn [encode]. rewrite Ht. cbn [bind]. rewrite Hc.
  change (Ascii.eqb "o" "a") with false. change (Ascii.eqb "o" "o") with true.
  cbv iota.
  rewrite (encodeProps_plain encode props ms [] H); [|exact Hnd|exact Hkeys].
  cbn [bind app]. rewrite stringifyObject_strings. reflexivity.
Qed.

Lemma decode_object (depth : nat) (props : list (string * value)) (ms : list (string * string)) :
  plainKeys (map fst props) ->
  Forall2 (fun kv ke => fst kv = fst ke /\ decodeWithin depth (VStr (snd ke)) = Ret (snd kv))
          props ms ->
  decodeWithin (S depth)
    (VStr (String "o" ("{" ++ joinWith ","
       (map (fun ke => quoteJSON (fst ke) ++ ":" ++ quoteJSON (snd ke))%string ms) ++ "}"))) =
  Ret (VObj props).
Proof.
  intros Hplain H. pose proof (Forall2_keys (fun v e => decodeWithin depth (VStr e) = Ret v) _ _ H) as Hkeys.
  cbn [decodeWithin].
  change (Ascii.eqb "o" "s") with false. change (Ascii.eqb "o" "b") with false.
  change (Ascii.eqb "o" "n") with false. change (Ascii.eqb "o" "N") with false.
  change (Ascii.eqb "o" "u") with false. change (Ascii.eqb "o" "a") with false.
  change (Ascii.eqb "o" "o") with true. cbv iota.
  rewrite parseFlat_object; [|rewrite Hkeys; exact Hplain].
  cbn [bind enumerate]. destruct Hplain as [Hnd Hk].
  rewrite (decodeProps_plain (decodeWithin depth) props ms [] H); [reflexivity|exact Hnd|exact Hk].
Qed.

Lemma Forall2_weaken {A B} (R Q : A -> B -> Prop) (l : list A) (l' : list B) :
  Forall2 R l l' ->
  (forall a b, In a l -> In b l' -> R a b -> Q a b) ->
  Forall2 Q l l'.
Proof.
  induction 1 as [|a b l l' Hab _ IH]; intros HQ; constructor.
  - apply HQ; [left; reflexivity|left; reflexivity|exact Hab].
  - apply IH. intros a' b' Ha Hb. apply HQ; right; assumption.
Qed.

Lemma Forall2_In_left {A B} (R : A -> B -> Prop) (l : list A) (l' : list B) (a : A) :
  Forall2 R l l' -> In a l -> exists b, In b l' /\ R a b.
Proof.
  induction 1 as [|a0 b0 l l' Hab _ IH]; intros Hin; [destruct Hin|].
  destruct Hin as [<-|Hin].
  - exists b0. split; [left; reflexivity|exact Hab].
  - destruct (IH Hin) as [b [Hb HR]]. exists b. split; [right; exact Hb|exact HR].
Qed.

Lemma Forall_exists_Forall2 {A B} (P : A -> Prop) (R : A -> B -> Prop) (l : list A) :
  Forall (fun a => P a -> exists b, R a b) l -> (forall a, In a l -> P a) ->
  exists bs, Forall2 R l bs.
Proof.
  induction 1 as [|a l Ha _ IH]; intros HP.
  - exists []. constructor.
  - destruct (Ha (HP a (or_introl eq_refl))) as [b Hb].
    destruct IH as [bs Hbs]; [intros a' Ha'; apply HP; right; exact Ha'|].
    exists (b :: bs). constructor; assumption.
Qed.

Lemma encodesAs_array (items : list value) (es : list string) :
  Forall2 encodesAs items es ->
  encodesAs (VArr items) (String "a" ("[" ++ joinWith "," (map quoteJSON es) ++ "]")).
Proof.
  intros H. split; [|split].
  - apply encode_array. apply (Forall2_weaken _ _ _ _ H). intros c e _ _ Hce. apply Hce.
  - cbn [String.length]. apply height_array. intros c Hc.
    destruct (Forall2_In_left _ _ _ c H Hc) as [e [He [_ [Hh _]]]].
    pose proof (length_quoted e).
    pose proof (length_joined_piece "," (quoteJSON e) (map quoteJSON es) (in_map _ _ _ He)).
    rewrite !length_append'. cbn [String.length]. lia.
  - intros [|depth] Hd; [cbn [height] in Hd; lia|].
    apply decode_array. apply (Forall2_weaken _ _ _ _ H). intros c e Hc _ [_ [_ Hdec]].
    apply Hdec. apply (proj1 (height_array items depth) Hd c Hc).
Qed.

Lemma encodesAs_object (props : list (string * value)) (ms : list (string * string)) :
  hasOwn "length" props = false ->
  plainKeys (map fst props) ->
  Forall2 (fun kv ke => fst kv = fst ke /\ encodesAs (snd kv) (snd ke)) props ms ->
  encodesAs (VObj props)
    (String "o" ("{" ++ joinWith ","
       (map (fun ke => quoteJSON (fst ke) ++ ":" ++ quoteJSON (snd ke))%string ms) ++ "}")).
Proof.
  intros Hlen Hplain H. split; [|split].
  - apply encode_object; [exact Hlen|exact Hplain|].
    apply (Forall2_weaken _ _ _ _ H). intros kv ke _ _ [Hk Hce]. split; [exact Hk|apply Hce].
  - cbn [String.length]. apply height_object. intros kv Hkv.
    destruct (Forall2_In_left _ _ _ kv H Hkv) as [ke [Hke [_ [_ [Hh _]]]]].
    pose proof (length_quoted (snd ke)).
    pose proof (length_joined_piece ","
      (quoteJSON (fst ke) ++ ":" ++ quoteJSON (snd ke))%string
      (map (fun ke => quoteJSON (fst ke) ++ ":" ++ quoteJSON (snd ke))%string ms)
      (in_map _ _ _ Hke)) as Hj.
    rewrite !length_append' in Hj. rewrite !length_append'. cbn [String.length]. lia.
  - intros [|depth] Hd; [cbn [height] in Hd; lia|].
    apply decode_object; [exact Hplain|].
    apply (Forall2_weaken _ _ _ _ H). intros kv ke Hkv _ [Hk [_ [_ Hdec]]].
    split; [exact Hk|]. apply Hdec. apply (proj1 (height_object props depth) Hd kv Hkv).
Qed.

Lemma encodable_plainKeys (props : list (string * value)) :
  distinctKeys props = true ->
  forallb (fun kv => negb (fst kv =? "__proto__") && isNone (parseIndex (fst kv)) &&
                     encodable (snd kv)) props = true ->
  plainKeys (map fst props).
Proof.
  intros Hd Hall. split; [apply distinctKeys_NoDup; exact Hd|].
  intros k Hk. apply in_map_iff in Hk. destruct Hk as [kv [<- Hin]].
  rewrite forallb_forall in Hall. specialize (Hall kv Hin).
  apply andb_true_iff in Hall. destruct Hall as [Hall _].
  apply andb_true_iff in Hall. destruct Hall as [Hp Hidx].
  split.
  - apply negb_true_iff in Hp. apply String.eqb_neq. exact Hp.
  - destruct (parseIndex (fst kv)); [discriminate|reflexivity].
Qed.

Lemma encodable_encodesAs (v : value) :
  encodable v = true -> exists text, encodesAs v text.
Proof.
  induction v as [| |b|n|s|i|f a|s f|items IH|props IH] using value_tree_ind;
    intros Henc; try discriminate Henc.
  - exists "uundefined". split; [reflexivity|split; [cbn; lia|intros [|depth] _; reflexivity]].
  - exists "Nnull". split; [reflexivity|split; [cbn; lia|intros [|depth] _; reflexivity]].
  - exists (String "b" (if b then "true" else "false")).
    split; [reflexivity|split; [cbn; lia|]]. intros [|depth] _; destruct b; reflexivity.
  - cbn [encodable] in Henc.
    exists (String "n" (NilZero.string_of_int (Z.to_int n))).
    assert (Hs : numberToString n = Ret (NilZero.string_of_int (Z.to_int n)))
      by (unfold numberToString; rewrite Henc; reflexivity).
    split; [|split; [cbn; lia|]].
    + cbn [encode]. cbn. cbn [toPropertyKey]. rewrite Hs. reflexivity.
    + intros [|depth] _; cbn [decodeWithin];
      change (Ascii.eqb "n" "s") with false; change (Ascii.eqb "n" "b") with false;
      change (Ascii.eqb "n" "n") with true; cbv iota;
      apply stringToNumber_numberToString; exact Hs.
  - exists (String "s" s). split; [reflexivity|split; [cbn; lia|intros [|depth] _; reflexivity]].
  - cbn [encodable] in Henc.
    destruct (Forall_exists_Forall2 (fun c => encodable c = true) encodesAs items IH)
      as [es Hes].
    { intros c Hc. rewrite forallb_forall in Henc. apply Henc. exact Hc. }
    eexists. apply (encodesAs_array items es Hes).
  - cbn [encodable] in Henc. apply andb_true_iff in Henc. destruct Henc as [Henc Hall].
    apply andb_true_iff in Henc. destruct Henc as [Hlen Hd].
    apply negb_true_iff in Hlen.
    assert (Hms : exists ms,
               Forall2 (fun kv ke => fst kv = fst ke /\ encodesAs (snd kv) (snd ke)) props ms).
    { apply (Forall_exists_Forall2 (fun kv => encodable (snd kv) = true)).
      - apply (Forall_impl _ (P := fun kv => encodable (snd kv) = true ->
                                           exists text, encodesAs (snd kv) text)); [|exact IH].
        intros [k c] Hc Henc. destruct (Hc Henc) as [text Ht].
        exists (k, text). split; [reflexivity|exact Ht].
      - intros kv Hkv. rewrite forallb_forall in Hall. specialize (Hall kv Hkv).
        apply andb_true_iff in Hall. apply Hall. }
    destruct Hms as [ms Hms]. eexists.
    apply (encodesAs_object props ms Hlen (encodable_plainKeys props Hd Hall) Hms).
Qed.

(** X23.  Round trip: a tree of [undefined], [null], booleans, safe
    integers, strings, arrays and objects (no object with a [length], a
    [__proto__], an index key or a repeated key) is encoded to a string,
    and [decode] gives the same tree back from that string, with the
    members of every object in the same order. *)
Theorem decode_encode (v : value) :
  encodable v = true -> (text <- encode v ;; decode text) = Ret v.
Proof.
  intros Henc. destruct (encodable_encodesAs v Henc) as [text [He [Hh Hd]]].
  rewrite He. cbn [bind decode]. apply Hd. exact Hh.
Qed.

Lemma decode_encode_witness :
  (text <- encode (VObj [("k", VNum 24); ("k2", VStr "Hello");
                         ("list", VArr [VNull; VBool true; VUndef; VObj []])]) ;;
   decode text) =
  Ret (VObj [("k", VNum 24); ("k2", VStr "Hello");
             ("list", VArr [VNull; VBool true; VUndef; VObj []])]).
Proof. apply decode_encode. reflexivity. Defined.

(** X24.  Two such trees with the same encoding are the same tree: the
    string [false] and the boolean [false], the number [1] and the string
    [1], [null] and [undefined] are all told apart. *)
Theorem encode_injective (v w : value) :
  encodable v = true -> encodable w = true -> encode v = encode w -> v = w.
Proof.
  intros Hv Hw Heq.
  destruct (encodable_encodesAs v Hv) as [text [He [_ Hd]]].
  destruct (encodable_encodesAs w Hw) as [text' [He' [_ Hd']]].
  rewrite He, He' in Heq. injection Heq as <-.
  specialize (Hd (Nat.max (height v) (height w)) (Nat.le_max_l _ _)).
  specialize (Hd' (Nat.max (height v) (height w)) (Nat.le_max_r _ _)).
  rewrite Hd in Hd'. injection Hd' as Hvw. exact Hvw.
Qed.

Lemma encode_injective_witness :
  VArr [VStr "false"; VNum 1] = VArr [VStr "false"; VNum 1].
Proof. apply encode_injective; reflexivity. Defined.




Lemma parseElement_text (o : option string) (rest : string) :
  parseElement (elementText o ++ rest) = Some (elementParsed o, rest).
Proof.
  destruct o as [e|]; [apply parseElement_quote|reflexivity].
Qed.

Lemma parseElements_texts (o : option string) (os : list (option string)) (fuel : nat) :
  (length (o :: os) <= fuel)%nat ->
  parseElements fuel (joinWith "," (map elementText (o :: os)) ++ "]") =
  Some (map elementParsed (o :: os)).
Proof.
  revert o fuel. induction os as [|o' os IH]; intros o fuel Hfuel;
    (destruct fuel as [|fuel]; [cbn [length] in Hfuel; lia|]).
  - cbn [map joinWith parseElements]. rewrite parseElement_text. reflexivity.
  - cbn [map]. rewrite joinWith_cons, !append_assoc'.
    cbn [parseElements]. rewrite parseElement_text.
    cbn [append]. specialize (IH o' fuel). cbn [map] in IH.
    rewrite IH; [reflexivity|]. cbn [length] in *. lia.
Qed.

Lemma length_elementText (o : option string) : (2 <= String.length (elementText o))%nat.
Proof. destruct o as [e|]; [apply length_quoteJSON|cbn; lia]. Qed.

Lemma length_joined_texts (os : list (option string)) :
  (length os <= String.length (joinWith "," (map elementText os)))%nat.
Proof.
  induction os as [|o os IH]; [cbn; lia|].
  pose proof (length_elementText o). destruct os as [|o' os].
  - cbn [map joinWith length]. lia.
  - cbn [map]. rewrite joinWith_cons, !length_append'. cbn [map length] in *. lia.
Qed.

Lemma parseFlat_texts (os : list (option string)) :
  parseFlat ("[" ++ joinWith "," (map elementText os) ++ "]") =
  Ret (VArr (map elementParsed os)).
Proof.
  destruct os as [|o os]; [reflexivity|].
  match goal with
  | |- parseFlat (_ ++ ?body)%string = ?r => change (parseFlat (String "[" body) = r)
  end.
  assert (Hunfold :
    parseFlat (String "[" (joinWith "," (map elementText (o :: os)) ++ "]")) =
    match parseElements
            (String.length (joinWith "," (map elementText (o :: os)) ++ "]"))
            (joinWith "," (map elementText (o :: os)) ++ "]") with
    | Some items => Ret (VArr items)
    | None => Throw Uncovered
    end).
  { destruct os as [|o' os]; cbn [map].
    - cbn [joinWith]. destruct o as [e|]; reflexivity.
    - rewrite joinWith_cons. destruct o as [e|]; reflexivity. }
  rewrite Hunfold, parseElements_texts; [reflexivity|].
  rewrite length_append'. pose proof (length_joined_texts (o :: os)).
  cbn [String.length]. lia.
Qed.

Lemma stringifyArray_values (os : list (option string)) :
  stringifyArray (map elementValue os) =
  Ret ("[" ++ joinWith "," (map elementText os) ++ "]")%string.
Proof.
  unfold stringifyArray. rewrite mapM_map.
  rewrite (mapM_pure _ elementText); [reflexivity|].
  intros [e|] _; reflexivity.
Qed.

Lemma decodeWithin_array (depth : nat) (json : string) (parsed : list value) :
  parseFlat json = Ret (VArr parsed) ->
  decodeWithin (S depth) (VStr (String "a" json)) =
  (step2 <- mapM (decodeWithin depth) parsed ;; Ret (VArr step2)).
Proof.
  intros H. cbn [decodeWithin].
  change (Ascii.eqb "a" "s") with false. change (Ascii.eqb "a" "b") with false.
  change (Ascii.eqb "a" "n") with false. change (Ascii.eqb "a" "N") with false.
  change (Ascii.eqb "a" "u") with false. change (Ascii.eqb "a" "a") with true.
  cbv iota. rewrite H. reflexivity.
Qed.

Lemma encode_array_values (items : list value) (os : list (option string)) :
  Forall2 (fun c o => encode c = Ret (elementValue o)) items os ->
  encode (VArr items) =
  Ret (VStr (String "a" ("[" ++ joinWith "," (map elementText os) ++ "]"))).
Proof.
  intros H.
  assert (Hm : mapM encode items = Ret (map elementValue os)).
  { apply mapM_Forall2. induction H; cbn [map]; constructor; assumption. }
  assert (Ht : exists t, getType (VArr items) = Ret t /\ typeChar t = Some "a"%char).
  { destruct items as [|c items].
    - exists "Array". split; reflexivity.
    - exists "arraylike". split; [apply getType_arr_cons|reflexivity]. }
  destruct Ht as [t [Ht Hc]].
  cbn [encode]. rewrite Ht. cbn [bind]. rewrite Hc.
  change (Ascii.eqb "a" "a") with true. cbv iota.
  rewrite Hm. cbn [bind]. rewrite stringifyArray_values. reflexivity.
Qed.

Lemma encoded_or_not (c : value) :
  encodable c = true \/ encode c = Ret VUndef ->
  exists o,
    encode c = Ret (elementValue o) /\
    (if encodable c then c else VNull) =
      match o with Some _ => c | None => VNull end /\
    match o with
    | Some e => encodesAs c e
    | None => True
    end.
Proof.
  intros H. destruct (encodable c) eqn:Henc.
  - destruct (encodable_encodesAs c Henc) as [e He]. exists (Some e).
    split; [apply He|]. split; [reflexivity|exact He].
  - destruct H as [H|H]; [discriminate H|]. exists None.
    split; [exact H|]. split; [reflexivity|exact I].
Qed.

(** X26.  In an array, an element that [encode] has no string for (a
    function, a symbol, a regular expression) comes back as [null], at its
    place; the elements of the supported kinds come back as they were. *)
Theorem array_keeps_places (items : list value) :
  Forall (fun c => encodable c = true \/ encode c = Ret VUndef) items ->
  (text <- encode (VArr items) ;; decode text) =
  Ret (VArr (map (fun c => if encodable c then c else VNull) items)).
Proof.
  intros H.
  assert (Hos : exists os,
    Forall2 (fun c o =>
      encode c = Ret (elementValue o) /\
      (if encodable c then c else VNull) = match o with Some _ => c | None => VNull end /\
      match o with Some e => encodesAs c e | None => True end) items os).
  { induction H as [|c items Hc _ [os IH]]; [exists []; constructor|].
    destruct (encoded_or_not c Hc) as [o Ho]. exists (o :: os). constructor; assumption. }
  destruct Hos as [os Hos].
  rewrite (encode_array_values items os).
  2:{ apply (Forall2_weaken _ _ _ _ Hos). intros c o _ _ [Hc _]. exact Hc. }
  cbn [bind decode String.length].
  rewrite (decodeWithin_array _ _ _ (parseFlat_texts os)).
  assert (Hm : mapM (decodeWithin
                       (String.length ("[" ++ joinWith "," (map elementText os) ++ "]")))
                    (map elementParsed os) =
               Ret (map (fun c => if encodable c then c else VNull) items)).
  { rewrite mapM_map. apply mapM_Forall2.
    assert (Hlen : forall o, In o os ->
              (String.length (elementText o) <=
               String.length ("[" ++ joinWith "," (map elementText os) ++ "]"))%nat).
    { intros o Ho.
      pose proof (length_joined_piece "," (elementText o) (map elementText os)
                    (in_map _ _ _ Ho)).
      rewrite !length_append'. lia. }
    revert Hlen.
    generalize (String.length ("[" ++ joinWith "," (map elementText os) ++ "]")).
    intros depth Hlen. clear H. induction Hos as [|c o items os [_ [Hv Hc]] _ IH]; cbn [map]; constructor.
    - rewrite Hv. destruct o as [e|].
      + destruct Hc as [_ [Hh Hd]]. cbn [elementParsed]. apply Hd.
        pose proof (Hlen (Some e) (or_introl eq_refl)) as Hl. cbn [elementText] in Hl.
        pose proof (length_quoted e). lia.
      + destruct depth; reflexivity.
    - apply IH. intros o' Ho'. apply Hlen. right. exact Ho'. }
  rewrite Hm. reflexivity.
Qed.

Lemma array_keeps_places_witness :
  (text <- encode (VArr [VNum 1; VFun "f" 0; VStr "x"; VRegExp "a+" "g"; VArr [VNull]]) ;;
   decode text) =
  Ret (VArr [VNum 1; VNull; VStr "x"; VNull; VArr [VNull]]).
Proof.
  apply (array_keeps_places [VNum 1; VFun "f" 0; VStr "x"; VRegExp "a+" "g"; VArr [VNull]]).
  repeat first [apply Forall_nil
               |apply Forall_cons; [first [left; reflexivity|right; reflexivity]|]].
Defined.

Lemma encodeProps_fresh (enc : value -> result value)
    (props outs acc : list (string * value)) :
  Forall2 (fun kv o => fst kv = fst o /\ enc (snd kv) = Ret (snd o)) props outs ->
  NoDup (map fst acc ++ map fst props) ->
  (forall k, In k (map fst props) -> k <> "__proto__" /\ parseIndex k = None) ->
  encodeProps enc props acc = Ret (acc ++ outs).
Proof.
  intros H. revert acc.
  induction H as [|[k v] [k' o] props outs [Hk He] _ IH]; intros acc Hnd Hkeys.
  - cbn [encodeProps]. rewrite app_nil_r. reflexivity.
  - cbn [fst snd] in Hk, He. subst k'.
    cbn [encodeProps]. rewrite He. cbn [bind].
    destruct (Hkeys k (or_introl eq_refl)) as [Hp Hidx].
    cbn [map fst] in Hnd.
    rewrite assignProp_fresh; [|exact Hp| |exact Hidx].
    + cbn [bind]. rewrite IH.
      * rewrite <- app_assoc. reflexivity.
      * rewrite map_app. cbn [map fst]. rewrite <- app_assoc. exact Hnd.
      * intros k' Hk'. apply Hkeys. right. exact Hk'.
    + apply NoDup_remove_2 in Hnd. intros Hin. apply Hnd. apply in_or_app. left. exact Hin.
Qed.

Lemma encode_object_steps (props step1 : list (string * value)) (json : string) :
  hasOwn "length" props = false ->
  encodeProps encode props [] = Ret step1 ->
  stringifyObject step1 = Ret json ->
  encode (VObj props) = Ret (VStr (String "o" json)).
Proof.
  intros Hlen Hstep1 Hjson.
  assert (Ht : exists t, getType (VObj props) = Ret t /\ typeChar t = Some "o"%char).
  { unfold hasOwn in Hlen. destruct (own "length" props) eqn:E; [discriminate|].
    rewrite (getType_obj_no_length props E).
    destruct (hasEnumerable (VObj props)); eexists; split; reflexivity. }
  destruct Ht as [t [Ht Hc]].
  cbn [encode]. rewrite Ht. cbn [bind]. rewrite Hc.
  change (Ascii.eqb "o" "a") with false. change (Ascii.eqb "o" "o") with true.
  cbv iota. rewrite Hstep1. cbn [bind]. rewrite Hjson. reflexivity.
Qed.

Lemma In_filter_keys {V : Type} (f : string * V -> bool) (props : list (string * V))
    (k : string) :
  In k (map fst (filter f props)) -> In k (map fst props).
Proof.
  intros H. apply in_map_iff in H. destruct H as [kv [Hk Hin]].
  apply filter_In in Hin. apply in_map_iff. exists kv. split; [exact Hk|apply Hin].
Qed.

Lemma NoDup_filter_keys {V : Type} (f : string * V -> bool) (props : list (string * V)) :
  NoDup (map fst props) -> NoDup (map fst (filter f props)).
Proof.
  induction props as [|kv props IH]; intros H; [constructor|].
  cbn [map] in H. inversion H as [|k ks Hk Hks]; subst.
  cbn [filter]. destruct (f kv); [|apply IH; exact Hks].
  cbn [map]. constructor; [|apply IH; exact Hks].
  intros Hin. apply Hk. apply (In_filter_keys f props _ Hin).
Qed.

Lemma plainKeys_filter {V : Type} (f : string * V -> bool) (props : list (string * V)) :
  plainKeys (map fst props) -> plainKeys (map fst (filter f props)).
Proof.
  intros [Hnd Hkeys]. split; [apply NoDup_filter_keys; exact Hnd|].
  intros k Hk. apply Hkeys. apply (In_filter_keys f props k Hk).
Qed.

Lemma members_of_object (props : list (string * value)) :
  Forall (fun kv => encodable (snd kv) = true \/ encode (snd kv) = Ret VUndef) props ->
  exists (step1 : list (string * value)) (ms : list (string * string)),
    Forall2 (fun kv o => fst kv = fst o /\ encode (snd kv) = Ret (snd o)) props step1 /\
    (exists pieces, mapM stringifyMember step1 = Ret pieces /\
       concat pieces =
       map (fun ke => quoteJSON (fst ke) ++ ":" ++ quoteJSON (snd ke))%string ms) /\
    Forall2 (fun kv ke => fst kv = fst ke /\ encodesAs (snd kv) (snd ke))
            (filter (fun kv => encodable (snd kv)) props) ms.
Proof.
  induction 1 as [|[k v] props Hv _ [step1 [ms [Hstep1 [[pieces [Hpieces Hcat]] Hms]]]]].
  - exists [], []. split; [constructor|]. split; [exists []; split; reflexivity|constructor].
  - cbn [snd] in Hv. cbn [filter snd]. destruct (encodable v) eqn:Henc.
    + destruct (encodable_encodesAs v Henc) as [e He].
      exists ((k, VStr e) :: step1), ((k, e) :: ms). split; [|split].
      * constructor; [|exact Hstep1]. split; [reflexivity|apply He].
      * exists ([(quoteJSON k ++ ":" ++ quoteJSON e)%string] :: pieces). split.
        -- cbn [mapM]. unfold stringifyMember at 1. cbn [fst snd bind].
           rewrite Hpieces. reflexivity.
        -- cbn [concat map app fst snd]. rewrite Hcat. reflexivity.
      * constructor; [|exact Hms]. split; [reflexivity|exact He].
    + destruct Hv as [Hv|Hv]; [discriminate Hv|].
      exists ((k, VUndef) :: step1), ms. split; [|split].
      * constructor; [|exact Hstep1]. split; [reflexivity|exact Hv].
      * exists ([] :: pieces). split.
        -- cbn [mapM]. unfold stringifyMember at 1. cbn [fst snd bind].
           rewrite Hpieces. reflexivity.
        -- cbn [concat app]. exact Hcat.
      * exact Hms.
Qed.

(** X27.  In an object whose keys are distinct, not indices, not [length]
    and not [__proto__], a member whose value [encode] has no string for
    (a function, a symbol, a regular expression) is missing after [encode]
    and [decode]; the other members come back as they were, in the same
    order. *)
Theorem object_drops_members (props : list (string * value)) :
  hasOwn "length" props = false ->
  distinctKeys props = true ->
  forallb (fun kv => negb (fst kv =? "__proto__") && isNone (parseIndex (fst kv))) props
    = true ->
  Forall (fun kv => encodable (snd kv) = true \/ encode (snd kv) = Ret VUndef) props ->
  (text <- encode (VObj props) ;; decode text) =
  Ret (VObj (filter (fun kv => encodable (snd kv)) props)).
Proof.
  intros Hlen Hdist Hkeys Hvalues.
  assert (Hplain : plainKeys (map fst props)).
  { split; [apply distinctKeys_NoDup; exact Hdist|].
    intros k Hk. apply in_map_iff in Hk. destruct Hk as [kv [<- Hin]].
    rewrite forallb_forall in Hkeys. specialize (Hkeys kv Hin).
    apply andb_true_iff in Hkeys. destruct Hkeys as [Hp Hidx]. split.
    - apply negb_true_iff in Hp. apply String.eqb_neq. exact Hp.
    - destruct (parseIndex (fst kv)); [discriminate|reflexivity]. }
  destruct (members_of_object props Hvalues)
    as [step1 [ms [Hstep1 [[pieces [Hpieces Hcat]] Hms]]]].
  assert (Hkeep : hasOwn "length" (filter (fun kv => encodable (snd kv)) props) = false).
  { apply hasOwn_false_iff. intros Hin. apply (proj1 (hasOwn_false_iff _ _) Hlen).
    apply (In_filter_keys _ _ _ Hin). }
  destruct (encodesAs_object _ ms Hkeep (plainKeys_filter _ props Hplain) Hms)
    as [_ [Hh Hd]].
  rewrite (encode_object_steps props step1
             ("{" ++ joinWith ","
                (map (fun ke => quoteJSON (fst ke) ++ ":" ++ quoteJSON (snd ke))%string ms)
              ++ "}") Hlen).
  - cbn [bind decode]. apply Hd. exact Hh.
  - rewrite (encodeProps_fresh encode props step1 [] Hstep1); [reflexivity| |].
    + apply Hplain.
    + apply Hplain.
  - unfold stringifyObject. rewrite Hpieces. cbn [bind]. rewrite Hcat. reflexivity.
Qed.

Lemma object_drops_members_witness :
  (text <- encode (VObj [("k", VNum 24); ("run", VFun "run" 0); ("k2", VStr "Hello")]) ;;
   decode text) =
  Ret (VObj [("k", VNum 24); ("k2", VStr "Hello")]).
Proof.
  apply (object_drops_members [("k", VNum 24); ("run", VFun "run" 0); ("k2", VStr "Hello")]);
    try reflexivity.
  repeat first [apply Forall_nil
               |apply Forall_cons; [first [left; reflexivity|right; reflexivity]|]].
Defined.

(** X28.  An object that [getType] calls arraylike (a [length] above zero
    and a last index of its own) is sent down the array branch, where
    [data.map] is not a function: unless the object has a [map] of its
    own, [encode] throws a TypeError instead of returning a string. *)
Theorem encode_arraylike_object (props : list (string * value)) :
  getType (VObj props) = Ret "arraylike" ->
  own "map" props = None ->
  encode (VObj props) = Throw TypeError.
Proof.
  intros Ht Hmap. cbn [encode]. rewrite Ht. cbn [bind].
  change (typeChar "arraylike") with (Some "a"%char).
  change (Ascii.eqb "a" "a") with true. cbv iota.
  unfold methodFault. rewrite Hmap. reflexivity.
Qed.

Lemma encode_arraylike_object_witness :
  encode (VObj [("0", VStr "a"); ("1", VStr "b"); ("length", VNum 2)]) = Throw TypeError.
Proof. apply encode_arraylike_object; reflexivity. Defined.
